(** * Vehicle telemetry pipeline: a shallow embedding of [main.c]

    The program runs three threads over two shared objects: the sensor
    loop updates [vehicle_state] under [state_mutex], the logic loop
    reads it under the same mutex and enqueues reports into
    [cloud_queue], and the cloud loop drains that queue and retries
    failed sends.  This file embeds the data, the queue, the three loop
    bodies and an interleaving machine for the threads, and proves the
    properties claimed of them.

    Conventions.
    - A C [float] is an IEEE 754 binary32 value and a [double] a binary64
      value; both are [spec_float] values, computed with the operations
      of the standard library's [SpecFloat] at precision 24/128 and
      53/1024 (round to nearest, ties to even).  An operation on two
      [float]s is evaluated in [float], an operation with a [double]
      operand in [double], as the usual arithmetic conversions say.
    - A C [int] or [long] is a [Z].  Signed overflow and an array index
      out of bounds are undefined behaviour, modelled by [None].
    - The calls of [read_sensor_data], [printf], [queue_enqueue] and
      [send_to_cloud] are recorded in a list of [Event]s.
    - [rand], the clock and the transport are inputs of the model. *)

From Stdlib Require Import ZArith Lia Bool String.
From Stdlib Require Import Floats.SpecFloat.
From stdpp Require Import base option list list_numbers.

Local Open Scope Z_scope.

(* ================================================================== *)
(** * Part I: the program *)
(* ================================================================== *)

(** ** Floating point *)

(** [float] values are binary32, [double] values binary64. *)
Definition float := spec_float.
Definition double := spec_float.

Definition float_add : float -> float -> float := SFadd 24 128.
Definition float_sub : float -> float -> float := SFsub 24 128.
Definition float_mul : float -> float -> float := SFmul 24 128.
Definition float_div : float -> float -> float := SFdiv 24 128.
Definition double_add : double -> double -> double := SFadd 53 1024.
Definition double_sub : double -> double -> double := SFsub 53 1024.
Definition double_mul : double -> double -> double := SFmul 53 1024.
Definition double_div : double -> double -> double := SFdiv 53 1024.

(** A well-formed binary32 value: canonical mantissa, exponent in range. *)
Definition float_valid (x : float) : bool := valid_binary 24 128 x.

(** Conversion between formats: the value is rounded to the target
    format; zeros, infinities and NaN are kept. *)
Definition convert_to (prec emax : Z) (x : spec_float) : spec_float :=
  match x with
  | S754_finite s m e => binary_normalize prec emax (cond_Zopp s (Zpos m)) e s
  | _ => x
  end.

Definition float_of_double : double -> float := convert_to 24 128.
Definition double_of_float : float -> double := convert_to 53 1024.

(** Conversion of an [int] to [float]. *)
Definition float_of_int (z : Z) : float := binary_normalize 24 128 z 0 false.

(** The [double] nearest to [m * 2^e]. *)
Definition double_lit (m e : Z) : double := binary_normalize 53 1024 m e false.

(** [x > y]; false when either operand is NaN. *)
Definition fgt (x y : spec_float) : bool :=
  match SFcompare x y with
  | Some Gt => true
  | _ => false
  end.

(** [x < y] on [float]s, as in [if (speed < 0)]. *)
Definition flt (x y : spec_float) : bool := SFltb x y.

(** [fabs] on [double]. *)
Definition double_fabs : double -> double := SFabs.

(** The literals of the program. *)
Definition float_zero : float := S754_zero false.
Definition d_0_5 : double := double_lit 1 (-1).
Definition d_70_0 : double := double_lit 70 0.
Definition d_100_0 : double := double_lit 100 0.
Definition d_3600_0 : double := double_lit 3600 0.
Definition d_2_0 : double := double_lit 2 0.
Definition d_5_0 : double := double_lit 5 0.
Definition d_25_0 : double := double_lit 25 0.
Definition d_0_0 : double := double_lit 0 0.
(** [0.01] and [0.001] denote the doubles nearest to 1/100 and 1/1000. *)
Definition d_0_01 : double := double_div (double_lit 1 0) (double_lit 100 0).
Definition d_0_001 : double := double_div (double_lit 1 0) (double_lit 1000 0).

(** A float that is a number (not NaN) and not negative: [+0], [-0], a
    positive finite value or [+inf]. *)
Definition float_nonneg (x : float) : bool := SFleb float_zero x.

(** [x <= y] on floats; false when either operand is NaN. *)
Definition fle (x y : float) : bool := SFleb x y.

(** Following the spec's words, [max(a, b)]: the larger of two numbers,
    written with the one comparison [a < b]. *)
Definition float_max (a b : float) : float := if SFltb a b then b else a.

(** ** Data *)

Record SensorData := {
  battery : float;
  speed : float;
  temp : float
}.

Record VehicleState := {
  total_distance : float;
  top_speed : float;
  last_battery : float;
  is_moving : bool;
  current_sensor : SensorData
}.

(** The field [top_speed] of [CloudData] is [cd_top_speed] here. *)
Record CloudData := {
  sensor : SensorData;
  distance : float;
  cd_top_speed : float;
  timestamp : Z
}.

Definition QUEUE_SIZE : Z := 1000.

(** The queue's [mutex] is held over the whole body of [queue_enqueue]
    and of [queue_dequeue]; each call is one atomic operation on the
    remaining fields. *)
Record CloudQueue := {
  data : list CloudData;
  front : Z;
  rear : Z;
  count : Z
}.

(** [= {0}]: every field zero. *)
Definition SensorData_zero : SensorData :=
  {| battery := float_zero; speed := float_zero; temp := float_zero |}.

Definition CloudData_zero : CloudData :=
  {| sensor := SensorData_zero; distance := float_zero;
     cd_top_speed := float_zero; timestamp := 0 |}.

(** [VehicleState vehicle_state = {0};] *)
Definition vehicle_state_init : VehicleState :=
  {| total_distance := float_zero; top_speed := float_zero;
     last_battery := float_zero; is_moving := false;
     current_sensor := SensorData_zero |}.

(** [CloudQueue cloud_queue = {0};] *)
Definition cloud_queue_zero : CloudQueue :=
  {| data := replicate (Z.to_nat QUEUE_SIZE) CloudData_zero;
     front := 0; rear := 0; count := 0 |}.

Inductive CloudStatus := SUCCESS | FAILURE.

(** What a loop body does besides changing its state: the calls of
    [read_sensor_data], [printf], [queue_enqueue] and [send_to_cloud]. *)
Inductive Event :=
  | SensorCall (reading : SensorData)
  | Print (line : string)
  | EnqueueCall (d : CloudData) (accepted : bool)
  | SendCall (d : CloudData) (status : CloudStatus).

(** ** C integers and arrays *)

Definition INT_MIN : Z := -2147483648.
Definition INT_MAX : Z := 2147483647.
Definition LONG_MIN : Z := -9223372036854775808.
Definition LONG_MAX : Z := 9223372036854775807.

(** [a + b] on [int]; overflow is undefined. *)
Definition int_add (a b : Z) : option Z :=
  let r := a + b in
  if (INT_MIN <=? r) && (r <=? INT_MAX) then Some r else None.

(** [a - b] on [int]; overflow is undefined. *)
Definition int_sub (a b : Z) : option Z :=
  let r := a - b in
  if (INT_MIN <=? r) && (r <=? INT_MAX) then Some r else None.

(** [a[i]] and [a[i] = x]; an index outside the array is undefined. *)
Definition array_get {A} (a : list A) (i : Z) : option A :=
  if 0 <=? i then a !! Z.to_nat i else None.

Definition array_set {A} (a : list A) (i : Z) (x : A) : option (list A) :=
  if (0 <=? i) && (i <? Z.of_nat (length a))
  then Some (<[Z.to_nat i := x]> a) else None.

(** ** The queue *)

Definition queue_init (q : CloudQueue) : CloudQueue :=
  {| data := data q; front := 0; rear := -1; count := 0 |}.

(** [%] on [int] truncates towards zero: [Z.rem]. *)
Definition queue_enqueue (q : CloudQueue) (d : CloudData)
  : option (CloudQueue * bool) :=
  if QUEUE_SIZE <=? count q then Some (q, false)
  else
    r ← int_add (rear q) 1;
    let rear' := Z.rem r QUEUE_SIZE in
    data' ← array_set (data q) rear' d;
    count' ← int_add (count q) 1;
    Some ({| data := data'; front := front q; rear := rear'; count := count' |},
          true).

(** The result [Some d] stands for [true] with [*data = d], [None] for
    [false] with [*data] untouched. *)
Definition queue_dequeue (q : CloudQueue)
  : option (CloudQueue * option CloudData) :=
  if count q =? 0 then Some (q, None)
  else
    d ← array_get (data q) (front q);
    f ← int_add (front q) 1;
    count' ← int_sub (count q) 1;
    Some ({| data := data q; front := Z.rem f QUEUE_SIZE; rear := rear q;
             count := count' |},
          Some d).

(** The queue as [main] leaves it before the threads start. *)
Definition cloud_queue_init : CloudQueue := queue_init cloud_queue_zero.

(** Sequences of calls on one queue. *)
Inductive QueueOp :=
  | OpEnqueue (d : CloudData)
  | OpDequeue.

Inductive QueueRet :=
  | RetEnqueue (d : CloudData) (accepted : bool)
  | RetDequeue (r : option CloudData).

Definition queue_call (q : CloudQueue) (op : QueueOp)
  : option (CloudQueue * QueueRet) :=
  match op with
  | OpEnqueue d => '(q', ok) ← queue_enqueue q d; Some (q', RetEnqueue d ok)
  | OpDequeue => '(q', r) ← queue_dequeue q; Some (q', RetDequeue r)
  end.

Fixpoint queue_run (q : CloudQueue) (ops : list QueueOp)
  : option (CloudQueue * list QueueRet) :=
  match ops with
  | [] => Some (q, [])
  | op :: ops' =>
      '(q1, r) ← queue_call q op;
      '(q2, rs) ← queue_run q1 ops';
      Some (q2, r :: rs)
  end.

(** The records accepted by the enqueues of a run, and the records
    handed out by its dequeues, each in call order. *)
Fixpoint accepted (rs : list QueueRet) : list CloudData :=
  match rs with
  | [] => []
  | RetEnqueue d true :: rs' => d :: accepted rs'
  | _ :: rs' => accepted rs'
  end.

Fixpoint delivered (rs : list QueueRet) : list CloudData :=
  match rs with
  | [] => []
  | RetDequeue (Some d) :: rs' => d :: delivered rs'
  | _ :: rs' => delivered rs'
  end.

(** The records held by the queue, oldest first: the [count] slots from
    [front] on, around the end of the array. *)
Definition slot (q : CloudQueue) (i : Z) : CloudData :=
  default CloudData_zero
    (data q !! Z.to_nat ((front q + i) `mod` QUEUE_SIZE)).

Definition contents (q : CloudQueue) : list CloudData :=
  slot q <$> seqZ 0 (count q).

(** The shape every queue reached from [cloud_queue_init] has. *)
Definition queue_wf (q : CloudQueue) : Prop :=
  length (data q) = Z.to_nat QUEUE_SIZE ∧
  0 <= front q < QUEUE_SIZE ∧
  -1 <= rear q < QUEUE_SIZE ∧
  0 <= count q <= QUEUE_SIZE ∧
  (rear q + 1) `mod` QUEUE_SIZE = (front q + count q) `mod` QUEUE_SIZE.

(** ** The sensor source: [read_sensor_data]

    [rand ()] returns an [int] between 0 and [RAND_MAX], a constant of
    the C library, which the model takes as a parameter together with
    the two values [rand] returns in a call. *)

(** The [static] variables of the function. *)
Record SensorStatics := {
  static_battery : float;
  static_speed : float;
  static_temp : float
}.

Definition sensor_statics_init : SensorStatics :=
  {| static_battery := float_of_double d_100_0;
     static_speed := float_of_double d_0_0;
     static_temp := float_of_double d_25_0 |}.

(** [(float) rand () / RAND_MAX]: a [float] division. *)
Definition rand_unit (RAND_MAX r : Z) : float :=
  float_div (float_of_int r) (float_of_int RAND_MAX).

(** [x += ((float) rand () / RAND_MAX - 0.5) * scale]: the arithmetic is
    in [double], the result is stored in a [float]. *)
Definition random_walk (RAND_MAX r : Z) (scale : double) (x : float) : float :=
  float_of_double
    (double_add (double_of_float x)
       (double_mul (double_sub (double_of_float (rand_unit RAND_MAX r)) d_0_5)
          scale)).

(** [if (x < lo) x = lo; if (x > hi) x = hi;] with [int] bounds. *)
Definition clamp (lo hi : Z) (x : float) : float :=
  let x := if flt x (float_of_int lo) then float_of_int lo else x in
  if fgt x (float_of_int hi) then float_of_int hi else x.

Definition read_sensor_data (RAND_MAX r1 r2 : Z) (st : SensorStatics)
  : SensorData * SensorStatics :=
  let b := float_of_double (double_sub (double_of_float (static_battery st)) d_0_001) in
  let b := if flt b (float_of_int 0) then float_of_double d_100_0 else b in
  let s := clamp 0 80 (random_walk RAND_MAX r1 d_5_0 (static_speed st)) in
  let t := clamp 20 75 (random_walk RAND_MAX r2 d_2_0 (static_temp st)) in
  ({| battery := b; speed := s; temp := t |},
   {| static_battery := b; static_speed := s; static_temp := t |}).

(** The readings of successive calls, for the values [rand] returns. *)
Fixpoint sensor_run (RAND_MAX : Z) (rands : list (Z * Z)) (st : SensorStatics)
  : list SensorData :=
  match rands with
  | [] => []
  | (r1, r2) :: rest =>
      let '(d, st') := read_sensor_data RAND_MAX r1 r2 st in
      d :: sensor_run RAND_MAX rest st'
  end.

(** What [rand] may return. *)
Definition rand_values (RAND_MAX : Z) (rs : Z * Z) : Prop :=
  0 <= fst rs <= RAND_MAX /\ 0 <= snd rs <= RAND_MAX.

(** ** The sensor loop: [fast_loop_thread] *)

(** [float time_hours = 0.01 / 3600.0;]: a [double] division, stored in
    a [float]. *)
Definition time_hours : float := float_of_double (double_div d_0_01 d_3600_0).

(** Assignments to the fields of [vehicle_state]. *)
Definition store_current_sensor (vs : VehicleState) (s : SensorData) :=
  {| total_distance := total_distance vs; top_speed := top_speed vs;
     last_battery := last_battery vs; is_moving := is_moving vs;
     current_sensor := s |}.

Definition store_total_distance (vs : VehicleState) (x : float) :=
  {| total_distance := x; top_speed := top_speed vs;
     last_battery := last_battery vs; is_moving := is_moving vs;
     current_sensor := current_sensor vs |}.

Definition store_top_speed (vs : VehicleState) (x : float) :=
  {| total_distance := total_distance vs; top_speed := x;
     last_battery := last_battery vs; is_moving := is_moving vs;
     current_sensor := current_sensor vs |}.

Definition store_is_moving (vs : VehicleState) (b : bool) :=
  {| total_distance := total_distance vs; top_speed := top_speed vs;
     last_battery := last_battery vs; is_moving := b;
     current_sensor := current_sensor vs |}.

(** The four statements between [pthread_mutex_lock (&state_mutex)] and
    [pthread_mutex_unlock (&state_mutex)].  [sensor.speed > 0.5] compares
    in [double]. *)
Definition update_distance (sensor : SensorData) (vs : VehicleState) :=
  store_total_distance vs
    (float_add (total_distance vs) (float_mul (speed sensor) time_hours)).

Definition update_top_speed (sensor : SensorData) (vs : VehicleState) :=
  if fgt (speed sensor) (top_speed vs)
  then store_top_speed vs (speed sensor) else vs.

Definition update_is_moving (sensor : SensorData) (vs : VehicleState) :=
  store_is_moving vs (fgt (double_of_float (speed sensor)) d_0_5).

(** One pass of the loop body over [vehicle_state], for the reading
    [read_sensor_data] returned. *)
Definition fast_loop_update (sensor : SensorData) (vs : VehicleState)
  : VehicleState :=
  let vs := store_current_sensor vs sensor in
  let vs := update_distance sensor vs in
  let vs := update_top_speed sensor vs in
  update_is_moving sensor vs.

(** The state after the loop has consumed the readings, oldest first. *)
Definition fast_loop_run (readings : list SensorData) (vs : VehicleState)
  : VehicleState :=
  fold_left (fun vs s => fast_loop_update s vs) readings vs.

(** ** The logic loop: [slow_loop_thread] *)

(** [get_timestamp_ms], for the [tv_sec] and [tv_nsec] the clock
    returns; [/] on [long] truncates. *)
Definition get_timestamp_ms (tv_sec tv_nsec : Z) : Z :=
  tv_sec * 1000 + Z.quot tv_nsec 1000000.

(** [long last_send_time] and [float last_battery_sent], local to the
    thread.  A timestamp is a [long] returned by [get_timestamp_ms], not
    negative; the difference of two such values is a [long] again
    ([timestamp_difference] below), so [Z] subtraction is the
    program's. *)
Record SlowLocals := {
  last_send_time : Z;
  last_battery_sent : float
}.

(** The locals when the loop is entered at time [now]. *)
Definition slow_loop_entry (now : Z) : SlowLocals :=
  {| last_send_time := now; last_battery_sent := float_of_double d_100_0 |}.

(** [fabs (current.battery - last_battery_sent)]: a [float] difference,
    [fabs] on [double], stored in a [float]. *)
Definition battery_change (current : SensorData) (l : SlowLocals) : float :=
  float_of_double
    (double_fabs (double_of_float (float_sub (battery current) (last_battery_sent l)))).

(** [current.temp > 70.0] *)
Definition temp_critical (current : SensorData) : bool :=
  fgt (double_of_float (temp current)) d_70_0.

(** The record one pass builds. *)
Definition build_cloud_data (vs : VehicleState) (now : Z) : CloudData :=
  {| sensor := current_sensor vs; distance := total_distance vs;
     cd_top_speed := top_speed vs; timestamp := now |}.

(** The conditions of the three [if]s. *)
Definition rule1 (vs : VehicleState) (l : SlowLocals) : bool :=
  negb (is_moving vs)
  && fgt (double_of_float (battery_change (current_sensor vs) l)) d_0_5.

Definition rule2 (vs : VehicleState) (now : Z) (l : SlowLocals) : bool :=
  is_moving vs && (1000 <=? now - last_send_time l).

Definition rule3 (vs : VehicleState) : bool :=
  temp_critical (current_sensor vs).

(** The variables a pass has set when it unlocks [state_mutex]. *)
Record SlowTick := {
  cloud_data : CloudData;
  should_send : bool;
  locals : SlowLocals;
  printed : list Event
}.

(** The statements between lock and unlock; [now] is what
    [get_timestamp_ms] returns there. *)
Definition slow_loop_critical (vs : VehicleState) (now : Z) (l : SlowLocals)
  : SlowTick :=
  let current := current_sensor vs in
  let t := {| cloud_data := build_cloud_data vs now; should_send := false;
              locals := l; printed := [] |} in
  (* Rule 1: Battery change when idle *)
  let t :=
    if rule1 vs l then
      {| cloud_data := cloud_data t; should_send := true;
         locals := {| last_send_time := last_send_time (locals t);
                      last_battery_sent := battery current |};
         printed := printed t ++ [Print "[Logic] Battery changed while idle"] |}
    else t in
  (* Rule 2: Send every second when moving *)
  let t :=
    if rule2 vs (timestamp (cloud_data t)) (locals t) then
      {| cloud_data := cloud_data t; should_send := true;
         locals := {| last_send_time := timestamp (cloud_data t);
                      last_battery_sent := last_battery_sent (locals t) |};
         printed := printed t ++ [Print "[Logic] Periodic update (moving)"] |}
    else t in
  (* Rule 3: Critical temperature *)
  let t :=
    if rule3 vs then
      {| cloud_data := cloud_data t; should_send := true;
         locals := locals t;
         printed := printed t ++ [Print "[Logic] CRITICAL TEMP ALERT!"] |}
    else t in
  t.

(** One pass of the loop body: the critical section, then the enqueue. *)
Definition slow_loop_iteration (vs : VehicleState) (now : Z) (l : SlowLocals)
    (q : CloudQueue) : option (SlowLocals * CloudQueue * list Event) :=
  let t := slow_loop_critical vs now l in
  if should_send t then
    '(q', ok) ← queue_enqueue q (cloud_data t);
    Some (locals t, q',
          printed t ++ EnqueueCall (cloud_data t) ok ::
            (if ok then [] else [Print "[Logic] Warning: Queue full!"]))
  else Some (locals t, q, printed t).

(** The [queue_enqueue] calls among the events of a pass. *)
Fixpoint enqueue_calls (evs : list Event) : list (CloudData * bool) :=
  match evs with
  | [] => []
  | EnqueueCall d ok :: evs' => (d, ok) :: enqueue_calls evs'
  | _ :: evs' => enqueue_calls evs'
  end.

(** ** The cloud loop: [cloud_sender_thread] *)

(** What follows a successful [queue_dequeue]: [send_to_cloud] returned
    [status] for [d], and [q] is the queue at that time.  The result of
    the retry's [queue_enqueue] is not looked at. *)
Definition cloud_sender_sent (status : CloudStatus) (d : CloudData)
    (q : CloudQueue) : option (CloudQueue * list Event) :=
  match status with
  | FAILURE =>
      '(q', ok) ← queue_enqueue q d;
      Some (q', [SendCall d FAILURE; Print "[Cloud] Retrying...";
                 EnqueueCall d ok])
  | SUCCESS => Some (q, [SendCall d SUCCESS])
  end.

(** One pass of the loop body with no other thread running in between;
    [status] is what [send_to_cloud] returns if it is called. *)
Definition cloud_sender_iteration (status : CloudStatus) (q : CloudQueue)
  : option (CloudQueue * list Event) :=
  '(q1, r) ← queue_dequeue q;
  match r with
  | Some d => cloud_sender_sent status d q1
  | None => Some (q1, [])
  end.

(** Passes of the loop, one per transport answer. *)
Fixpoint cloud_sender_run (statuses : list CloudStatus) (q : CloudQueue)
  : option (CloudQueue * list Event) :=
  match statuses with
  | [] => Some (q, [])
  | st :: sts =>
      '(q1, evs1) ← cloud_sender_iteration st q;
      '(q2, evs2) ← cloud_sender_run sts q1;
      Some (q2, evs1 ++ evs2)
  end.

(** ** Predicates used in the proofs *)

(** [r] has sign [s] and is a zero, a finite number or an infinity. *)
Definition signed_number (s : bool) (r : spec_float) : Prop :=
  match r with
  | S754_zero s' | S754_infinity s' | S754_finite s' _ _ => s' = s
  | S754_nan => False
  end.

(** [r] has sign [s] and magnitude at least [px * 2^ex], in the order
    [SFcompare] uses: exponents first, then mantissas. *)
Definition at_least (px : positive) (ex : Z) (s : bool) (r : spec_float) : Prop :=
  match r with
  | S754_infinity s' => s' = s
  | S754_finite s' m e => s' = s /\ (ex < e \/ (ex = e /\ Zpos px <= Zpos m))
  | _ => False
  end.

(** [x] is a number that is not negative: a zero of either sign, a
    positive finite number or [+inf]. *)
Definition nonneg_number (x : spec_float) : Prop :=
  match x with
  | S754_zero _ => True
  | S754_infinity s | S754_finite s _ _ => s = false
  | S754_nan => False
  end.

(** [x] is a zero or a finite number: neither an infinity nor NaN. *)
Definition finite_number (x : spec_float) : Prop :=
  match x with
  | S754_zero _ | S754_finite _ _ _ => True
  | _ => False
  end.

(** What the sensor loop keeps true of [vehicle_state]: the distance
    is a well-formed number that is not negative, the top speed is a
    number. *)
Definition state_ok (vs : VehicleState) : Prop :=
  float_valid (total_distance vs) = true /\
  nonneg_number (total_distance vs) /\
  top_speed vs <> S754_nan.

(** [vehicle_state.last_battery = x], a statement the program does not
    have: used to say that no statement reads the field. *)
Definition store_last_battery (vs : VehicleState) (x : float) :=
  {| total_distance := total_distance vs; top_speed := top_speed vs;
     last_battery := x; is_moving := is_moving vs;
     current_sensor := current_sensor vs |}.

(** ** A reading of the rule-independence property

    The three sentences of the property, with "a record is enqueued"
    read as: the queue holds one record more after the pass, the record
    built in that pass.  [rule_independence_unconditional] states them
    for every queue the pass may meet. *)
Definition pass_enqueues (vs : VehicleState) (now : Z) (l : SlowLocals)
    (q : CloudQueue) (bookkeeping : SlowLocals -> Prop) : Prop :=
  exists l' q' evs,
    slow_loop_iteration vs now l q = Some (l', q', evs) /\
    contents q' = contents q ++ [build_cloud_data vs now] /\
    bookkeeping l'.

Definition rule_independence_unconditional : Prop :=
  forall vs now l q, queue_wf q ->
    (is_moving vs = false ->
     fgt (double_of_float (battery_change (current_sensor vs) l)) d_0_5 = true ->
     temp_critical (current_sensor vs) = false ->
     pass_enqueues vs now l q
       (fun l' => last_battery_sent l' = battery (current_sensor vs))) /\
    (is_moving vs = true -> 1000 <= now - last_send_time l ->
     pass_enqueues vs now l q (fun l' => last_send_time l' = now)) /\
    (temp_critical (current_sensor vs) = true ->
     pass_enqueues vs now l q (fun _ => True)).

(** What the call [queue_enqueue q d] of a pass does to a queue. *)
Definition enqueue_effect (q : CloudQueue) (d : CloudData) (q' : CloudQueue)
  : Prop :=
  (count q < QUEUE_SIZE -> contents q' = contents q ++ [d]) /\
  (count q = QUEUE_SIZE -> q' = q).

(** ** The three threads together

    The threads run interleaved, one statement at a time.  A thread that
    calls [pthread_mutex_lock (&state_mutex)] while another thread holds
    the mutex waits; unlocking a mutex the thread does not hold is
    undefined.  [queue_enqueue] and [queue_dequeue] are single steps. *)

Inductive Thread := Fast | Slow | Cloud.

(** Where [fast_loop_thread] stands: before the statement named. *)
Inductive FastPc :=
  | F_read_sensor      (* SensorData sensor = read_sensor_data (); *)
  | F_lock             (* pthread_mutex_lock (&state_mutex); *)
  | F_current_sensor   (* vehicle_state.current_sensor = sensor; *)
  | F_total_distance   (* vehicle_state.total_distance += ...; *)
  | F_top_speed        (* if (sensor.speed > vehicle_state.top_speed) ... *)
  | F_is_moving        (* vehicle_state.is_moving = (sensor.speed > 0.5); *)
  | F_unlock           (* pthread_mutex_unlock (&state_mutex); *)
  | F_sleep.           (* usleep (10000); *)

Record FastThread := {
  fast_pc : FastPc;
  fast_sensor : SensorData
}.

(** Where [slow_loop_thread] stands. *)
Inductive SlowPc :=
  | S_lock             (* pthread_mutex_lock (&state_mutex); *)
  | S_current          (* SensorData current = vehicle_state.current_sensor; *)
  | S_is_moving        (* bool is_moving = vehicle_state.is_moving; *)
  | S_battery_change   (* float battery_change = fabs (...); *)
  | S_temp_critical    (* bool temp_critical = current.temp > 70.0; *)
  | S_sensor           (* cloud_data.sensor = current; *)
  | S_distance         (* cloud_data.distance = vehicle_state.total_distance; *)
  | S_top_speed        (* cloud_data.top_speed = vehicle_state.top_speed; *)
  | S_timestamp        (* cloud_data.timestamp = get_timestamp_ms (); *)
  | S_should_send      (* bool should_send = false; *)
  | S_rule1
  | S_rule2
  | S_rule3
  | S_unlock           (* pthread_mutex_unlock (&state_mutex); *)
  | S_enqueue          (* if (should_send) { if (!queue_enqueue (...)) ... } *)
  | S_sleep.           (* usleep (100000); *)

Record SlowThread := {
  slow_pc : SlowPc;
  s_current : SensorData;
  s_is_moving : bool;
  s_battery_change : float;
  s_temp_critical : bool;
  s_cloud_data : CloudData;
  s_should_send : bool;
  s_locals : SlowLocals
}.

(** Where [cloud_sender_thread] stands. *)
Inductive CloudPc :=
  | C_dequeue          (* if (queue_dequeue (&cloud_queue, &data)) *)
  | C_send             (* CloudStatus status = send_to_cloud (&data); *)
  | C_retry            (* queue_enqueue (&cloud_queue, &data); *)
  | C_sleep.           (* usleep (100000); *)

Record CloudThread := {
  cloud_pc : CloudPc;
  c_data : CloudData
}.

Record Machine := {
  vehicle_state : VehicleState;
  state_mutex : option Thread;
  cloud_queue : CloudQueue;
  fast : FastThread;
  slow : SlowThread;
  cloud : CloudThread;
  trace : list Event
}.

(** What the environment hands to a step: the reading
    [read_sensor_data] returns, the clock, the transport's answer. *)
Record Input := {
  in_reading : SensorData;
  in_now : Z;
  in_status : CloudStatus
}.

(** The machine when the three threads have been created; [start] is
    what [get_timestamp_ms] returned for [last_send_time]. *)
Definition machine_init (start : Z) : Machine :=
  {| vehicle_state := vehicle_state_init;
     state_mutex := None;
     cloud_queue := cloud_queue_init;
     fast := {| fast_pc := F_read_sensor; fast_sensor := SensorData_zero |};
     slow := {| slow_pc := S_lock; s_current := SensorData_zero;
                s_is_moving := false; s_battery_change := float_zero;
                s_temp_critical := false; s_cloud_data := CloudData_zero;
                s_should_send := false; s_locals := slow_loop_entry start |};
     cloud := {| cloud_pc := C_dequeue; c_data := CloudData_zero |};
     trace := [] |}.

Definition set_vehicle_state (m : Machine) (vs : VehicleState) : Machine :=
  {| vehicle_state := vs; state_mutex := state_mutex m;
     cloud_queue := cloud_queue m; fast := fast m; slow := slow m;
     cloud := cloud m; trace := trace m |}.

Definition set_state_mutex (m : Machine) (o : option Thread) : Machine :=
  {| vehicle_state := vehicle_state m; state_mutex := o;
     cloud_queue := cloud_queue m; fast := fast m; slow := slow m;
     cloud := cloud m; trace := trace m |}.

Definition set_cloud_queue (m : Machine) (q : CloudQueue) : Machine :=
  {| vehicle_state := vehicle_state m; state_mutex := state_mutex m;
     cloud_queue := q; fast := fast m; slow := slow m;
     cloud := cloud m; trace := trace m |}.

Definition set_fast (m : Machine) (f : FastThread) : Machine :=
  {| vehicle_state := vehicle_state m; state_mutex := state_mutex m;
     cloud_queue := cloud_queue m; fast := f; slow := slow m;
     cloud := cloud m; trace := trace m |}.

Definition set_slow (m : Machine) (s : SlowThread) : Machine :=
  {| vehicle_state := vehicle_state m; state_mutex := state_mutex m;
     cloud_queue := cloud_queue m; fast := fast m; slow := s;
     cloud := cloud m; trace := trace m |}.

Definition set_cloud (m : Machine) (c : CloudThread) : Machine :=
  {| vehicle_state := vehicle_state m; state_mutex := state_mutex m;
     cloud_queue := cloud_queue m; fast := fast m; slow := slow m;
     cloud := c; trace := trace m |}.

Definition emit (m : Machine) (evs : list Event) : Machine :=
  {| vehicle_state := vehicle_state m; state_mutex := state_mutex m;
     cloud_queue := cloud_queue m; fast := fast m; slow := slow m;
     cloud := cloud m; trace := trace m ++ evs |}.

Definition fast_goto (m : Machine) (pc : FastPc) : Machine :=
  set_fast m {| fast_pc := pc; fast_sensor := fast_sensor (fast m) |}.

Definition slow_goto (m : Machine) (pc : SlowPc) : Machine :=
  let s := slow m in
  set_slow m {| slow_pc := pc; s_current := s_current s;
                s_is_moving := s_is_moving s;
                s_battery_change := s_battery_change s;
                s_temp_critical := s_temp_critical s;
                s_cloud_data := s_cloud_data s;
                s_should_send := s_should_send s; s_locals := s_locals s |}.

Definition cloud_goto (m : Machine) (pc : CloudPc) : Machine :=
  set_cloud m {| cloud_pc := pc; c_data := c_data (cloud m) |}.

Definition eqb_thread (a b : Thread) : bool :=
  match a, b with
  | Fast, Fast | Slow, Slow | Cloud, Cloud => true
  | _, _ => false
  end.

(** [pthread_mutex_lock (&state_mutex)] by thread [t], then go on with
    [k]; the thread waits where it is while the mutex is held. *)
Definition mutex_lock (t : Thread) (m : Machine) (k : Machine -> Machine)
  : option Machine :=
  match state_mutex m with
  | None => Some (k (set_state_mutex m (Some t)))
  | Some _ => Some m
  end.

(** [pthread_mutex_unlock (&state_mutex)] by thread [t]. *)
Definition mutex_unlock (t : Thread) (m : Machine) (k : Machine -> Machine)
  : option Machine :=
  match state_mutex m with
  | Some t' => if eqb_thread t t' then Some (k (set_state_mutex m None)) else None
  | None => None
  end.

(** One statement of [fast_loop_thread]. *)
Definition fast_step (i : Input) (m : Machine) : option Machine :=
  let sensor := fast_sensor (fast m) in
  match fast_pc (fast m) with
  | F_read_sensor =>
      Some (emit
              (set_fast m {| fast_pc := F_lock; fast_sensor := in_reading i |})
              [SensorCall (in_reading i)])
  | F_lock => mutex_lock Fast m (fun m => fast_goto m F_current_sensor)
  | F_current_sensor =>
      Some (fast_goto
              (set_vehicle_state m (store_current_sensor (vehicle_state m) sensor))
              F_total_distance)
  | F_total_distance =>
      Some (fast_goto
              (set_vehicle_state m (update_distance sensor (vehicle_state m)))
              F_top_speed)
  | F_top_speed =>
      Some (fast_goto
              (set_vehicle_state m (update_top_speed sensor (vehicle_state m)))
              F_is_moving)
  | F_is_moving =>
      Some (fast_goto
              (set_vehicle_state m (update_is_moving sensor (vehicle_state m)))
              F_unlock)
  | F_unlock => mutex_unlock Fast m (fun m => fast_goto m F_sleep)
  | F_sleep => Some (fast_goto m F_read_sensor)
  end.

(** One statement of [slow_loop_thread]. *)
Definition slow_step (i : Input) (m : Machine) : option Machine :=
  let s := slow m in
  let vs := vehicle_state m in
  let next pc current is_moving battery_change temp_critical cloud_data
           should_send locals :=
    set_slow m {| slow_pc := pc; s_current := current;
                  s_is_moving := is_moving;
                  s_battery_change := battery_change;
                  s_temp_critical := temp_critical;
                  s_cloud_data := cloud_data;
                  s_should_send := should_send; s_locals := locals |} in
  let cd := s_cloud_data s in
  match slow_pc s with
  | S_lock => mutex_lock Slow m (fun m => slow_goto m S_current)
  | S_current =>
      Some (next S_is_moving (current_sensor vs) (s_is_moving s)
              (s_battery_change s) (s_temp_critical s) cd (s_should_send s)
              (s_locals s))
  | S_is_moving =>
      Some (next S_battery_change (s_current s) (is_moving vs)
              (s_battery_change s) (s_temp_critical s) cd (s_should_send s)
              (s_locals s))
  | S_battery_change =>
      Some (next S_temp_critical (s_current s) (s_is_moving s)
              (battery_change (s_current s) (s_locals s))
              (s_temp_critical s) cd (s_should_send s) (s_locals s))
  | S_temp_critical =>
      Some (next S_sensor (s_current s) (s_is_moving s) (s_battery_change s)
              (temp_critical (s_current s)) cd (s_should_send s) (s_locals s))
  | S_sensor =>
      Some (next S_distance (s_current s) (s_is_moving s) (s_battery_change s)
              (s_temp_critical s)
              {| sensor := s_current s; distance := distance cd;
                 cd_top_speed := cd_top_speed cd; timestamp := timestamp cd |}
              (s_should_send s) (s_locals s))
  | S_distance =>
      Some (next S_top_speed (s_current s) (s_is_moving s) (s_battery_change s)
              (s_temp_critical s)
              {| sensor := sensor cd; distance := total_distance vs;
                 cd_top_speed := cd_top_speed cd; timestamp := timestamp cd |}
              (s_should_send s) (s_locals s))
  | S_top_speed =>
      Some (next S_timestamp (s_current s) (s_is_moving s) (s_battery_change s)
              (s_temp_critical s)
              {| sensor := sensor cd; distance := distance cd;
                 cd_top_speed := top_speed vs; timestamp := timestamp cd |}
              (s_should_send s) (s_locals s))
  | S_timestamp =>
      Some (next S_should_send (s_current s) (s_is_moving s)
              (s_battery_change s) (s_temp_critical s)
              {| sensor := sensor cd; distance := distance cd;
                 cd_top_speed := cd_top_speed cd; timestamp := in_now i |}
              (s_should_send s) (s_locals s))
  | S_should_send =>
      Some (next S_rule1 (s_current s) (s_is_moving s) (s_battery_change s)
              (s_temp_critical s) cd false (s_locals s))
  | S_rule1 =>
      if negb (s_is_moving s)
         && fgt (double_of_float (s_battery_change s)) d_0_5
      then
        Some (emit
                (next S_rule2 (s_current s) (s_is_moving s)
                   (s_battery_change s) (s_temp_critical s) cd true
                   {| last_send_time := last_send_time (s_locals s);
                      last_battery_sent := battery (s_current s) |})
                [Print "[Logic] Battery changed while idle"])
      else Some (slow_goto m S_rule2)
  | S_rule2 =>
      if s_is_moving s
         && (1000 <=? timestamp cd - last_send_time (s_locals s))
      then
        Some (emit
                (next S_rule3 (s_current s) (s_is_moving s)
                   (s_battery_change s) (s_temp_critical s) cd true
                   {| last_send_time := timestamp cd;
                      last_battery_sent := last_battery_sent (s_locals s) |})
                [Print "[Logic] Periodic update (moving)"])
      else Some (slow_goto m S_rule3)
  | S_rule3 =>
      if s_temp_critical s
      then
        Some (emit
                (next S_unlock (s_current s) (s_is_moving s)
                   (s_battery_change s) (s_temp_critical s) cd true
                   (s_locals s))
                [Print "[Logic] CRITICAL TEMP ALERT!"])
      else Some (slow_goto m S_unlock)
  | S_unlock => mutex_unlock Slow m (fun m => slow_goto m S_enqueue)
  | S_enqueue =>
      if s_should_send s then
        '(q', ok) ← queue_enqueue (cloud_queue m) cd;
        Some (emit (slow_goto (set_cloud_queue m q') S_sleep)
                (EnqueueCall cd ok ::
                   (if ok then [] else [Print "[Logic] Warning: Queue full!"])))
      else Some (slow_goto m S_sleep)
  | S_sleep => Some (slow_goto m S_lock)
  end.

(** One statement of [cloud_sender_thread]. *)
Definition cloud_step (i : Input) (m : Machine) : option Machine :=
  let d := c_data (cloud m) in
  match cloud_pc (cloud m) with
  | C_dequeue =>
      '(q', r) ← queue_dequeue (cloud_queue m);
      match r with
      | Some d' =>
          Some (set_cloud (set_cloud_queue m q')
                  {| cloud_pc := C_send; c_data := d' |})
      | None => Some (cloud_goto (set_cloud_queue m q') C_sleep)
      end
  | C_send =>
      match in_status i with
      | FAILURE =>
          Some (emit (cloud_goto m C_retry)
                  [SendCall d FAILURE; Print "[Cloud] Retrying..."])
      | SUCCESS => Some (emit (cloud_goto m C_dequeue) [SendCall d SUCCESS])
      end
  | C_retry =>
      '(q', ok) ← queue_enqueue (cloud_queue m) d;
      Some (emit (cloud_goto (set_cloud_queue m q') C_dequeue)
              [EnqueueCall d ok])
  | C_sleep => Some (cloud_goto m C_dequeue)
  end.

Definition step (t : Thread) (i : Input) (m : Machine) : option Machine :=
  match t with
  | Fast => fast_step i m
  | Slow => slow_step i m
  | Cloud => cloud_step i m
  end.

(** A schedule names, step by step, the thread that runs and what the
    environment hands it. *)
Fixpoint run (schedule : list (Thread * Input)) (m : Machine)
  : option Machine :=
  match schedule with
  | [] => Some m
  | (t, i) :: rest => m' ← step t i m; run rest m'
  end.

(** The readings [read_sensor_data] returned, oldest first. *)
Fixpoint sensor_reads (evs : list Event) : list SensorData :=
  match evs with
  | [] => []
  | SensorCall r :: evs' => r :: sensor_reads evs'
  | _ :: evs' => sensor_reads evs'
  end.

(** The position of the logic thread in its pass. *)
Definition slow_rank (pc : SlowPc) : nat :=
  match pc with
  | S_lock => 0 | S_current => 1 | S_is_moving => 2 | S_battery_change => 3
  | S_temp_critical => 4 | S_sensor => 5 | S_distance => 6 | S_top_speed => 7
  | S_timestamp => 8 | S_should_send => 9 | S_rule1 => 10 | S_rule2 => 11
  | S_rule3 => 12 | S_unlock => 13 | S_enqueue => 14 | S_sleep => 15
  end.

(** The logic thread has read, in this pass, all four values it reads
    from [vehicle_state]: it is past [S_top_speed]. *)
Definition slow_has_read (pc : SlowPc) : bool := Nat.leb 8 (slow_rank pc).

(** The statements between lock and unlock. *)
Definition slow_holds (pc : SlowPc) : bool :=
  Nat.leb 1 (slow_rank pc) && Nat.leb (slow_rank pc) 13.

Definition fast_holds (pc : FastPc) : bool :=
  match pc with
  | F_current_sensor | F_total_distance | F_top_speed | F_is_moving
  | F_unlock => true
  | _ => false
  end.

(** The sensor thread has a reading it has not finished storing. *)
Definition fast_pending (pc : FastPc) : bool :=
  match pc with
  | F_read_sensor | F_sleep => false
  | _ => true
  end.

(** [vehicle_state] while the sensor thread stands at [pc], when it was
    [base] at the start of the pass. *)
Definition fast_partial (pc : FastPc) (sensor : SensorData)
    (base : VehicleState) : VehicleState :=
  match pc with
  | F_read_sensor | F_lock | F_current_sensor | F_sleep => base
  | F_total_distance => store_current_sensor base sensor
  | F_top_speed => update_distance sensor (store_current_sensor base sensor)
  | F_is_moving =>
      update_top_speed sensor
        (update_distance sensor (store_current_sensor base sensor))
  | F_unlock => fast_loop_update sensor base
  end.

(** The values the logic thread has read so far in its pass are those
    of the state [snap]. *)
Definition slow_view (s : SlowThread) (snap : VehicleState) : Prop :=
  let n := slow_rank (slow_pc s) in
  (2 <= n -> s_current s = current_sensor snap)%nat /\
  (3 <= n -> s_is_moving s = is_moving snap)%nat /\
  (6 <= n -> sensor (s_cloud_data s) = current_sensor snap)%nat /\
  (7 <= n -> distance (s_cloud_data s) = total_distance snap)%nat /\
  (8 <= n -> cd_top_speed (s_cloud_data s) = top_speed snap)%nat.

(** What holds of every machine the threads can reach: [rs] are the
    readings stored completely so far, [snap_rs] those stored when the
    logic thread last took the mutex. *)
Definition machine_ok (m : Machine) : Prop :=
  exists rs snap_rs,
    vehicle_state m
      = fast_partial (fast_pc (fast m)) (fast_sensor (fast m))
          (fast_loop_run rs vehicle_state_init) /\
    sensor_reads (trace m)
      = rs ++ (if fast_pending (fast_pc (fast m))
               then [fast_sensor (fast m)] else []) /\
    state_mutex m
      = (if fast_holds (fast_pc (fast m)) then Some Fast
         else if slow_holds (slow_pc (slow m)) then Some Slow else None) /\
    fast_holds (fast_pc (fast m)) && slow_holds (slow_pc (slow m)) = false /\
    snap_rs `prefix_of` rs /\
    (slow_holds (slow_pc (slow m)) = true ->
     vehicle_state m = fast_loop_run snap_rs vehicle_state_init) /\
    slow_view (slow m) (fast_loop_run snap_rs vehicle_state_init) /\
    queue_wf (cloud_queue m).

(** The machine with [vehicle_state.last_battery] replaced by [x]. *)
Definition poke_last_battery (x : float) (m : Machine) : Machine :=
  set_vehicle_state m (store_last_battery (vehicle_state m) x).

(** ** Further functions and notions

    The remaining functions of [main.c], and the notions the properties
    of Part III are stated with. *)

(** *** The sensor ranges *)

(** A reading in the ranges [read_sensor_data] keeps: speed in
    [0, 80], temperature in [20, 75], battery a number that is not
    negative; all three well-formed. *)
Definition reading_in_range (r : SensorData) : Prop :=
  (fle (float_of_int 0) (speed r) = true /\ fle (speed r) (float_of_int 80) = true) /\
  (fle (float_of_int 20) (temp r) = true /\ fle (temp r) (float_of_int 75) = true) /\
  float_nonneg (battery r) = true /\
  float_valid (speed r) = true /\ float_valid (temp r) = true /\
  float_valid (battery r) = true.

(** What [read_sensor_data] keeps true of its [static] variables. *)
Definition statics_ok (st : SensorStatics) : Prop :=
  (float_valid (static_speed st) = true /\ finite_number (static_speed st)) /\
  (float_valid (static_temp st) = true /\ finite_number (static_temp st)) /\
  static_battery st <> S754_nan.

(** *** [send_to_cloud]

    [int delay = 1 + rand () % 10; sleep (delay);] and then
    [rand () % 10 < 9] decides between [SUCCESS] and [FAILURE]; [r1] and
    [r2] are what the two [rand] calls return.  The result is the delay
    slept and the status; the line printed is the [SendCall] event of
    the caller. *)
Definition send_to_cloud (r1 r2 : Z) : option (Z * CloudStatus) :=
  delay ← int_add 1 (Z.rem r1 10);
  if Z.rem r2 10 <? 9 then Some (delay, SUCCESS) else Some (delay, FAILURE).

(** The clock in nanoseconds, for a [struct timespec]. *)
Definition timespec_ns (tv_sec tv_nsec : Z) : Z := tv_sec * 1000000000 + tv_nsec.

(** A [struct timespec] as [clock_gettime] fills it, early enough for
    [tv_sec * 1000] to be a [long]. *)
Definition timespec_ok (tv_sec tv_nsec : Z) : Prop :=
  0 <= tv_sec <= 9223372036854774 /\ 0 <= tv_nsec < 1000000000.

(** *** Passes of the logic loop *)

(** The critical sections of successive passes, for the state read and
    the clock value taken in each, oldest first. *)
Fixpoint slow_loop_passes (inputs : list (VehicleState * Z)) (l : SlowLocals)
  : list SlowTick :=
  match inputs with
  | [] => []
  | (vs, now) :: rest =>
      let t := slow_loop_critical vs now l in
      t :: slow_loop_passes rest (locals t)
  end.

(** The pass printed [line]. *)
Definition printed_line (line : string) (t : SlowTick) : bool :=
  existsb (fun ev => match ev with
                     | Print s => String.eqb s line
                     | _ => false
                     end) (printed t).

(** The timestamps of the passes that printed the line of rule 2. *)
Fixpoint periodic_times (ticks : list SlowTick) : list Z :=
  match ticks with
  | [] => []
  | t :: rest =>
      if printed_line "[Logic] Periodic update (moving)" t
      then timestamp (cloud_data t) :: periodic_times rest
      else periodic_times rest
  end.

(** Each time is at least [gap] after the one before, the first at least
    [gap] after [prev]. *)
Fixpoint spaced (gap prev : Z) (ts : list Z) : Prop :=
  match ts with
  | [] => True
  | t :: rest => prev + gap <= t /\ spaced gap t rest
  end.

(** *** Records and the states they are taken from *)

(** [d] is the record the logic thread builds, at some time, from the
    state [vehicle_state] has when some first readings among [reads]
    have been stored completely. *)
Definition snapshot_record (reads : list SensorData) (d : CloudData) : Prop :=
  exists rs now,
    rs `prefix_of` reads /\
    d = build_cloud_data (fast_loop_run rs vehicle_state_init) now.

(** The record an event carries. *)
Definition event_record (ev : Event) : option CloudData :=
  match ev with
  | EnqueueCall d _ => Some d
  | SendCall d _ => Some d
  | _ => None
  end.

Definition records_of (evs : list Event) : list CloudData :=
  omap event_record evs.

(** The cloud thread holds a record it has taken from the queue. *)
Definition cloud_holds (pc : CloudPc) : bool :=
  match pc with
  | C_send | C_retry => true
  | _ => false
  end.

(** Every record in the machine: in the queue, in the cloud thread's
    hands, passed to [queue_enqueue] or to [send_to_cloud]. *)
Definition records_ok (m : Machine) : Prop :=
  let reads := sensor_reads (trace m) in
  Forall (snapshot_record reads) (contents (cloud_queue m)) /\
  (cloud_holds (cloud_pc (cloud m)) = true ->
   snapshot_record reads (c_data (cloud m))) /\
  Forall (snapshot_record reads) (records_of (trace m)).

(** Where a record met in a step comes from: the queue, the cloud
    thread's hands, or a state of the vehicle. *)
Definition record_known (m : Machine) (d : CloudData) : Prop :=
  d ∈ contents (cloud_queue m) \/
  (cloud_holds (cloud_pc (cloud m)) = true /\ d = c_data (cloud m)) \/
  snapshot_record (sensor_reads (trace m)) d.

(** The position of the sensor thread in its pass. *)
Definition fast_rank (pc : FastPc) : nat :=
  match pc with
  | F_read_sensor => 0 | F_lock => 1 | F_current_sensor => 2
  | F_total_distance => 3 | F_top_speed => 4 | F_is_moving => 5
  | F_unlock => 6 | F_sleep => 7
  end.

(** The readings stored completely when the trace is [evs] and the
    sensor thread stands at [pc]. *)
Definition stored_reads (pc : FastPc) (evs : list Event) : list SensorData :=
  if fast_pending pc then removelast (sensor_reads evs) else sensor_reads evs.

(** *** What the cloud has received *)

(** The records [send_to_cloud] returned [SUCCESS] for, oldest first. *)
Definition sent_ok (evs : list Event) : list CloudData :=
  omap (fun ev => match ev with
                  | SendCall d SUCCESS => Some d
                  | _ => None
                  end) evs.

(** The records [queue_enqueue] rejected. *)
Definition rejected (evs : list Event) : list CloudData :=
  omap (fun ev => match ev with
                  | EnqueueCall d false => Some d
                  | _ => None
                  end) evs.

(** ** Sample values *)

Definition sample_sensor (b s t : Z) : SensorData :=
  {| battery := float_of_double (double_lit b 0);
     speed := float_of_double (double_lit s 0);
     temp := float_of_double (double_lit t 0) |}.

Definition sample_record (n : Z) : CloudData :=
  {| sensor := sample_sensor 100 0 25; distance := float_zero;
     cd_top_speed := float_zero; timestamp := n |}.

(** The queue after [n] enqueues of [sample_record 1 .. sample_record n]. *)
Definition sample_fill (n : Z) : list QueueOp :=
  (fun i => OpEnqueue (sample_record i)) <$> seqZ 1 n.

Definition sample_full_queue : CloudQueue :=
  match queue_run cloud_queue_init (sample_fill QUEUE_SIZE) with
  | Some (q, _) => q
  | None => cloud_queue_init
  end.

(** A parked vehicle, battery at 99, temperature 72. *)
Definition sample_hot_idle : VehicleState :=
  {| total_distance := float_zero; top_speed := float_zero;
     last_battery := float_zero; is_moving := false;
     current_sensor := sample_sensor 99 0 72 |}.

(** A moving vehicle, battery at 100, temperature 25. *)
Definition sample_moving : VehicleState :=
  {| total_distance := float_zero;
     top_speed := float_of_double (double_lit 40 0);
     last_battery := float_zero; is_moving := true;
     current_sensor := sample_sensor 100 40 25 |}.

(** The initial queue after one record was enqueued. *)
Definition sample_one_queue : CloudQueue :=
  match queue_enqueue cloud_queue_init (sample_record 1) with
  | Some (q, _) => q
  | None => cloud_queue_init
  end.

(** A schedule: the sensor thread stores one reading, the logic thread
    takes the mutex and reads, and the sensor thread fetches its next
    reading in between and waits for the mutex. *)
Definition sample_input (s now : Z) : Input :=
  {| in_reading := sample_sensor 100 s 25; in_now := now; in_status := SUCCESS |}.

Definition sample_schedule : list (Thread * Input) :=
  replicate 8 (Fast, sample_input 60 0)
  ++ replicate 4 (Slow, sample_input 0 2000)
  ++ replicate 3 (Fast, sample_input 70 0)
  ++ replicate 6 (Slow, sample_input 0 2000).

Definition sample_machine : Machine :=
  match run sample_schedule (machine_init 1000) with
  | Some m => m
  | None => machine_init 1000
  end.

(** The machine after the sensor thread's first step. *)
Definition sample_first_step : Machine :=
  match step Fast (sample_input 60 0) (machine_init 1000) with
  | Some m => m
  | None => machine_init 1000
  end.

(** An overloaded run.  The sensor thread stores a reading with the
    temperature at 72; the logic thread makes a thousand passes, the
    first at time 1, and fills the queue; the cloud thread dequeues the
    oldest record and its send fails; the logic thread makes one more
    pass and fills the queue again; the cloud thread retries. *)
Definition sample_hot_input (now : Z) : Input :=
  {| in_reading := sample_sensor 99 0 72; in_now := now; in_status := FAILURE |}.

Definition sample_overload : list (Thread * Input) :=
  replicate 8 (Fast, sample_hot_input 0)
  ++ replicate 16 (Slow, sample_hot_input 1)
  ++ replicate (16 * 999) (Slow, sample_hot_input 2)
  ++ replicate 2 (Cloud, sample_hot_input 0)
  ++ replicate 16 (Slow, sample_hot_input 3)
  ++ replicate 1 (Cloud, sample_hot_input 0).

Definition sample_overloaded : Machine :=
  match run sample_overload (machine_init 0) with
  | Some m => m
  | None => machine_init 0
  end.

(** The record of the pass at time 1. *)
Definition sample_first_record : CloudData :=
  build_cloud_data
    (fast_loop_update (sample_sensor 99 0 72) vehicle_state_init) 1.

(** A parked vehicle, battery at 99, temperature 25. *)
Definition sample_idle : VehicleState :=
  {| total_distance := float_zero; top_speed := float_zero;
     last_battery := float_zero; is_moving := false;
     current_sensor := sample_sensor 99 0 25 |}.

(** The logic thread has taken the mutex and read [current_sensor]; the
    sensor thread has a reading and waits at its lock. *)
Definition sample_waiting_schedule : list (Thread * Input) :=
  replicate 2 (Slow, sample_input 0 2000)
  ++ replicate 3 (Fast, sample_input 60 0).

Definition sample_waiting : Machine :=
  match run sample_waiting_schedule (machine_init 1000) with
  | Some m => m
  | None => machine_init 1000
  end.

(* ================================================================== *)
(** * Part II: properties *)
(* ================================================================== *)

(** ** The queue: bound and order *)

Ltac euclid := unfold QUEUE_SIZE in *; Z.to_euclidean_division_equations; lia.

Lemma cloud_queue_init_wf : queue_wf cloud_queue_init.
Proof.
  unfold queue_wf, cloud_queue_init, queue_init, cloud_queue_zero.
  cbn [data front rear count].
  rewrite length_replicate. repeat split; unfold QUEUE_SIZE; try lia.
Qed.

Lemma contents_init : contents cloud_queue_init = [].
Proof. reflexivity. Qed.

Lemma queue_enqueue_full q d :
  QUEUE_SIZE <= count q -> queue_enqueue q d = Some (q, false).
Proof.
  intros H. unfold queue_enqueue.
  destruct (QUEUE_SIZE <=? count q) eqn:E; [reflexivity | lia].
Qed.

Lemma slot_insert_other q q' d i j :
  length (data q) = Z.to_nat QUEUE_SIZE ->
  data q' = <[Z.to_nat j := d]> (data q) ->
  front q' = front q ->
  (front q + i) `mod` QUEUE_SIZE <> j ->
  0 <= j ->
  slot q' i = slot q i.
Proof.
  intros Hlen Hd Hf Hne Hj. unfold slot. rewrite Hd, Hf.
  rewrite list_lookup_insert_ne; [reflexivity |].
  intros Heq. apply Hne. apply Z2Nat.inj in Heq; [lia | lia |].
  apply Z.mod_pos_bound. reflexivity.
Qed.

Lemma queue_enqueue_room q d :
  queue_wf q -> count q < QUEUE_SIZE ->
  exists q', queue_enqueue q d = Some (q', true) /\ queue_wf q' /\
             contents q' = contents q ++ [d] /\ count q' = count q + 1.
Proof.
  intros (Hlen & Hf & Hr & Hc & Hrel) Hroom.
  unfold queue_enqueue.
  destruct (QUEUE_SIZE <=? count q) eqn:E; [lia |].
  assert (Hadd : int_add (rear q) 1 = Some (rear q + 1)).
  { unfold int_add, INT_MIN, INT_MAX. simpl.
    destruct (_ && _) eqn:B; [reflexivity |].
    apply andb_false_iff in B. unfold QUEUE_SIZE in *. lia. }
  rewrite Hadd. simpl.
  assert (Hrem : Z.rem (rear q + 1) QUEUE_SIZE = (front q + count q) `mod` QUEUE_SIZE).
  { rewrite Z.rem_mod_nonneg by (unfold QUEUE_SIZE; lia). exact Hrel. }
  rewrite Hrem.
  set (j := (front q + count q) `mod` QUEUE_SIZE).
  assert (Hj : 0 <= j < QUEUE_SIZE) by (apply Z.mod_pos_bound; reflexivity).
  assert (Hset : array_set (data q) j d = Some (<[Z.to_nat j := d]> (data q))).
  { unfold array_set. rewrite Hlen, Z2Nat.id by (unfold QUEUE_SIZE; lia).
    destruct (_ && _) eqn:B; [reflexivity |].
    apply andb_false_iff in B. lia. }
  rewrite Hset. simpl.
  assert (Hcnt : int_add (count q) 1 = Some (count q + 1)).
  { unfold int_add, INT_MIN, INT_MAX. simpl.
    destruct (_ && _) eqn:B; [reflexivity |].
    apply andb_false_iff in B. unfold QUEUE_SIZE in *. lia. }
  rewrite Hcnt. simpl.
  eexists. split; [reflexivity |].
  split; [| split; [| reflexivity]].
  - unfold queue_wf; simpl. rewrite length_insert.
    repeat split; try lia.
    subst j. clear - Hf Hc Hroom. euclid.
  - unfold contents; simpl.
    replace (count q + 1) with (Z.of_nat (S (Z.to_nat (count q)))) by lia.
    rewrite seqZ_S, fmap_app, Z2Nat.id by lia. simpl. f_equal.
    + apply list_fmap_ext. intros k i Hi.
      apply lookup_seqZ in Hi as [-> Hk].
      eapply slot_insert_other with (j := j); simpl; eauto; try lia.
      subst j. clear - Hf Hc Hroom Hk. euclid.
    + f_equal. unfold slot; simpl. fold j.
      rewrite list_lookup_insert_eq; [reflexivity |].
      rewrite Hlen. unfold QUEUE_SIZE in *. lia.
Qed.

Lemma queue_dequeue_empty q :
  count q = 0 -> queue_dequeue q = Some (q, None).
Proof. intros H. unfold queue_dequeue. rewrite H. reflexivity. Qed.

Lemma queue_dequeue_some q :
  queue_wf q -> 0 < count q ->
  exists q' d, queue_dequeue q = Some (q', Some d) /\ queue_wf q' /\
               contents q = d :: contents q' /\ count q' = count q - 1.
Proof.
  intros (Hlen & Hf & Hr & Hc & Hrel) Hpos.
  unfold queue_dequeue.
  destruct (count q =? 0) eqn:E; [lia |].
  destruct (data q !! Z.to_nat (front q)) as [d |] eqn:Hd.
  2:{ apply lookup_ge_None in Hd. rewrite Hlen in Hd.
      unfold QUEUE_SIZE in *. lia. }
  assert (Hget : array_get (data q) (front q) = Some d).
  { unfold array_get. destruct (0 <=? front q) eqn:B; [exact Hd | lia]. }
  rewrite Hget. simpl.
  assert (Hadd : int_add (front q) 1 = Some (front q + 1)).
  { unfold int_add, INT_MIN, INT_MAX. simpl.
    destruct (_ && _) eqn:B; [reflexivity |].
    apply andb_false_iff in B. unfold QUEUE_SIZE in *. lia. }
  rewrite Hadd. simpl.
  assert (Hsub : int_sub (count q) 1 = Some (count q - 1)).
  { unfold int_sub, INT_MIN, INT_MAX. simpl.
    destruct (_ && _) eqn:B; [reflexivity |].
    apply andb_false_iff in B. unfold QUEUE_SIZE in *. lia. }
  rewrite Hsub. simpl.
  rewrite Z.rem_mod_nonneg by (unfold QUEUE_SIZE; lia).
  eexists _, d. split; [reflexivity |].
  split; [| split; [| reflexivity]].
  - unfold queue_wf; simpl. repeat split; try lia.
    + apply Z.mod_pos_bound. reflexivity.
    + apply Z.mod_pos_bound. reflexivity.
    + rewrite Hrel. clear - Hf Hc Hpos. euclid.
  - unfold contents; simpl.
    rewrite (seqZ_cons 0 (count q)) by lia. simpl. f_equal.
    + unfold slot. rewrite Z.add_0_r, Z.mod_small by lia. rewrite Hd. reflexivity.
    + replace (Z.succ 0) with (1 + 0) by lia.
      rewrite <- fmap_add_seqZ, <- list_fmap_compose.
      replace (Z.pred (count q)) with (count q - 1) by lia.
      apply list_fmap_ext. intros k i Hi. simpl.
      unfold slot; simpl. do 3 f_equal.
      apply lookup_seqZ in Hi as [-> Hk].
      clear - Hf. euclid.
Qed.

Lemma queue_call_wf q op :
  queue_wf q ->
  exists q' r, queue_call q op = Some (q', r) /\ queue_wf q' /\
    contents q ++ accepted [r] = delivered [r] ++ contents q'.
Proof.
  intros Hwf. destruct op as [d |]; unfold queue_call.
  - destruct (Z_lt_le_dec (count q) QUEUE_SIZE) as [Hroom | Hfull].
    + destruct (queue_enqueue_room q d Hwf Hroom) as (q' & -> & Hwf' & Hc & _).
      exists q', (RetEnqueue d true). simpl. rewrite Hc. auto.
    + rewrite (queue_enqueue_full q d Hfull).
      exists q, (RetEnqueue d false). simpl. rewrite app_nil_r. auto.
  - destruct (Z.eq_dec (count q) 0) as [Hz | Hnz].
    + rewrite (queue_dequeue_empty q Hz).
      exists q, (RetDequeue None). simpl. rewrite app_nil_r. auto.
    + assert (Hpos : 0 < count q) by (destruct Hwf as (_ & _ & _ & ? & _); lia).
      destruct (queue_dequeue_some q Hwf Hpos) as (q' & d & -> & Hwf' & Hc & _).
      exists q', (RetDequeue (Some d)). simpl. rewrite Hc, app_nil_r. auto.
Qed.

Lemma accepted_cons r rs : accepted (r :: rs) = accepted [r] ++ accepted rs.
Proof. destruct r as [d [|] | [d |]]; reflexivity. Qed.

Lemma delivered_cons r rs : delivered (r :: rs) = delivered [r] ++ delivered rs.
Proof. destruct r as [d [|] | [d |]]; reflexivity. Qed.

Lemma queue_run_wf ops : forall q,
  queue_wf q ->
  exists q' rs, queue_run q ops = Some (q', rs) /\ queue_wf q' /\
    contents q ++ accepted rs = delivered rs ++ contents q'.
Proof.
  induction ops as [| op ops IH]; intros q Hwf.
  - exists q, []. simpl. rewrite app_nil_r. auto.
  - destruct (queue_call_wf q op Hwf) as (q1 & r & Hcall & Hwf1 & H1).
    destruct (IH q1 Hwf1) as (q2 & rs & Hrun & Hwf2 & H2).
    exists q2, (r :: rs).
    split; [| split; [exact Hwf2 |]].
    { cbn [queue_run]. rewrite Hcall. cbn. rewrite Hrun. reflexivity. }
    rewrite accepted_cons, delivered_cons, app_assoc, H1.
    rewrite <- !app_assoc. f_equal. exact H2.
Qed.

Lemma queue_dequeue_head q q' r :
  queue_wf q -> queue_dequeue q = Some (q', r) -> r = head (contents q).
Proof.
  intros Hwf Hd.
  destruct (Z.eq_dec (count q) 0) as [Hz | Hnz].
  - rewrite (queue_dequeue_empty q Hz) in Hd. injection Hd as <- <-.
    unfold contents. rewrite Hz. reflexivity.
  - assert (Hpos : 0 < count q) by (destruct Hwf as (_ & _ & _ & ? & _); lia).
    destruct (queue_dequeue_some q Hwf Hpos) as (q1 & d & E & _ & Hc & _).
    rewrite E in Hd. injection Hd as <- <-. rewrite Hc. reflexivity.
Qed.

(** C1. Whatever enqueues and dequeues are called on the queue [main]
    initialised, after each call ([n] calls into the sequence, for every
    [n]) no call was undefined and the count is between 0 and
    [QUEUE_SIZE] = 1000; and [queue_enqueue] on any queue whose count
    equals [QUEUE_SIZE] returns [false] and the same queue: data, front,
    rear and count. *)
Theorem queue_bounded (ops : list QueueOp) (n : nat) (q0 : CloudQueue)
    (d : CloudData) :
  (exists q rs, queue_run cloud_queue_init (take n ops) = Some (q, rs) /\
                0 <= count q <= QUEUE_SIZE) /\
  (count q0 = QUEUE_SIZE -> queue_enqueue q0 d = Some (q0, false)).
Proof.
  split.
  - destruct (queue_run_wf (take n ops) _ cloud_queue_init_wf)
      as (q & rs & Hrun & Hwf & _).
    exists q, rs. split; [exact Hrun |]. destruct Hwf as (_ & _ & _ & Hc & _). exact Hc.
  - intros Hfull. apply queue_enqueue_full. lia.
Qed.

Lemma queue_bounded_witness :
  count sample_full_queue = QUEUE_SIZE /\
  queue_enqueue sample_full_queue (sample_record 1001)
    = Some (sample_full_queue, false).
Proof.
  assert (H : count sample_full_queue = QUEUE_SIZE) by (vm_compute; reflexivity).
  split; [exact H |].
  exact (proj2 (queue_bounded (sample_fill 3) 2 sample_full_queue
                  (sample_record 1001)) H).
Defined.

(** C2. FIFO order.  After any sequence of calls on the initial queue,
    the records accepted by [queue_enqueue], in call order, are the
    records handed out by [queue_dequeue], in call order, followed by
    the records still held, oldest first; and a further [queue_dequeue]
    returns the oldest record held, none when the queue is empty. *)
Theorem queue_fifo (ops : list QueueOp) :
  exists q rs, queue_run cloud_queue_init ops = Some (q, rs) /\
    accepted rs = delivered rs ++ contents q /\
    forall q' r, queue_dequeue q = Some (q', r) -> r = head (contents q).
Proof.
  destruct (queue_run_wf ops _ cloud_queue_init_wf) as (q & rs & Hrun & Hwf & H).
  exists q, rs. split; [exact Hrun |]. split.
  - rewrite contents_init in H. exact H.
  - intros q' r. apply queue_dequeue_head. exact Hwf.
Qed.

(** ** Comparison of floats *)

Lemma SFcompare_antisym x y :
  SFcompare y x = option_map CompOpp (SFcompare x y).
Proof.
  destruct x as [[|] | [|] | | [|] mx ex], y as [[|] | [|] | | [|] my ey];
    simpl; try reflexivity.
  all: rewrite (Z.compare_antisym ey ex); destruct (ey ?= ex); simpl; try reflexivity.
  all: rewrite (Pos.compare_cont_antisym mx my Eq); reflexivity.
Qed.

Lemma SFcompare_refl x : x <> S754_nan -> SFcompare x x = Some Eq.
Proof.
  destruct x as [[|] | [|] | | [|] mx ex]; simpl; intros H;
    try reflexivity; try congruence.
  - rewrite Z.compare_refl. fold (Pos.compare mx mx). rewrite Pos.compare_refl. reflexivity.
  - rewrite Z.compare_refl. fold (Pos.compare mx mx). rewrite Pos.compare_refl. reflexivity.
Qed.

Lemma SFleb_refl x : x <> S754_nan -> SFleb x x = true.
Proof. intros H. unfold SFleb. rewrite SFcompare_refl by exact H. reflexivity. Qed.

Lemma SFleb_trans x y z :
  SFleb x y = true -> SFleb y z = true -> SFleb x z = true.
Proof.
  unfold SFleb.
  destruct x as [[|] | [|] | | [|] mx ex], y as [[|] | [|] | | [|] my ey],
    z as [[|] | [|] | | [|] mz ez]; simpl; try reflexivity; try discriminate.
  all: destruct (Z.compare_spec ex ey), (Z.compare_spec ey ez),
         (Z.compare_spec ex ez); try reflexivity; try discriminate; try lia.
  all: fold (Pos.compare mx my); fold (Pos.compare my mz); fold (Pos.compare mx mz).
  all: destruct (Pos.compare_spec mx my), (Pos.compare_spec my mz),
         (Pos.compare_spec mx mz); simpl; try reflexivity; try discriminate; try lia.
Qed.

(** ** Digits and shifts *)

Lemma digits2_pos_size p : digits2_pos p = Pos.size p.
Proof. induction p; simpl; congruence. Qed.

Lemma digits2_log2 p : Zpos (digits2_pos p) = Z.log2 (Zpos p) + 1.
Proof.
  rewrite digits2_pos_size. destruct p; simpl; lia.
Qed.

Lemma Zdigits2_log2 m : 0 < m -> Zdigits2 m = Z.log2 m + 1.
Proof. destruct m; try lia. intros _. apply digits2_log2. Qed.

Lemma Zdigits2_pos m : 0 < m -> 0 < Zdigits2 m.
Proof.
  intros H. rewrite Zdigits2_log2 by exact H.
  pose proof (Z.log2_nonneg m). lia.
Qed.

Lemma Zdigits2_le m n : 0 < m -> m <= n -> Zdigits2 m <= Zdigits2 n.
Proof.
  intros Hm Hmn. rewrite !Zdigits2_log2 by lia.
  pose proof (Z.log2_le_mono m n Hmn). lia.
Qed.

(** Dropping [n] low bits of a number of more than [n] bits. *)
Lemma Zdigits2_div_pow2 m n :
  0 < m -> 0 <= n < Zdigits2 m ->
  0 < m / 2 ^ n /\ Zdigits2 (m / 2 ^ n) = Zdigits2 m - n.
Proof.
  intros Hm Hn. rewrite Zdigits2_log2 in Hn by exact Hm.
  assert (Hq : 0 < m / 2 ^ n).
  { apply Z.div_str_pos. split; [apply Z.pow_pos_nonneg; lia |].
    apply Z.le_trans with (2 ^ Z.log2 m).
    - apply Z.pow_le_mono_r; lia.
    - apply Z.log2_spec. exact Hm. }
  split; [exact Hq |].
  rewrite !Zdigits2_log2 by lia.
  rewrite <- Z.shiftr_div_pow2 by lia.
  rewrite Z.log2_shiftr by exact Hm. lia.
Qed.

Lemma Zdigits2_mul_pow2 m n :
  0 < m -> 0 <= n -> Zdigits2 (m * 2 ^ n) = Zdigits2 m + n.
Proof.
  intros Hm Hn.
  assert (0 < m * 2 ^ n) by (apply Z.mul_pos_pos; [lia | apply Z.pow_pos_nonneg; lia]).
  rewrite !Zdigits2_log2 by lia.
  rewrite <- Z.shiftl_mul_pow2 by lia.
  rewrite Z.log2_shiftl by lia. lia.
Qed.

Lemma iter_xO_pow2 p d : Zpos (Pos.iter xO p d) = Zpos p * 2 ^ Zpos d.
Proof.
  rewrite <- Z.shiftl_mul_pow2 by lia. simpl.
  apply (Pos.iter_swap_gen _ _ Zpos xO (Z.mul 2)). reflexivity.
Qed.

(** [shl_align] keeps the value and lowers the exponent to [e'] when
    [e'] is below [e]. *)
Lemma shl_align_spec p e e' :
  let '(p', e'') := shl_align p e e' in
  e'' = Z.min e e' /\ Zpos p' = Zpos p * 2 ^ (e - e'').
Proof.
  unfold shl_align. destruct (e' - e) as [| d | d] eqn:E.
  - split; [lia |]. replace (e - e) with 0 by lia. lia.
  - split; [lia |]. replace (e - e) with 0 by lia. lia.
  - split; [lia |]. rewrite iter_xO_pow2. f_equal. f_equal. lia.
Qed.

Lemma shr_1_m mrs : 0 <= shr_m mrs -> shr_m (shr_1 mrs) = shr_m mrs / 2.
Proof.
  destruct mrs as [m r s]. simpl. intros Hm.
  rewrite <- Z.div2_div. destruct m as [| [p | p |] | p]; try reflexivity; lia.
Qed.

Lemma iter_shr_1_m n : forall mrs,
  0 <= shr_m mrs ->
  shr_m (SpecFloat.iter_pos shr_1 n mrs) = shr_m mrs / 2 ^ Zpos n.
Proof.
  induction n as [n IH | n IH |]; intros mrs Hm; simpl SpecFloat.iter_pos.
  - assert (H1 : 0 <= shr_m (shr_1 mrs)).
    { rewrite shr_1_m by exact Hm. apply Z.div_pos; lia. }
    assert (H2 : 0 <= shr_m (SpecFloat.iter_pos shr_1 n (shr_1 mrs))).
    { rewrite IH by exact H1. apply Z.div_pos; [exact H1 | apply Z.pow_pos_nonneg; lia]. }
    rewrite IH by exact H2. rewrite IH by exact H1. rewrite shr_1_m by exact Hm.
    rewrite !Z.div_div by (try apply Z.pow_pos_nonneg; lia).
    f_equal. replace (Z.pos n~1) with (1 + Z.pos n + Z.pos n) by lia.
    rewrite !Z.pow_add_r, Z.pow_1_r by lia. ring.
  - assert (H2 : 0 <= shr_m (SpecFloat.iter_pos shr_1 n mrs)).
    { rewrite IH by exact Hm. apply Z.div_pos; [exact Hm | apply Z.pow_pos_nonneg; lia]. }
    rewrite IH by exact H2. rewrite IH by exact Hm.
    rewrite !Z.div_div by (try apply Z.pow_pos_nonneg; lia).
    f_equal. replace (Z.pos n~0) with (Z.pos n + Z.pos n) by lia.
    rewrite !Z.pow_add_r by lia. ring.
  - rewrite shr_1_m by exact Hm. reflexivity.
Qed.

Lemma shr_m_of_loc m l : shr_m (shr_record_of_loc m l) = m.
Proof. destruct l as [| []]; reflexivity. Qed.

Lemma round_nearest_even_bounds m l :
  m <= round_nearest_even m l <= m + 1.
Proof.
  unfold round_nearest_even. destruct l as [| []]; try lia.
  destruct (Z.even m); lia.
Qed.



Section Rounding.
Variables prec emax : Z.
Hypothesis Hprec : 0 < prec.

Local Abbreviation fexp := (fexp prec emax).
Local Abbreviation emin := (emin prec emax).

Lemma fexp_mono a b : a <= b -> fexp a <= fexp b.
Proof. unfold SpecFloat.fexp. lia. Qed.

Lemma fexp_ge_emin a : emin <= fexp a.
Proof. unfold SpecFloat.fexp. lia. Qed.

(** The first step of rounding: the exponent is raised to the
    format's exponent for the number and the mantissa loses the bits
    below it. *)
Lemma shr_fexp_spec m e l :
  0 <= m ->
  let '(mrs, e') := shr_fexp prec emax m e l in
  e' = Z.max e (fexp (Zdigits2 m + e)) /\ shr_m mrs = m / 2 ^ (e' - e).
Proof.
  intros Hm. unfold shr_fexp, shr.
  destruct (fexp (Zdigits2 m + e) - e) as [| n | n] eqn:E.
  - split; [lia |]. rewrite shr_m_of_loc.
    replace (e - e) with 0 by lia. rewrite Z.div_1_r. reflexivity.
  - split; [lia |]. rewrite iter_shr_1_m by (rewrite shr_m_of_loc; exact Hm).
    rewrite shr_m_of_loc. f_equal. f_equal. lia.
  - split; [lia |]. rewrite shr_m_of_loc.
    replace (e - e) with 0 by lia. rewrite Z.div_1_r. reflexivity.
Qed.

Lemma fexp_lt a : emin < a -> fexp a < a.
Proof. unfold SpecFloat.fexp. lia. Qed.

Lemma div_pow2_small m n : 0 <= m -> Zdigits2 m <= n -> m / 2 ^ n = 0.
Proof.
  intros Hm Hn. destruct (Z.eq_dec m 0) as [-> | Hne].
  - apply Z.div_0_l. apply Z.pow_nonzero; simpl in Hn; lia.
  - assert (Hpos : 0 < m) by lia.
    rewrite Zdigits2_log2 in Hn by exact Hpos.
    apply Z.div_small. split; [lia |].
    apply Z.lt_le_trans with (2 ^ (Z.log2 m + 1)).
    + replace (Z.log2 m + 1) with (Z.succ (Z.log2 m)) by lia.
      apply Z.log2_spec. exact Hpos.
    + apply Z.pow_le_mono_r; lia.
Qed.

(** The arithmetic of [binary_round_aux] on a positive mantissa [m]
    whose exponent [e] is at most the format's exponent [E] for the
    number: [m1] is the shifted mantissa, [m2] the rounded one, [m3] and
    [e3] the result. *)
Lemma round_core m e m2 :
  0 < m ->
  let E := fexp (Zdigits2 m + e) in
  let m1 := m / 2 ^ (E - e) in
  let e3 := Z.max E (fexp (Zdigits2 m2 + E)) in
  let m3 := m2 / 2 ^ (e3 - E) in
  e <= E -> m1 <= m2 ->
  0 <= m3 /\
  (0 < m3 -> fexp (Zdigits2 m3 + e3) = e3) /\
  (forall px ex, 0 < px -> fexp (Zdigits2 px + ex) = ex -> e <= ex ->
     px * 2 ^ (ex - e) <= m ->
     0 < m3 /\ (ex < e3 \/ (ex = e3 /\ px <= m3))).
Proof.
  intros Hm E m1 e3 m3 HeE H12.
  assert (HEmin : emin <= E) by apply fexp_ge_emin.
  assert (Hm1 : 0 <= m1).
  { apply Z.div_pos; [lia | apply Z.pow_pos_nonneg; lia]. }
  assert (Hpos3 : 0 < m2 -> 0 < m3 /\ fexp (Zdigits2 m3 + e3) = e3 /\ E <= e3).
  { intros Hm2.
    assert (HE2 : E <= fexp (Zdigits2 m2 + E)).
    { destruct (Z_lt_le_dec (E - e) (Zdigits2 m)) as [Hlt | Hge].
      - destruct (Zdigits2_div_pow2 m (E - e) Hm) as [Hq Hd]; [lia |].
        fold m1 in Hq, Hd.
        pose proof (Zdigits2_le m1 m2 Hq H12) as Hle.
        unfold E at 1. apply fexp_mono. lia.
      - assert (E = emin).
        { unfold E, SpecFloat.fexp in *. lia. }
        pose proof (fexp_ge_emin (Zdigits2 m2 + E)). lia. }
    assert (He3 : e3 = fexp (Zdigits2 m2 + E)) by (unfold e3; lia).
    pose proof (Zdigits2_pos m2 Hm2) as Hd2.
    assert (Hn3 : 0 <= e3 - E < Zdigits2 m2).
    { split; [lia |]. rewrite He3. unfold SpecFloat.fexp. lia. }
    destruct (Zdigits2_div_pow2 m2 (e3 - E) Hm2 Hn3) as [Hq Hd].
    fold m3 in Hq, Hd. split; [exact Hq |]. split; [| lia].
    rewrite Hd. replace (Zdigits2 m2 - (e3 - E) + e3) with (Zdigits2 m2 + E) by lia.
    symmetry. exact He3. }
  split; [| split].
  - apply Z.div_pos; [lia | apply Z.pow_pos_nonneg].
    + lia.
    + unfold e3. lia.
  - intros H3. assert (Hm2 : 0 < m2).
    { destruct (Z_lt_le_dec 0 m2) as [? | Hle]; [assumption |].
      assert (m2 = 0) by lia. subst m2. unfold m3 in H3.
      rewrite Z.div_0_l in H3; [lia |].
      apply Z.pow_nonzero; [lia | unfold e3; lia]. }
    apply Hpos3. exact Hm2.
  - intros px ex Hpx Hcx Hex Hle.
    assert (Hdig : Zdigits2 px + ex <= Zdigits2 m + e).
    { pose proof (Zdigits2_mul_pow2 px (ex - e) Hpx ltac:(lia)) as Hd.
      assert (0 < px * 2 ^ (ex - e)).
      { apply Z.mul_pos_pos; [lia | apply Z.pow_pos_nonneg; lia]. }
      pose proof (Zdigits2_le _ _ H Hle). lia. }
    assert (HexE : ex <= E).
    { rewrite <- Hcx. unfold E. apply fexp_mono. exact Hdig. }
    assert (Hm1' : 0 < m1 /\ (ex = E -> px <= m1)).
    { destruct (Z.eq_dec ex E) as [Heq | Hne].
      - assert (px <= m1).
        { unfold m1. apply Z.div_le_lower_bound; [apply Z.pow_pos_nonneg; lia |].
          rewrite <- Heq. lia. }
        split; [lia | auto].
      - assert (emin <= ex) by (rewrite <- Hcx; apply fexp_ge_emin).
        assert (E = Zdigits2 m + e - prec).
        { unfold E, SpecFloat.fexp in *. lia. }
        destruct (Zdigits2_div_pow2 m (E - e) Hm) as [Hq _]; [lia |].
        split; [exact Hq | lia]. }
    destruct Hm1' as [Hm1p Hm1x].
    destruct (Hpos3 ltac:(lia)) as (H3 & _ & HEe3).
    split; [exact H3 |].
    destruct (Z.eq_dec ex e3) as [Heq | Hne]; [right | left; lia].
    split; [exact Heq |].
    assert (e3 = E) by lia.
    unfold m3. replace (e3 - E) with 0 by lia. rewrite Z.div_1_r.
    specialize (Hm1x ltac:(lia)). lia.
Qed.

Lemma binary_round_aux_number s m e l :
  0 <= m -> signed_number s (binary_round_aux prec emax s m e l).
Proof.
  intros Hm. unfold binary_round_aux.
  pose proof (shr_fexp_spec m e l Hm) as H1.
  destruct (shr_fexp prec emax m e l) as [mrs1 e1]. destruct H1 as [He1 Hm1].
  set (m2 := round_nearest_even (shr_m mrs1) (loc_of_shr_record mrs1)).
  assert (H2 : 0 <= m2).
  { pose proof (round_nearest_even_bounds (shr_m mrs1) (loc_of_shr_record mrs1)).
    assert (0 <= shr_m mrs1).
    { rewrite Hm1. apply Z.div_pos; [lia | apply Z.pow_pos_nonneg; lia]. }
    unfold m2. lia. }
  pose proof (shr_fexp_spec m2 e1 loc_Exact H2) as H3.
  destruct (shr_fexp prec emax m2 e1 loc_Exact) as [mrs3 e3]. destruct H3 as [He3 Hm3].
  assert (0 <= shr_m mrs3).
  { rewrite Hm3. apply Z.div_pos; [lia | apply Z.pow_pos_nonneg; lia]. }
  destruct (shr_m mrs3) as [| p | p]; simpl; try reflexivity; try lia.
  destruct (e3 <=? emax - prec); reflexivity.
Qed.

Lemma binary_round_aux_exact s m e :
  0 < m -> e <= fexp (Zdigits2 m + e) ->
  let r := binary_round_aux prec emax s m e loc_Exact in
  valid_binary prec emax r = true /\
  forall px ex, canonical_mantissa prec emax px ex = true -> e <= ex ->
    Zpos px * 2 ^ (ex - e) <= m -> at_least px ex s r.
Proof.
  intros Hm HeE. unfold binary_round_aux.
  pose proof (shr_fexp_spec m e loc_Exact ltac:(lia)) as H1.
  destruct (shr_fexp prec emax m e loc_Exact) as [mrs1 e1]. destruct H1 as [He1 Hm1].
  assert (He1' : e1 = fexp (Zdigits2 m + e)) by lia. clear He1.
  subst e1.
  set (m2 := round_nearest_even (shr_m mrs1) (loc_of_shr_record mrs1)).
  assert (H12 : m / 2 ^ (fexp (Zdigits2 m + e) - e) <= m2).
  { pose proof (round_nearest_even_bounds (shr_m mrs1) (loc_of_shr_record mrs1)).
    unfold m2. lia. }
  assert (H2 : 0 <= m2).
  { assert (0 <= m / 2 ^ (fexp (Zdigits2 m + e) - e)).
    { apply Z.div_pos; [lia | apply Z.pow_pos_nonneg; lia]. }
    lia. }
  pose proof (shr_fexp_spec m2 (fexp (Zdigits2 m + e)) loc_Exact H2) as H3.
  destruct (shr_fexp prec emax m2 (fexp (Zdigits2 m + e)) loc_Exact) as [mrs3 e3].
  destruct H3 as [He3 Hm3].
  destruct (round_core m e m2 Hm HeE H12) as (Hnn & Hcan & Hlow).
  rewrite <- He3, <- Hm3 in Hnn, Hcan, Hlow.
  cbv zeta. split.
  - destruct (shr_m mrs3) as [| p | p] eqn:E3; try reflexivity.
    destruct (e3 <=? emax - prec) eqn:Ee; [| reflexivity].
    simpl. unfold bounded, canonical_mantissa.
    rewrite Ee, andb_true_r. apply Z.eqb_eq. apply (Hcan ltac:(lia)).
  - intros px ex Hc Hex Hle.
    apply Z.eqb_eq in Hc.
    destruct (Hlow (Zpos px) ex ltac:(lia) Hc Hex Hle) as [H3 Hord].
    destruct (shr_m mrs3) as [| p | p] eqn:E3; try lia.
    destruct (e3 <=? emax - prec); simpl; auto.
Qed.

Lemma binary_round_exact s p e :
  let r := binary_round prec emax s p e in
  valid_binary prec emax r = true /\
  signed_number s r /\
  forall px ex, canonical_mantissa prec emax px ex = true -> e <= ex ->
    Zpos px * 2 ^ (ex - e) <= Zpos p -> at_least px ex s r.
Proof.
  unfold binary_round.
  pose proof (shl_align_spec p e (fexp (Zpos (digits2_pos p) + e))) as Ha.
  destruct (shl_align p e (fexp (Zpos (digits2_pos p) + e))) as [mz ez].
  destruct Ha as [Hez Hmz].
  assert (Hd : Zdigits2 (Zpos mz) + ez = Zpos (digits2_pos p) + e).
  { rewrite Hmz. rewrite Zdigits2_mul_pow2 by lia. simpl. lia. }
  assert (Hpre : ez <= fexp (Zdigits2 (Zpos mz) + ez)).
  { rewrite Hd. lia. }
  destruct (binary_round_aux_exact s (Zpos mz) ez ltac:(lia) Hpre) as [Hv Hlow].
  split; [exact Hv |]. split; [apply binary_round_aux_number; lia |].
  intros px ex Hc Hex Hle. apply Hlow; [exact Hc | lia |].
  rewrite Hmz.
  replace (ex - ez) with ((ex - e) + (e - ez)) by lia.
  rewrite Z.pow_add_r by lia. rewrite Z.mul_assoc.
  apply Z.mul_le_mono_nonneg_r; [apply Z.pow_nonneg; lia | exact Hle].
Qed.


Lemma at_least_SFleb px ex r :
  at_least px ex false r -> SFleb (S754_finite false px ex) r = true.
Proof.
  destruct r as [| s | | s m e]; simpl; try contradiction.
  - intros ->. reflexivity.
  - intros [-> H]. unfold SFleb. simpl.
    destruct (Z.compare_spec ex e); try lia; try reflexivity.
    fold (Pos.compare px m). destruct (Pos.compare_spec px m); try reflexivity. lia.
Qed.

(** Adding a number that is not negative to a well-formed number that
    is not negative gives a well-formed number, not negative and not
    smaller. *)
Lemma SFadd_nonneg x y :
  valid_binary prec emax x = true -> valid_binary prec emax y = true ->
  nonneg_number x -> nonneg_number y ->
  let r := SFadd prec emax x y in
  valid_binary prec emax r = true /\ nonneg_number r /\ SFleb x r = true.
Proof.
  intros Vx Vy Nx Ny.
  destruct x as [sx | sx | | sx px ex], y as [sy | sy | | sy py ey];
    simpl in Nx, Ny; try contradiction; subst; cbv zeta.
  - destruct sx, sy; simpl; auto.
  - simpl; auto.
  - simpl. destruct sx; auto.
  - simpl; auto.
  - simpl; auto.
  - simpl; auto.
  - simpl. split; [exact Vx |]. split; [reflexivity |].
    apply SFleb_refl. discriminate.
  - simpl; auto.
  - cbn [SFadd cond_Zopp].
    pose proof (shl_align_spec px ex (Z.min ex ey)) as Hx.
    destruct (shl_align px ex (Z.min ex ey)) as [ax e1]. destruct Hx as [He1 Hax].
    destruct (shl_align py ey (Z.min ex ey)) as [ay e2].
    cbn [fst]. change (Z.pos ax + Z.pos ay) with (Z.pos (ax + ay)).
    cbn [binary_normalize].
    destruct (binary_round_exact false (ax + ay) (Z.min ex ey)) as (Hv & Hn & Hlow).
    split; [exact Hv |]. split.
    + destruct (binary_round prec emax false (ax + ay) (Z.min ex ey));
        simpl in Hn |- *; auto.
    + apply at_least_SFleb. apply Hlow.
      * simpl in Vx. unfold bounded in Vx. apply andb_true_iff in Vx. tauto.
      * lia.
      * replace e1 with (Z.min ex ey) in Hax by lia. rewrite <- Hax. lia.
Qed.

(** Multiplying a number that is not negative by a positive normal
    number gives a well-formed number that is not negative. *)
Lemma SFmul_nonneg_normal x py ey :
  Zpos (digits2_pos py) = prec ->
  nonneg_number x ->
  let r := SFmul prec emax x (S754_finite false py ey) in
  valid_binary prec emax r = true /\ nonneg_number r.
Proof.
  intros Hd Nx.
  destruct x as [sx | sx | | sx px ex]; simpl in Nx; try contradiction;
    try subst sx; cbv zeta; cbn [SFmul xorb]; try (simpl; auto; fail).
  assert (Hpre : ex + ey <= fexp (Zdigits2 (Zpos (px * py)) + (ex + ey))).
  { assert (ex + ey <= Zdigits2 (Zpos (px * py)) + (ex + ey) - prec);
      [| unfold SpecFloat.fexp; lia].
    rewrite Zdigits2_log2 by lia. rewrite Pos2Z.inj_mul.
    pose proof (Z.log2_mul_below (Zpos px) (Zpos py) ltac:(lia) ltac:(lia)).
    pose proof (Z.log2_nonneg (Zpos px)).
    rewrite digits2_log2 in Hd. lia. }
  destruct (binary_round_aux_exact false (Zpos (px * py)) (ex + ey) ltac:(lia) Hpre)
    as [Hv _].
  split; [exact Hv |].
  pose proof (binary_round_aux_number false (Zpos (px * py)) (ex + ey) loc_Exact
                ltac:(lia)) as Hn.
  destruct (binary_round_aux prec emax false (Zpos (px * py)) (ex + ey) loc_Exact);
    simpl in Hn |- *; auto.
Qed.

End Rounding.

Lemma SFleb_zero_nonneg x : SFleb (S754_zero false) x = true <-> nonneg_number x.
Proof.
  unfold SFleb. destruct x as [s | [|] | | [|] m e]; simpl; split;
    intros H; try reflexivity; try discriminate; try contradiction; auto.
Qed.

(** ** Results that are numbers, and results that do not overflow *)

Section Overflow.
Variables prec emax : Z.
Hypothesis Hprec : 0 < prec.

Local Abbreviation fexp := (fexp prec emax).
Local Abbreviation emin := (emin prec emax).

Lemma Zdigits2_succ m : 0 <= m -> Zdigits2 (m + 1) <= Zdigits2 m + 1.
Proof.
  intros Hm. destruct (Z.eq_dec m 0) as [-> | Hne]; [simpl; lia |].
  rewrite <- (Zdigits2_mul_pow2 m 1) by lia.
  apply Zdigits2_le; lia.
Qed.

(** The exponent of a rounded result is at most the format's exponent
    for a number with one more digit; and the result is not zero when
    the first shift leaves a digit. *)
Lemma round_core_upper m e m2 :
  0 < m ->
  let E := fexp (Zdigits2 m + e) in
  let m1 := m / 2 ^ (E - e) in
  let e3 := Z.max E (fexp (Zdigits2 m2 + E)) in
  let m3 := m2 / 2 ^ (e3 - E) in
  e <= E -> m1 <= m2 <= m1 + 1 ->
  e3 <= fexp (Zdigits2 m + e + 1) /\
  (E - e < Zdigits2 m -> 0 < m3).
Proof.
  intros Hm E m1 e3 m3 HeE [H12 H21].
  assert (HEmin : emin <= E) by apply fexp_ge_emin.
  assert (HE1 : E <= fexp (Zdigits2 m + e + 1)).
  { unfold E. apply fexp_mono. lia. }
  assert (Hm1 : 0 <= m1).
  { apply Z.div_pos; [lia | apply Z.pow_pos_nonneg; lia]. }
  split.
  - destruct (Z_lt_le_dec (E - e) (Zdigits2 m)) as [Hlt | Hge].
    + destruct (Zdigits2_div_pow2 m (E - e) Hm) as [Hq Hd]; [lia |].
      fold m1 in Hq, Hd.
      assert (Hd2 : Zdigits2 m2 <= Zdigits2 m1 + 1).
      { apply Z.le_trans with (Zdigits2 (m1 + 1)).
        - apply Zdigits2_le; lia.
        - apply Zdigits2_succ. lia. }
      unfold e3. apply Z.max_lub; [exact HE1 |]. apply fexp_mono. lia.
    + assert (m1 = 0) by (apply div_pow2_small; lia).
      assert (HE : E = emin) by (unfold E, SpecFloat.fexp in *; lia).
      assert (Hd2 : Zdigits2 m2 <= 1).
      { destruct (Z.eq_dec m2 0) as [-> | Hne]; [simpl; lia |].
        assert (m2 = 1) by lia. subst m2. simpl. lia. }
      unfold e3. apply Z.max_lub; [exact HE1 |].
      apply Z.le_trans with emin; [| apply fexp_ge_emin].
      rewrite HE. unfold SpecFloat.fexp. lia.
  - intros Hlt.
    destruct (Zdigits2_div_pow2 m (E - e) Hm) as [Hq Hd]; [lia |].
    fold m1 in Hq, Hd.
    assert (Hm2 : 0 < m2) by lia.
    pose proof (Zdigits2_pos m2 Hm2) as Hd2.
    assert (HE2 : E <= fexp (Zdigits2 m2 + E)).
    { pose proof (Zdigits2_le m1 m2 Hq H12) as Hle.
      unfold E at 1. apply fexp_mono. lia. }
    assert (Hn3 : 0 <= e3 - E < Zdigits2 m2).
    { unfold e3. split; [lia |].
      rewrite Z.max_r by exact HE2. unfold SpecFloat.fexp. lia. }
    destruct (Zdigits2_div_pow2 m2 (e3 - E) Hm2 Hn3) as [H3 _]. exact H3.
Qed.

Lemma binary_round_aux_finite s m e :
  0 < m -> e <= fexp (Zdigits2 m + e) ->
  fexp (Zdigits2 m + e + 1) <= emax - prec ->
  let r := binary_round_aux prec emax s m e loc_Exact in
  finite_number r /\
  (fexp (Zdigits2 m + e) - e < Zdigits2 m -> exists m3 e3, r = S754_finite s m3 e3).
Proof.
  intros Hm HeE Hov. unfold binary_round_aux.
  pose proof (shr_fexp_spec prec emax m e loc_Exact ltac:(lia)) as H1.
  destruct (shr_fexp prec emax m e loc_Exact) as [mrs1 e1]. destruct H1 as [He1 Hm1].
  assert (He1' : e1 = fexp (Zdigits2 m + e)) by lia. clear He1. subst e1.
  set (m2 := round_nearest_even (shr_m mrs1) (loc_of_shr_record mrs1)).
  assert (H12 : m / 2 ^ (fexp (Zdigits2 m + e) - e) <= m2
                <= m / 2 ^ (fexp (Zdigits2 m + e) - e) + 1).
  { pose proof (round_nearest_even_bounds (shr_m mrs1) (loc_of_shr_record mrs1)).
    unfold m2. lia. }
  assert (H2 : 0 <= m2).
  { assert (0 <= m / 2 ^ (fexp (Zdigits2 m + e) - e)).
    { apply Z.div_pos; [lia | apply Z.pow_pos_nonneg; lia]. }
    lia. }
  pose proof (shr_fexp_spec prec emax m2 (fexp (Zdigits2 m + e)) loc_Exact H2) as H3.
  destruct (shr_fexp prec emax m2 (fexp (Zdigits2 m + e)) loc_Exact) as [mrs3 e3].
  destruct H3 as [He3 Hm3].
  destruct (round_core_upper m e m2 Hm HeE H12) as (Hup & Hpos).
  destruct (round_core prec emax Hprec m e m2 Hm HeE (proj1 H12)) as (Hnn & _ & _).
  rewrite <- He3 in Hup. rewrite <- He3, <- Hm3 in Hpos, Hnn.
  cbv zeta.
  assert (Hle : (e3 <=? emax - prec) = true) by (apply Z.leb_le; lia).
  split.
  - destruct (shr_m mrs3) as [| p | p]; try exact I; [| lia].
    rewrite Hle. exact I.
  - intros Hlt. specialize (Hpos Hlt).
    destruct (shr_m mrs3) as [| p | p]; try lia.
    rewrite Hle. eauto.
Qed.

Lemma binary_round_finite s p e :
  fexp (Zpos (digits2_pos p) + e + 1) <= emax - prec ->
  let r := binary_round prec emax s p e in
  finite_number r /\
  (emin < Zpos (digits2_pos p) + e -> exists m3 e3, r = S754_finite s m3 e3).
Proof.
  intros Hov. unfold binary_round.
  pose proof (shl_align_spec p e (fexp (Zpos (digits2_pos p) + e))) as Ha.
  destruct (shl_align p e (fexp (Zpos (digits2_pos p) + e))) as [mz ez].
  destruct Ha as [Hez Hmz].
  assert (Hd : Zdigits2 (Zpos mz) + ez = Zpos (digits2_pos p) + e).
  { rewrite Hmz. rewrite Zdigits2_mul_pow2 by lia. simpl. lia. }
  assert (Hpre : ez <= fexp (Zdigits2 (Zpos mz) + ez)) by (rewrite Hd; lia).
  assert (Hov' : fexp (Zdigits2 (Zpos mz) + ez + 1) <= emax - prec)
    by (rewrite Hd; exact Hov).
  destruct (binary_round_aux_finite s (Zpos mz) ez ltac:(lia) Hpre Hov') as [Hf Hp].
  split; [exact Hf |].
  intros Hbig. apply Hp. rewrite Hd.
  pose proof (fexp_lt prec emax Hprec _ Hbig). lia.
Qed.

Lemma binary_normalize_number m e sz :
  binary_normalize prec emax m e sz <> S754_nan.
Proof.
  destruct m as [| p | p]; simpl; [discriminate | |].
  - destruct (binary_round_exact prec emax Hprec false p e) as (_ & Hn & _).
    intros E. rewrite E in Hn. exact Hn.
  - destruct (binary_round_exact prec emax Hprec true p e) as (_ & Hn & _).
    intros E. rewrite E in Hn. exact Hn.
Qed.

Lemma binary_normalize_finite m e sz :
  fexp (Zdigits2 m + e + 1) <= emax - prec ->
  finite_number (binary_normalize prec emax m e sz).
Proof.
  intros Hov. destruct m as [| p | p]; simpl in *; [exact I | |];
    apply binary_round_finite; exact Hov.
Qed.

Lemma convert_to_number x : x <> S754_nan -> convert_to prec emax x <> S754_nan.
Proof.
  destruct x as [s | s | | s m e]; simpl; try congruence.
  intros _. apply binary_normalize_number.
Qed.

Lemma SFadd_number x y :
  finite_number x -> y <> S754_nan -> SFadd prec emax x y <> S754_nan.
Proof.
  destruct x as [sx | sx | | sx mx ex], y as [sy | sy | | sy my ey];
    simpl; try contradiction; try congruence; intros _ _.
  - destruct sx, sy; discriminate.
  - apply binary_normalize_number.
Qed.

Lemma SFsub_number x y :
  x <> S754_nan -> finite_number y -> SFsub prec emax x y <> S754_nan.
Proof.
  destruct x as [sx | sx | | sx mx ex], y as [sy | sy | | sy my ey];
    simpl; try contradiction; try congruence; intros _ _.
  - destruct sx, sy; discriminate.
  - apply binary_normalize_number.
Qed.

Lemma SFmul_number x sy my ey :
  x <> S754_nan -> SFmul prec emax x (S754_finite sy my ey) <> S754_nan.
Proof.
  destruct x as [sx | sx | | sx mx ex]; simpl; try congruence; intros _.
  pose proof (binary_round_aux_number prec emax (xorb sx sy)
                (Zpos (mx * my)) (ex + ey) loc_Exact ltac:(lia)) as Hn.
  intros E. rewrite E in Hn. exact Hn.
Qed.

Lemma SFdiv_number x sy my ey :
  finite_number x -> SFdiv prec emax x (S754_finite sy my ey) <> S754_nan.
Proof.
  destruct x as [sx | sx | | sx mx ex]; simpl; try contradiction; try congruence.
  intros _. unfold SFdiv_core_binary.
  set (m' := match _ - _ - _ with Z0 => Zpos mx | Zpos _ => _ | Zneg _ => 0 end).
  assert (Hm' : 0 <= m').
  { unfold m'. destruct (_ - _ - _); try lia. apply Z.shiftl_nonneg. lia. }
  pose proof (Z.div_pos m' (Zpos my) Hm' ltac:(lia)) as Hq.
  unfold Z.div in Hq. destruct (Z.div_eucl m' (Zpos my)) as [q r]. simpl in Hq.
  pose proof (binary_round_aux_number prec emax (xorb sx sy) q
                (Z.min
                   (fexp (Zpos (digits2_pos mx) + ex - (Zpos (digits2_pos my) + ey)))
                   (ex - ey))
                (new_location (Zpos my) r) Hq) as Hn.
  intros E. simpl in E. rewrite E in Hn. exact Hn.
Qed.

End Overflow.

(** ** The sensor source *)

Lemma Zdigits2_int z : 0 <= z <= INT_MAX -> Zdigits2 z <= 31.
Proof.
  intros Hz. destruct (Z.eq_dec z 0) as [-> | Hne]; [simpl; lia |].
  rewrite Zdigits2_log2 by lia.
  assert (Z.log2 z < 31); [| lia].
  apply Z.log2_lt_pow2; [lia |]. unfold INT_MAX in Hz. lia.
Qed.

Lemma float_of_int_finite z : 0 <= z <= INT_MAX -> finite_number (float_of_int z).
Proof.
  intros Hz. apply (binary_normalize_finite 24 128 ltac:(lia)).
  pose proof (Zdigits2_int z Hz). unfold fexp, emin. lia.
Qed.

Lemma float_of_int_nonzero z :
  0 < z <= INT_MAX -> exists m e, float_of_int z = S754_finite false m e.
Proof.
  intros Hz. destruct z as [| p | p]; try lia.
  unfold float_of_int. cbn [binary_normalize].
  apply (binary_round_finite 24 128 ltac:(lia)).
  - pose proof (Zdigits2_int (Zpos p) ltac:(lia)) as Hd. simpl in Hd.
    unfold fexp, emin. lia.
  - unfold emin. lia.
Qed.

Lemma double_of_float_finite x :
  float_valid x = true -> finite_number x -> finite_number (double_of_float x).
Proof.
  destruct x as [s | s | | s m e]; simpl; try contradiction; try (intros; exact I).
  intros Hv _. apply (binary_normalize_finite 53 1024 ltac:(lia)).
  unfold float_valid in Hv. simpl in Hv. unfold bounded, canonical_mantissa in Hv.
  apply andb_true_iff in Hv as [Hc Hb].
  apply Z.eqb_eq in Hc. apply Z.leb_le in Hb.
  assert (Hd : Zdigits2 (cond_Zopp s (Zpos m)) = Zpos (digits2_pos m))
    by (destruct s; reflexivity).
  rewrite Hd. unfold fexp, emin in *. lia.
Qed.

Lemma float_of_double_valid x : float_valid (float_of_double x) = true.
Proof.
  unfold float_valid, float_of_double.
  destruct x as [s | s | | s m e]; simpl; try reflexivity.
  destruct s; simpl; apply (binary_round_exact 24 128 ltac:(lia)).
Qed.

(** The random walk yields a number. *)
Lemma random_walk_number RAND_MAX r sm se x :
  0 < RAND_MAX <= INT_MAX -> 0 <= r <= RAND_MAX ->
  float_valid x = true -> finite_number x ->
  random_walk RAND_MAX r (S754_finite false sm se) x <> S754_nan.
Proof.
  intros HR Hr Hv Hf. unfold random_walk.
  apply (convert_to_number 24 128 ltac:(lia)).
  apply (SFadd_number 53 1024 ltac:(lia)).
  - apply double_of_float_finite; assumption.
  - apply (SFmul_number 53 1024).
    apply (SFsub_number 53 1024 ltac:(lia)); [| exact I].
    apply (convert_to_number 53 1024 ltac:(lia)).
    unfold rand_unit.
    destruct (float_of_int_nonzero RAND_MAX HR) as (m & e & ->).
    apply (SFdiv_number 24 128).
    apply float_of_int_finite. lia.
Qed.

(** Clamping a number to [0, 80] gives a well-formed finite number that
    is not negative. *)
Lemma clamp_0_80 x :
  x <> S754_nan -> float_valid x = true ->
  float_nonneg (clamp 0 80 x) = true /\
  float_valid (clamp 0 80 x) = true /\ finite_number (clamp 0 80 x).
Proof.
  intros Hn Hv. unfold clamp.
  change (float_of_int 0) with (S754_zero false).
  replace (float_of_int 80) with (S754_finite false 10485760 (-17))
    by (vm_compute; reflexivity).
  destruct x as [s | [|] | | [|] m e]; try congruence;
    unfold flt, fgt, SFltb; cbn [SFcompare]; try (repeat split; reflexivity).
  destruct (e ?= -17); [destruct (Pos.compare_cont Eq m 10485760) | |];
    (split; [| split]); try reflexivity; try exact Hv; exact I.
Qed.

Lemma read_sensor_data_speed RAND_MAX r1 r2 st :
  0 < RAND_MAX <= INT_MAX -> 0 <= r1 <= RAND_MAX ->
  float_valid (static_speed st) = true -> finite_number (static_speed st) ->
  float_nonneg (speed (fst (read_sensor_data RAND_MAX r1 r2 st))) = true /\
  float_valid (static_speed (snd (read_sensor_data RAND_MAX r1 r2 st))) = true /\
  finite_number (static_speed (snd (read_sensor_data RAND_MAX r1 r2 st))).
Proof.
  intros HR Hr Hv Hf. unfold read_sensor_data. cbn [fst snd speed static_speed].
  apply clamp_0_80.
  - replace d_5_0 with (S754_finite false 5629499534213120 (-50))
      by (vm_compute; reflexivity).
    apply random_walk_number; assumption.
  - unfold random_walk. apply float_of_double_valid.
Qed.

Lemma sensor_run_nonneg RAND_MAX rands : forall st,
  0 < RAND_MAX <= INT_MAX -> Forall (rand_values RAND_MAX) rands ->
  float_valid (static_speed st) = true -> finite_number (static_speed st) ->
  Forall (fun r => float_nonneg (speed r) = true) (sensor_run RAND_MAX rands st).
Proof.
  induction rands as [| [r1 r2] rest IH]; intros st HR Hall Hv Hf.
  - constructor.
  - apply Forall_cons in Hall as [[Hr1 _] Hall]. cbn [fst snd] in Hr1.
    destruct (read_sensor_data_speed RAND_MAX r1 r2 st HR Hr1 Hv Hf) as (Hn & Hv' & Hf').
    cbn [sensor_run].
    destruct (read_sensor_data RAND_MAX r1 r2 st) as [d st'].
    cbn [fst snd] in *. constructor; [exact Hn |].
    apply IH; assumption.
Qed.

(** ** The sensor loop *)

Lemma fgt_SFltb x y : fgt x y = SFltb y x.
Proof.
  unfold fgt, SFltb. rewrite (SFcompare_antisym x y).
  destruct (SFcompare x y) as [[| |] |]; reflexivity.
Qed.

Lemma float_max_upper a b :
  a <> S754_nan -> b <> S754_nan ->
  fle a (float_max a b) = true /\ fle b (float_max a b) = true /\
  (float_max a b = a \/ float_max a b = b).
Proof.
  intros Ha Hb. unfold float_max, fle.
  destruct (SFltb a b) eqn:L.
  - split; [| split; [apply SFleb_refl; exact Hb | auto]].
    unfold SFltb in L. unfold SFleb.
    destruct (SFcompare a b) as [[| |] |]; congruence.
  - split; [apply SFleb_refl; exact Ha | split; [| auto]].
    unfold SFltb in L. unfold SFleb. rewrite (SFcompare_antisym a b).
    destruct (SFcompare a b) as [[| |] |] eqn:E; simpl; try congruence.
    destruct a, b; simpl in E; congruence.
Qed.

Lemma time_hours_value : time_hours = S754_finite false 12216796 (-42).
Proof. vm_compute. reflexivity. Qed.

(** The fields of [vehicle_state] after one pass. *)
Lemma fast_loop_update_fields vs reading :
  let vs' := fast_loop_update reading vs in
  current_sensor vs' = reading /\
  total_distance vs'
    = float_add (total_distance vs) (float_mul (speed reading) time_hours) /\
  top_speed vs' = float_max (top_speed vs) (speed reading) /\
  is_moving vs' = fgt (double_of_float (speed reading)) d_0_5 /\
  last_battery vs' = last_battery vs.
Proof.
  cbv zeta.
  unfold fast_loop_update, update_is_moving, update_top_speed, float_max.
  rewrite <- fgt_SFltb.
  cbn [top_speed update_distance store_total_distance store_current_sensor].
  destruct (fgt (speed reading) (top_speed vs)); repeat split; reflexivity.
Qed.

(** C3. One pass of the sensor loop over any state and any reading:
    (a) the reading becomes [current_sensor]; (b) [total_distance] grows
    by [speed * time_hours] in [float] arithmetic, where [time_hours] is
    the [float] 12216796 * 2^-42, within half a unit in the last place
    of 0.01/3600 (that is, of 1/360000); (c) [top_speed] becomes the
    maximum of the old [top_speed] and the reading's speed, which for
    two numbers is one of them and not below either; (d) [is_moving]
    becomes [speed > 0.5]; and [last_battery] is left as it was. *)
Theorem fast_loop_update_spec (vs : VehicleState) (reading : SensorData) :
  let vs' := fast_loop_update reading vs in
  current_sensor vs' = reading /\
  total_distance vs'
    = float_add (total_distance vs) (float_mul (speed reading) time_hours) /\
  (time_hours = S754_finite false 12216796 (-42) /\
   2 * Z.abs (12216796 * 360000 - 2 ^ 42) <= 360000) /\
  top_speed vs' = float_max (top_speed vs) (speed reading) /\
  (top_speed vs <> S754_nan -> speed reading <> S754_nan ->
   fle (top_speed vs) (top_speed vs') = true /\
   fle (speed reading) (top_speed vs') = true /\
   (top_speed vs' = top_speed vs \/ top_speed vs' = speed reading)) /\
  is_moving vs' = fgt (double_of_float (speed reading)) d_0_5 /\
  last_battery vs' = last_battery vs.
Proof.
  destruct (fast_loop_update_fields vs reading) as (Hc & Hd & Hmax & Hm & Hb).
  cbv zeta.
  split; [exact Hc |]. split; [exact Hd |].
  split; [split; [exact time_hours_value | vm_compute; discriminate] |].
  split; [exact Hmax |].
  split; [| split; [exact Hm | exact Hb]].
  intros Ht Hs. rewrite Hmax. apply float_max_upper; assumption.
Qed.

Lemma fast_loop_update_spec_witness :
  let vs := fast_loop_update (sample_sensor 100 60 25) vehicle_state_init in
  let r := sample_sensor 99 40 25 in
  fle (top_speed vs) (top_speed (fast_loop_update r vs)) = true /\
  fle (speed r) (top_speed (fast_loop_update r vs)) = true /\
  (top_speed (fast_loop_update r vs) = top_speed vs \/
   top_speed (fast_loop_update r vs) = speed r).
Proof.
  intros vs r.
  apply (fast_loop_update_spec vs r); vm_compute; discriminate.
Defined.

Lemma state_ok_init : state_ok vehicle_state_init.
Proof. unfold state_ok; simpl. repeat split. discriminate. Qed.

Lemma time_hours_normal :
  exists py ey, time_hours = S754_finite false py ey /\ Zpos (digits2_pos py) = 24.
Proof. rewrite time_hours_value. eexists _, _. split; reflexivity. Qed.

(** One pass keeps [state_ok], and neither [total_distance] nor
    [top_speed] goes down, when the reading's speed is not negative. *)
Lemma fast_loop_update_mono vs r :
  state_ok vs -> float_nonneg (speed r) = true ->
  let vs' := fast_loop_update r vs in
  state_ok vs' /\
  fle (total_distance vs) (total_distance vs') = true /\
  fle (top_speed vs) (top_speed vs') = true.
Proof.
  intros (Hv & Hn & Ht) Hs. cbv zeta.
  destruct (fast_loop_update_fields vs r) as (_ & Hd & Hm & _ & _).
  apply SFleb_zero_nonneg in Hs.
  destruct time_hours_normal as (py & ey & Hth & Hdig).
  assert (Hmul : valid_binary 24 128 (float_mul (speed r) time_hours) = true /\
                 nonneg_number (float_mul (speed r) time_hours)).
  { rewrite Hth. apply (SFmul_nonneg_normal 24 128 ltac:(lia) (speed r) py ey Hdig Hs). }
  destruct Hmul as [Hmv Hmn].
  destruct (SFadd_nonneg 24 128 ltac:(lia) _ _ Hv Hmv Hn Hmn) as (Hav & Han & Hale).
  fold (float_add (total_distance vs) (float_mul (speed r) time_hours)) in Hav, Han, Hale.
  rewrite <- Hd in Hav, Han, Hale.
  assert (Hs' : speed r <> S754_nan) by (destruct (speed r); simpl in Hs; congruence).
  destruct (float_max_upper (top_speed vs) (speed r) Ht Hs') as (Hle & _ & Hor).
  rewrite <- Hm in Hle, Hor.
  split; [| split; [exact Hale | exact Hle]].
  split; [exact Hav |]. split; [exact Han |].
  destruct Hor as [-> | ->]; assumption.
Qed.

Lemma fast_loop_run_app pre post vs :
  fast_loop_run (pre ++ post) vs = fast_loop_run post (fast_loop_run pre vs).
Proof. unfold fast_loop_run. apply fold_left_app. Qed.

Lemma fast_loop_run_mono post : forall vs,
  state_ok vs -> Forall (fun r => float_nonneg (speed r) = true) post ->
  state_ok (fast_loop_run post vs) /\
  fle (total_distance vs) (total_distance (fast_loop_run post vs)) = true /\
  fle (top_speed vs) (top_speed (fast_loop_run post vs)) = true.
Proof.
  induction post as [| r post IH]; intros vs Hok Hall.
  - simpl. split; [exact Hok |].
    destruct Hok as (_ & Hn & Ht). split; apply SFleb_refl; [| exact Ht].
    destruct (total_distance vs); simpl in Hn; congruence.
  - apply Forall_cons in Hall as [Hr Hall].
    destruct (fast_loop_update_mono vs r Hok Hr) as (Hok1 & Hd1 & Ht1).
    destruct (IH _ Hok1 Hall) as (Hok2 & Hd2 & Ht2).
    change (fast_loop_run (r :: post) vs)
      with (fast_loop_run post (fast_loop_update r vs)).
    split; [exact Hok2 |]. split.
    + exact (SFleb_trans _ _ _ Hd1 Hd2).
    + exact (SFleb_trans _ _ _ Ht1 Ht2).
Qed.

(** C4. Monotonicity.  Let the sensor loop consume, from the initial
    state, readings whose speeds are all numbers and not negative.  The
    state after any number of passes has a [total_distance] and a
    [top_speed] less than or equal to those of the state after any
    number of further passes.  And the readings of [read_sensor_data]
    are such readings, whatever [rand] returns in its range. *)
Theorem fast_loop_monotone (RAND_MAX : Z) (rands : list (Z * Z))
    (pre post : list SensorData) :
  (Forall (fun r => float_nonneg (speed r) = true) (pre ++ post) ->
   let before := fast_loop_run pre vehicle_state_init in
   let after := fast_loop_run (pre ++ post) vehicle_state_init in
   fle (total_distance before) (total_distance after) = true /\
   fle (top_speed before) (top_speed after) = true) /\
  (0 < RAND_MAX <= INT_MAX -> Forall (rand_values RAND_MAX) rands ->
   Forall (fun r => float_nonneg (speed r) = true)
     (sensor_run RAND_MAX rands sensor_statics_init)).
Proof.
  split.
  - intros Hall. cbv zeta. apply Forall_app in Hall as [Hpre Hpost].
    rewrite fast_loop_run_app.
    destruct (fast_loop_run_mono pre _ state_ok_init Hpre) as (Hok & _ & _).
    destruct (fast_loop_run_mono post _ Hok Hpost) as (_ & Hd & Ht).
    split; assumption.
  - intros HR Hall. apply sensor_run_nonneg; try assumption; try reflexivity.
Qed.

Lemma fast_loop_monotone_witness :
  let pre := [sample_sensor 100 60 25; sample_sensor 100 80 25] in
  let post := [sample_sensor 99 0 26; sample_sensor 99 30 26] in
  (fle (total_distance (fast_loop_run pre vehicle_state_init))
       (total_distance (fast_loop_run (pre ++ post) vehicle_state_init)) = true /\
   fle (top_speed (fast_loop_run pre vehicle_state_init))
       (top_speed (fast_loop_run (pre ++ post) vehicle_state_init)) = true) /\
  Forall (fun r => float_nonneg (speed r) = true)
    (sensor_run 2147483647 [(2147483647, 0); (0, 2147483647); (12345, 67890)]
       sensor_statics_init).
Proof.
  intros pre post.
  pose proof (fast_loop_monotone 2147483647
                [(2147483647, 0); (0, 2147483647); (12345, 67890)] pre post)
    as [Hmono Hsrc].
  split.
  - apply Hmono. repeat constructor.
  - apply Hsrc.
    + unfold INT_MAX. lia.
    + repeat constructor; cbn; lia.
Defined.

(** Sample values of the model: one pass at 60 km/h from the initial
    state, and the first reading of the sensor source when [rand]
    returns [RAND_MAX] and then 0. *)
Example fast_loop_update_sample :
  fast_loop_update (sample_sensor 100 60 25) vehicle_state_init
  = {| total_distance := S754_finite false 11453246 (-36);
       top_speed := S754_finite false 15728640 (-18);
       last_battery := S754_zero false;
       is_moving := true;
       current_sensor := sample_sensor 100 60 25 |}.
Proof. vm_compute. reflexivity. Qed.

Example read_sensor_data_sample :
  fst (read_sensor_data 2147483647 2147483647 0 sensor_statics_init)
  = {| battery := S754_finite false 13107069 (-17);
       speed := S754_finite false 10485760 (-22);
       temp := S754_finite false 12582912 (-19) |}.
Proof. vm_compute. reflexivity. Qed.

(** ** The logic loop *)

(** Timestamps are not negative, and their differences do not
    overflow. *)
Lemma get_timestamp_ms_nonneg tv_sec tv_nsec :
  0 <= tv_sec -> 0 <= tv_nsec -> 0 <= get_timestamp_ms tv_sec tv_nsec.
Proof.
  intros Hs Hn. unfold get_timestamp_ms.
  pose proof (Z.quot_pos tv_nsec 1000000 Hn ltac:(lia)). lia.
Qed.

Lemma timestamp_difference a b :
  0 <= a <= LONG_MAX -> 0 <= b <= LONG_MAX -> LONG_MIN <= a - b <= LONG_MAX.
Proof. unfold LONG_MIN, LONG_MAX. lia. Qed.

Lemma rule2_last_send_time vs now l1 l2 :
  last_send_time l1 = last_send_time l2 -> rule2 vs now l1 = rule2 vs now l2.
Proof. intros H. unfold rule2. rewrite H. reflexivity. Qed.

(** The critical section in closed form. *)
Lemma slow_loop_critical_eq vs now l :
  slow_loop_critical vs now l =
  {| cloud_data := build_cloud_data vs now;
     should_send := rule1 vs l || rule2 vs now l || rule3 vs;
     locals := {| last_send_time := if rule2 vs now l then now
                                    else last_send_time l;
                  last_battery_sent := if rule1 vs l
                                       then battery (current_sensor vs)
                                       else last_battery_sent l |};
     printed :=
       (if rule1 vs l then [Print "[Logic] Battery changed while idle"] else [])
       ++ (if rule2 vs now l then [Print "[Logic] Periodic update (moving)"] else [])
       ++ (if rule3 vs then [Print "[Logic] CRITICAL TEMP ALERT!"] else []) |}.
Proof.
  unfold slow_loop_critical.
  destruct (rule1 vs l) eqn:R1;
    cbn [cloud_data should_send locals printed build_cloud_data timestamp];
    try (rewrite (rule2_last_send_time vs now _ l) by reflexivity);
    destruct (rule2 vs now l) eqn:R2;
    cbn [cloud_data should_send locals printed last_send_time last_battery_sent];
    destruct (rule3 vs) eqn:R3;
    cbn [cloud_data should_send locals printed last_send_time last_battery_sent
         orb app];
    try reflexivity; destruct l; reflexivity.
Qed.

Lemma enqueue_calls_app evs1 evs2 :
  enqueue_calls (evs1 ++ evs2) = enqueue_calls evs1 ++ enqueue_calls evs2.
Proof.
  induction evs1 as [| [r | line | d ok | d st] evs1 IH]; simpl; congruence.
Qed.

Lemma enqueue_calls_printed vs now l :
  enqueue_calls (printed (slow_loop_critical vs now l)) = [].
Proof.
  rewrite slow_loop_critical_eq. cbn [printed].
  destruct (rule1 vs l), (rule2 vs now l), (rule3 vs); reflexivity.
Qed.

(** The queue after a [queue_enqueue] on a queue of the right shape. *)
Lemma queue_enqueue_total q d :
  queue_wf q ->
  exists q', queue_enqueue q d = Some (q', count q <? QUEUE_SIZE) /\
             queue_wf q' /\ enqueue_effect q d q'.
Proof.
  intros Hwf. destruct (Z_lt_le_dec (count q) QUEUE_SIZE) as [Hroom | Hfull].
  - destruct (queue_enqueue_room q d Hwf Hroom) as (q' & He & Hwf' & Hc & _).
    exists q'. replace (count q <? QUEUE_SIZE) with true by (symmetry; apply Z.ltb_lt; lia).
    split; [exact He |]. split; [exact Hwf' |]. split; [auto | lia].
  - exists q. rewrite (queue_enqueue_full q d Hfull).
    replace (count q <? QUEUE_SIZE) with false by (symmetry; apply Z.ltb_ge; lia).
    split; [reflexivity |]. split; [exact Hwf |]. split; [lia | auto].
Qed.

(** One pass in closed form. *)
Lemma slow_loop_iteration_eq vs now l q :
  queue_wf q ->
  exists q' evs,
    slow_loop_iteration vs now l q
      = Some (locals (slow_loop_critical vs now l), q', evs) /\
    queue_wf q' /\
    (should_send (slow_loop_critical vs now l) = true ->
       enqueue_effect q (build_cloud_data vs now) q' /\
       evs = printed (slow_loop_critical vs now l)
             ++ EnqueueCall (build_cloud_data vs now) (count q <? QUEUE_SIZE)
             :: (if count q <? QUEUE_SIZE then []
                 else [Print "[Logic] Warning: Queue full!"])) /\
    (should_send (slow_loop_critical vs now l) = false ->
       q' = q /\ evs = printed (slow_loop_critical vs now l)).
Proof.
  intros Hwf. unfold slow_loop_iteration.
  assert (Hcd : cloud_data (slow_loop_critical vs now l) = build_cloud_data vs now).
  { rewrite slow_loop_critical_eq. reflexivity. }
  destruct (should_send (slow_loop_critical vs now l)) eqn:S.
  - destruct (queue_enqueue_total q (build_cloud_data vs now) Hwf)
      as (q' & He & Hwf' & Heff).
    rewrite Hcd, He. cbn.
    eexists q', _. split; [reflexivity |]. split; [exact Hwf' |].
    split; [auto | discriminate].
  - eexists q, _. split; [reflexivity |]. split; [exact Hwf |].
    split; [discriminate | auto].
Qed.

(** C5. A pass of the logic loop over a queue of the shape every
    reachable queue has: the pass is defined, and its [queue_enqueue]
    calls are one call, of the one record built from the state read in
    the pass, when at least one of the three rules holds (however many
    do), and none otherwise. *)
Theorem slow_loop_one_enqueue (vs : VehicleState) (now : Z) (l : SlowLocals)
    (q : CloudQueue) :
  queue_wf q ->
  exists l' q' evs,
    slow_loop_iteration vs now l q = Some (l', q', evs) /\
    enqueue_calls evs =
      if rule1 vs l || rule2 vs now l || rule3 vs
      then [(build_cloud_data vs now, count q <? QUEUE_SIZE)]
      else [].
Proof.
  intros Hwf.
  destruct (slow_loop_iteration_eq vs now l q Hwf) as (q' & evs & Hit & _ & Hs & Hn).
  exists (locals (slow_loop_critical vs now l)), q', evs.
  split; [exact Hit |].
  assert (Hss : should_send (slow_loop_critical vs now l)
                = rule1 vs l || rule2 vs now l || rule3 vs).
  { rewrite slow_loop_critical_eq. reflexivity. }
  rewrite <- Hss.
  destruct (should_send (slow_loop_critical vs now l)).
  - destruct (Hs eq_refl) as [_ ->].
    rewrite enqueue_calls_app, enqueue_calls_printed. cbn.
    destruct (count q <? QUEUE_SIZE); reflexivity.
  - destruct (Hn eq_refl) as [_ ->]. apply enqueue_calls_printed.
Qed.

Lemma slow_loop_one_enqueue_witness :
  exists l' q' evs,
    slow_loop_iteration sample_hot_idle 5000 (slow_loop_entry 1000)
      cloud_queue_init = Some (l', q', evs) /\
    enqueue_calls evs = [(build_cloud_data sample_hot_idle 5000, true)].
Proof.
  exact (slow_loop_one_enqueue sample_hot_idle 5000 (slow_loop_entry 1000)
           cloud_queue_init cloud_queue_init_wf).
Defined.

Lemma sample_full_queue_wf : queue_wf sample_full_queue.
Proof.
  destruct (queue_run_wf (sample_fill QUEUE_SIZE) _ cloud_queue_init_wf)
    as (q & rs & Hrun & Hwf & _).
  unfold sample_full_queue. rewrite Hrun. exact Hwf.
Qed.

Lemma sample_full_queue_count : count sample_full_queue = QUEUE_SIZE.
Proof. vm_compute. reflexivity. Qed.

Lemma Some_triple_inj {A B C} (a a' : A) (b b' : B) (c c' : C) :
  Some (a, b, c) = Some (a', b', c') -> a = a' /\ b = b' /\ c = c'.
Proof. intros H. injection H as -> -> ->. auto. Qed.

Lemma app_singleton_neq {A} (xs : list A) (x : A) : xs <> xs ++ [x].
Proof.
  intros H. apply (f_equal length) in H. rewrite length_app in H. simpl in H. lia.
Qed.

(** C6, as stated, fails on a full queue: with the temperature at 72 the
    pass calls [queue_enqueue] and the call is rejected, so the queue
    holds the same records after the pass as before it, not one more. *)
Lemma rule_independence_full_queue :
  queue_wf sample_full_queue /\
  temp_critical (current_sensor sample_hot_idle) = true /\
  slow_loop_iteration sample_hot_idle 5000 (slow_loop_entry 1000) sample_full_queue
    = Some ({| last_send_time := 1000;
               last_battery_sent := battery (current_sensor sample_hot_idle) |},
            sample_full_queue,
            [Print "[Logic] Battery changed while idle";
             Print "[Logic] CRITICAL TEMP ALERT!";
             EnqueueCall (build_cloud_data sample_hot_idle 5000) false;
             Print "[Logic] Warning: Queue full!"]) /\
  ~ rule_independence_unconditional.
Proof.
  assert (Hit : slow_loop_iteration sample_hot_idle 5000 (slow_loop_entry 1000)
                  sample_full_queue
    = Some ({| last_send_time := 1000;
               last_battery_sent := battery (current_sensor sample_hot_idle) |},
            sample_full_queue,
            [Print "[Logic] Battery changed while idle";
             Print "[Logic] CRITICAL TEMP ALERT!";
             EnqueueCall (build_cloud_data sample_hot_idle 5000) false;
             Print "[Logic] Warning: Queue full!"])).
  { unfold slow_loop_iteration.
    rewrite slow_loop_critical_eq. cbn [should_send cloud_data locals printed].
    replace (rule1 sample_hot_idle (slow_loop_entry 1000)) with true
      by (vm_compute; reflexivity).
    replace (rule2 sample_hot_idle 5000 (slow_loop_entry 1000)) with false
      by (vm_compute; reflexivity).
    replace (rule3 sample_hot_idle) with true by (vm_compute; reflexivity).
    cbn [orb]. rewrite queue_enqueue_full by (rewrite sample_full_queue_count; lia).
    reflexivity. }
  split; [exact sample_full_queue_wf |].
  split; [vm_compute; reflexivity |].
  split; [exact Hit |].
  intros H.
  destruct (H sample_hot_idle 5000 (slow_loop_entry 1000) sample_full_queue
              sample_full_queue_wf) as (_ & _ & H3).
  destruct (H3 ltac:(vm_compute; reflexivity)) as (l' & q' & evs & Hit' & Hc & _).
  rewrite Hit in Hit'. apply Some_triple_inj in Hit' as (_ & <- & _).
  exact (app_singleton_neq _ _ Hc).
Qed.

(** C6, amended.  A pass over a queue of the shape every reachable
    queue has makes its one [queue_enqueue] call, of the record built in
    the pass, in each of three cases, and the call appends the record
    when the queue holds fewer than [QUEUE_SIZE] records and leaves the
    queue as it is when it is full:
    - not moving, battery change above 0.5, temperature not above 70:
      rule 1 alone reports, [last_battery_sent] becomes the battery
      value sent, [last_send_time] stays;
    - moving and [now - last_send_time >= 1000]: [last_send_time]
      becomes [now];
    - temperature above 70, whatever the other two rules do: the locals
      are what rules 1 and 2 make them, and are unchanged when neither
      holds. *)
Theorem rule_independence (vs : VehicleState) (now : Z) (l : SlowLocals)
    (q : CloudQueue) :
  queue_wf q ->
  exists l' q' evs,
    slow_loop_iteration vs now l q = Some (l', q', evs) /\
    (is_moving vs = false ->
     fgt (double_of_float (battery_change (current_sensor vs) l)) d_0_5 = true ->
     temp_critical (current_sensor vs) = false ->
     evs = Print "[Logic] Battery changed while idle"
           :: EnqueueCall (build_cloud_data vs now) (count q <? QUEUE_SIZE)
           :: (if count q <? QUEUE_SIZE then []
               else [Print "[Logic] Warning: Queue full!"]) /\
     enqueue_effect q (build_cloud_data vs now) q' /\
     last_battery_sent l' = battery (current_sensor vs) /\
     last_send_time l' = last_send_time l) /\
    (is_moving vs = true -> 1000 <= now - last_send_time l ->
     enqueue_calls evs = [(build_cloud_data vs now, count q <? QUEUE_SIZE)] /\
     enqueue_effect q (build_cloud_data vs now) q' /\
     last_send_time l' = now) /\
    (temp_critical (current_sensor vs) = true ->
     enqueue_calls evs = [(build_cloud_data vs now, count q <? QUEUE_SIZE)] /\
     enqueue_effect q (build_cloud_data vs now) q' /\
     l' = {| last_send_time := if rule2 vs now l then now else last_send_time l;
             last_battery_sent := if rule1 vs l then battery (current_sensor vs)
                                  else last_battery_sent l |} /\
     (rule1 vs l = false -> rule2 vs now l = false -> l' = l)).
Proof.
  intros Hwf.
  destruct (slow_loop_iteration_eq vs now l q Hwf) as (q' & evs & Hit & _ & Hs & _).
  exists (locals (slow_loop_critical vs now l)), q', evs.
  split; [exact Hit |].
  assert (Hcalls : should_send (slow_loop_critical vs now l) = true ->
            enqueue_calls evs = [(build_cloud_data vs now, count q <? QUEUE_SIZE)] /\
            enqueue_effect q (build_cloud_data vs now) q').
  { intros S. destruct (Hs S) as [Heff ->]. split; [| exact Heff].
    rewrite enqueue_calls_app, enqueue_calls_printed. cbn.
    destruct (count q <? QUEUE_SIZE); reflexivity. }
  clear Hit. rewrite slow_loop_critical_eq in *.
  cbn [should_send locals printed last_send_time last_battery_sent] in *.
  split; [| split].
  - intros Hm Hb Ht.
    assert (R1 : rule1 vs l = true) by (unfold rule1; rewrite Hm, Hb; reflexivity).
    assert (R2 : rule2 vs now l = false) by (unfold rule2; rewrite Hm; reflexivity).
    assert (R3 : rule3 vs = false) by exact Ht.
    rewrite R1, R2, R3 in *. destruct (Hcalls eq_refl) as [_ Heff].
    destruct (Hs eq_refl) as [_ ->]. auto.
  - intros Hm Ht.
    assert (R2 : rule2 vs now l = true).
    { unfold rule2. rewrite Hm. apply Z.leb_le in Ht. rewrite Ht. reflexivity. }
    rewrite R2 in *. rewrite orb_true_r in Hcalls. destruct (Hcalls eq_refl). auto.
  - intros Ht. fold (rule3 vs) in Ht. rewrite Ht in Hcalls.
    rewrite orb_true_r in Hcalls. destruct (Hcalls eq_refl) as [H1 H2].
    split; [exact H1 |]. split; [exact H2 |]. split; [reflexivity |].
    intros -> ->. destruct l; reflexivity.
Qed.

Lemma rule_independence_witness :
  (exists l' q' evs,
     slow_loop_iteration sample_idle 5000 (slow_loop_entry 1000) cloud_queue_init
       = Some (l', q', evs) /\
     evs = [Print "[Logic] Battery changed while idle";
            EnqueueCall (build_cloud_data sample_idle 5000) true] /\
     enqueue_effect cloud_queue_init (build_cloud_data sample_idle 5000) q' /\
     last_battery_sent l' = battery (current_sensor sample_idle) /\
     last_send_time l' = 1000) /\
  (exists l' q' evs,
     slow_loop_iteration sample_moving 5000 (slow_loop_entry 1000) cloud_queue_init
       = Some (l', q', evs) /\
     enqueue_calls evs = [(build_cloud_data sample_moving 5000, true)] /\
     enqueue_effect cloud_queue_init (build_cloud_data sample_moving 5000) q' /\
     last_send_time l' = 5000) /\
  (exists l' q' evs,
     slow_loop_iteration sample_hot_idle 5000 (slow_loop_entry 1000)
       cloud_queue_init = Some (l', q', evs) /\
     enqueue_calls evs = [(build_cloud_data sample_hot_idle 5000, true)] /\
     enqueue_effect cloud_queue_init (build_cloud_data sample_hot_idle 5000) q').
Proof.
  split; [| split].
  - destruct (rule_independence sample_idle 5000 (slow_loop_entry 1000)
                cloud_queue_init cloud_queue_init_wf)
      as (l' & q' & evs & Hit & H1 & _ & _).
    exists l', q', evs. split; [exact Hit |].
    apply H1; vm_compute; reflexivity.
  - destruct (rule_independence sample_moving 5000 (slow_loop_entry 1000)
                cloud_queue_init cloud_queue_init_wf)
      as (l' & q' & evs & Hit & _ & H2 & _).
    exists l', q', evs. split; [exact Hit |].
    apply H2; [reflexivity | vm_compute; discriminate].
  - destruct (rule_independence sample_hot_idle 5000 (slow_loop_entry 1000)
                cloud_queue_init cloud_queue_init_wf)
      as (l' & q' & evs & Hit & _ & _ & H3).
    exists l', q', evs. split; [exact Hit |].
    destruct (H3 ltac:(vm_compute; reflexivity)) as (Hc & He & _).
    split; assumption.
Defined.

(** C7. A pass that wants to send and meets a full queue: the record is
    not stored, the pass ends with the rejected call and the warning,
    and it is not undefined; the same pass over a queue with room stores
    the record; the two passes end with the same locals
    ([last_send_time], [last_battery_sent]), so the critical section of
    the next pass computes the same after either. *)
Theorem full_queue_pass (vs : VehicleState) (now : Z) (l : SlowLocals)
    (q_full q_room : CloudQueue) :
  count q_full = QUEUE_SIZE ->
  should_send (slow_loop_critical vs now l) = true ->
  queue_wf q_room -> count q_room < QUEUE_SIZE ->
  exists l_full evs_full l_room q' evs_room,
    slow_loop_iteration vs now l q_full = Some (l_full, q_full, evs_full) /\
    evs_full = printed (slow_loop_critical vs now l)
               ++ [EnqueueCall (build_cloud_data vs now) false;
                   Print "[Logic] Warning: Queue full!"] /\
    slow_loop_iteration vs now l q_room = Some (l_room, q', evs_room) /\
    contents q' = contents q_room ++ [build_cloud_data vs now] /\
    l_full = l_room /\
    forall vs2 now2,
      slow_loop_critical vs2 now2 l_full = slow_loop_critical vs2 now2 l_room.
Proof.
  intros Hfull S Hwf Hroom.
  destruct (slow_loop_iteration_eq vs now l q_room Hwf) as (q' & evs & Hit & _ & Hs & _).
  exists (locals (slow_loop_critical vs now l)),
         (printed (slow_loop_critical vs now l)
          ++ [EnqueueCall (build_cloud_data vs now) false;
              Print "[Logic] Warning: Queue full!"]),
         (locals (slow_loop_critical vs now l)), q', evs.
  split; [| split; [reflexivity | split; [exact Hit | split; [| split]]]].
  - unfold slow_loop_iteration. rewrite S.
    rewrite queue_enqueue_full by lia.
    rewrite slow_loop_critical_eq. reflexivity.
  - destruct (Hs S) as [[Heff _] _]. apply Heff. exact Hroom.
  - reflexivity.
  - reflexivity.
Qed.

Lemma full_queue_pass_witness :
  exists l_full evs_full l_room q' evs_room,
    slow_loop_iteration sample_hot_idle 5000 (slow_loop_entry 1000) sample_full_queue
      = Some (l_full, sample_full_queue, evs_full) /\
    evs_full = printed (slow_loop_critical sample_hot_idle 5000 (slow_loop_entry 1000))
               ++ [EnqueueCall (build_cloud_data sample_hot_idle 5000) false;
                   Print "[Logic] Warning: Queue full!"] /\
    slow_loop_iteration sample_hot_idle 5000 (slow_loop_entry 1000) cloud_queue_init
      = Some (l_room, q', evs_room) /\
    contents q' = contents cloud_queue_init ++ [build_cloud_data sample_hot_idle 5000] /\
    l_full = l_room /\
    forall vs2 now2,
      slow_loop_critical vs2 now2 l_full = slow_loop_critical vs2 now2 l_room.
Proof.
  apply (full_queue_pass sample_hot_idle 5000 (slow_loop_entry 1000)
           sample_full_queue cloud_queue_init).
  - vm_compute. reflexivity.
  - vm_compute. reflexivity.
  - exact cloud_queue_init_wf.
  - vm_compute. reflexivity.
Defined.

(** ** The cloud loop *)

Lemma contents_cons_count q d rest :
  queue_wf q -> contents q = d :: rest -> 0 < count q.
Proof.
  intros (_ & _ & _ & Hc & _) H.
  destruct (Z.eq_dec (count q) 0) as [Hz | Hnz]; [| lia].
  unfold contents in H. rewrite Hz in H. discriminate.
Qed.

Lemma queue_dequeue_cons q d rest :
  queue_wf q -> contents q = d :: rest ->
  exists q', queue_dequeue q = Some (q', Some d) /\ queue_wf q' /\
             contents q' = rest /\ count q' < QUEUE_SIZE.
Proof.
  intros Hwf Hc.
  pose proof (contents_cons_count q d rest Hwf Hc) as Hpos.
  destruct (queue_dequeue_some q Hwf Hpos) as (q' & d' & Hd & Hwf' & Hc' & Hn).
  rewrite Hc in Hc'. injection Hc' as <- ->.
  exists q'. split; [exact Hd |]. split; [exact Hwf' |]. split; [reflexivity |].
  destruct Hwf as (_ & _ & _ & ? & _). lia.
Qed.

Lemma cloud_sender_sent_failure_room d q :
  queue_wf q -> count q < QUEUE_SIZE ->
  exists q',
    cloud_sender_sent FAILURE d q
      = Some (q', [SendCall d FAILURE; Print "[Cloud] Retrying...";
                   EnqueueCall d true]) /\
    queue_wf q' /\ contents q' = contents q ++ [d].
Proof.
  intros Hwf Hroom.
  destruct (queue_enqueue_room q d Hwf Hroom) as (q' & He & Hwf' & Hc & _).
  exists q'. unfold cloud_sender_sent. rewrite He. cbn. auto.
Qed.

(** C8. Retry.  After a record [d] was dequeued and [send_to_cloud]
    returned: on [SUCCESS] the queue is left alone and [d] is gone; on
    [FAILURE] there is one [queue_enqueue] call, of [d], which puts [d]
    behind the records then in the queue, or, if the queue is full at
    that time, leaves the queue alone and prints nothing more.  For a
    whole pass over a queue whose oldest record is [d]: on [FAILURE] the
    queue holds the other records followed by [d], on [SUCCESS] the other
    records.  And with [d] the only record and a transport that fails
    and then succeeds, two passes send [d] twice, enqueue it once between
    the two sends, and leave the queue empty. *)
Theorem cloud_sender_retry (d : CloudData) (q : CloudQueue) :
  cloud_sender_sent SUCCESS d q = Some (q, [SendCall d SUCCESS]) /\
  (count q = QUEUE_SIZE ->
   cloud_sender_sent FAILURE d q
     = Some (q, [SendCall d FAILURE; Print "[Cloud] Retrying...";
                 EnqueueCall d false])) /\
  (queue_wf q -> count q < QUEUE_SIZE ->
   exists q',
     cloud_sender_sent FAILURE d q
       = Some (q', [SendCall d FAILURE; Print "[Cloud] Retrying...";
                    EnqueueCall d true]) /\
     contents q' = contents q ++ [d]) /\
  (queue_wf q -> forall rest, contents q = d :: rest ->
   (exists q1, cloud_sender_iteration SUCCESS q = Some (q1, [SendCall d SUCCESS]) /\
               contents q1 = rest) /\
   (exists q1, cloud_sender_iteration FAILURE q
                 = Some (q1, [SendCall d FAILURE; Print "[Cloud] Retrying...";
                              EnqueueCall d true]) /\
               contents q1 = rest ++ [d])) /\
  (queue_wf q -> contents q = [d] ->
   exists q2,
     cloud_sender_run [FAILURE; SUCCESS] q
       = Some (q2, [SendCall d FAILURE; Print "[Cloud] Retrying...";
                    EnqueueCall d true; SendCall d SUCCESS]) /\
     contents q2 = []).
Proof.
  split; [reflexivity |]. split; [| split; [| split]].
  - intros Hfull. unfold cloud_sender_sent.
    rewrite queue_enqueue_full by lia. reflexivity.
  - intros Hwf Hroom.
    destruct (cloud_sender_sent_failure_room d q Hwf Hroom) as (q' & H & _ & Hc).
    exists q'. auto.
  - intros Hwf rest Hc.
    destruct (queue_dequeue_cons q d rest Hwf Hc) as (q1 & Hd & Hwf1 & Hc1 & Hn1).
    split.
    + exists q1. unfold cloud_sender_iteration. rewrite Hd. cbn. auto.
    + destruct (cloud_sender_sent_failure_room d q1 Hwf1 Hn1) as (q2 & H & _ & Hc2).
      exists q2. unfold cloud_sender_iteration. rewrite Hd. cbn [mbind option_bind].
      rewrite H, Hc2, Hc1. auto.
  - intros Hwf Hc.
    destruct (queue_dequeue_cons q d [] Hwf Hc) as (q1 & Hd & Hwf1 & Hc1 & Hn1).
    destruct (cloud_sender_sent_failure_room d q1 Hwf1 Hn1) as (q2 & H & Hwf2 & Hc2).
    rewrite Hc1 in Hc2. simpl in Hc2.
    destruct (queue_dequeue_cons q2 d [] Hwf2 Hc2) as (q3 & Hd3 & _ & Hc3 & _).
    exists q3. split; [| exact Hc3].
    unfold cloud_sender_run, cloud_sender_iteration.
    rewrite Hd. cbn [mbind option_bind]. rewrite H. cbn [mbind option_bind].
    rewrite Hd3. reflexivity.
Qed.

Lemma sample_one_queue_wf :
  queue_wf sample_one_queue /\ contents sample_one_queue = [sample_record 1].
Proof.
  destruct (queue_enqueue_room cloud_queue_init (sample_record 1)
              cloud_queue_init_wf ltac:(vm_compute; reflexivity))
    as (q' & He & Hwf & Hc & _).
  unfold sample_one_queue. rewrite He. split; [exact Hwf |].
  rewrite Hc, contents_init. reflexivity.
Qed.

Lemma cloud_sender_retry_witness :
  exists q2,
    cloud_sender_run [FAILURE; SUCCESS] sample_one_queue
      = Some (q2, [SendCall (sample_record 1) FAILURE; Print "[Cloud] Retrying...";
                   EnqueueCall (sample_record 1) true;
                   SendCall (sample_record 1) SUCCESS]) /\
    contents q2 = [].
Proof.
  apply (cloud_sender_retry (sample_record 1) sample_one_queue).
  - exact (proj1 sample_one_queue_wf).
  - exact (proj2 sample_one_queue_wf).
Defined.

(** ** The three threads together *)

Lemma sensor_reads_app evs1 evs2 :
  sensor_reads (evs1 ++ evs2) = sensor_reads evs1 ++ sensor_reads evs2.
Proof.
  induction evs1 as [| [r | line | d ok | d st] evs1 IH]; simpl; congruence.
Qed.

Lemma fast_partial_free pc s base :
  fast_holds pc = false -> fast_partial pc s base = base.
Proof. destruct pc; simpl; congruence. Qed.

Lemma machine_init_ok start : machine_ok (machine_init start).
Proof.
  exists [], []. unfold machine_init, slow_view.
  cbn [vehicle_state state_mutex cloud_queue fast slow cloud trace fast_pc
       fast_sensor slow_pc fast_partial fast_pending fast_holds slow_holds
       slow_rank sensor_reads app andb Nat.leb].
  repeat split; try reflexivity; try (intros; lia); try discriminate.
  all: apply cloud_queue_init_wf.
Qed.

Local Arguments fast_loop_run : simpl never.
Local Arguments queue_wf : simpl never.
Local Arguments queue_enqueue : simpl never.
Local Arguments queue_dequeue : simpl never.

Ltac split_ok :=
  split; [| split; [| split; [| split; [| split; [| split; [| split]]]]]].

Ltac open_machine_ok H :=
  destruct H as (rs & srs & Hvs & Htr & Hmx & Hex & Hpre & Hsnap & Hview & Hq).

(** A step of the sensor thread. *)
Lemma fast_step_ok i m :
  machine_ok m -> exists m', fast_step i m = Some m' /\ machine_ok m'.
Proof.
  intros H. open_machine_ok H.
  destruct m as [vs mx q [pc sensor] s c tr]. unfold fast_step.
  cbn [vehicle_state state_mutex cloud_queue fast slow cloud trace fast_pc
       fast_sensor] in *.
  destruct pc; cbn [fast_partial fast_pending fast_holds andb] in *.
  - (* F_read_sensor *)
    eexists. split; [reflexivity |]. exists rs, srs.
    cbn. rewrite sensor_reads_app, Htr, app_nil_r. cbn.
    split_ok; auto.
  - (* F_lock *)
    unfold mutex_lock. cbn [state_mutex].
    destruct (slow_holds (slow_pc s)) eqn:B; subst mx.
    + eexists. split; [reflexivity |]. exists rs, srs. cbn. rewrite B.
      split_ok; auto.
    + eexists. split; [reflexivity |]. exists rs, srs. cbn. rewrite B.
      split_ok; auto; try discriminate.
  - (* F_current_sensor *)
    assert (B : slow_holds (slow_pc s) = false) by exact Hex.
    eexists. split; [reflexivity |]. exists rs, srs. cbn. rewrite B, Hvs.
    split_ok; auto; try discriminate.
  - (* F_total_distance *)
    assert (B : slow_holds (slow_pc s) = false) by exact Hex.
    eexists. split; [reflexivity |]. exists rs, srs. cbn. rewrite B, Hvs.
    split_ok; auto; try discriminate.
  - (* F_top_speed *)
    assert (B : slow_holds (slow_pc s) = false) by exact Hex.
    eexists. split; [reflexivity |]. exists rs, srs. cbn. rewrite B, Hvs.
    split_ok; auto; try discriminate.
  - (* F_is_moving *)
    assert (B : slow_holds (slow_pc s) = false) by exact Hex.
    eexists. split; [reflexivity |]. exists rs, srs. cbn. rewrite B, Hvs.
    split_ok; auto; try discriminate.
  - (* F_unlock *)
    assert (B : slow_holds (slow_pc s) = false) by exact Hex.
    unfold mutex_unlock. cbn [state_mutex]. subst mx. cbn [eqb_thread].
    eexists. split; [reflexivity |]. exists (rs ++ [sensor]), srs.
    cbn. rewrite B, Hvs, Htr, app_nil_r, fast_loop_run_app.
    split_ok; auto; try discriminate.
    apply prefix_app_r. exact Hpre.
  - (* F_sleep *)
    eexists. split; [reflexivity |]. exists rs, srs. cbn.
    split_ok; auto.
Qed.

Ltac view_tac H :=
  unfold slow_view in *;
  cbn [slow_pc slow_rank s_current s_is_moving s_cloud_data sensor distance
       cd_top_speed] in *;
  destruct H as (V1 & V2 & V3 & V4 & V5);
  repeat split; intros; try lia; try reflexivity;
  first [apply V1; lia | apply V2; lia | apply V3; lia | apply V4; lia
        | apply V5; lia | congruence].

(** A step of the logic thread that stays between lock and unlock. *)
Ltac slow_inside rs srs Hview :=
  eexists; split; [reflexivity |]; exists rs, srs;
  cbn [vehicle_state state_mutex cloud_queue fast slow cloud trace
       set_slow emit slow_goto slow_pc slow_holds slow_rank Nat.leb andb] in *;
  rewrite ?sensor_reads_app, ?app_nil_r;
  cbn [sensor_reads app];
  rewrite ?app_nil_r;
  split_ok; auto; view_tac Hview.

Lemma slow_step_ok i m :
  machine_ok m -> exists m', slow_step i m = Some m' /\ machine_ok m'.
Proof.
  intros H. open_machine_ok H.
  destruct m as [vs mx q f [pc cur mov bc tc cd ss loc] c tr]. unfold slow_step.
  cbn [vehicle_state state_mutex cloud_queue fast slow cloud trace slow_pc
       s_current s_is_moving s_battery_change s_temp_critical s_cloud_data
       s_should_send s_locals] in *.
  destruct pc; cbn [slow_holds slow_rank Nat.leb andb] in *;
    try pose proof (Hsnap eq_refl) as Hs.
  - (* S_lock *)
    unfold mutex_lock. cbn [state_mutex].
    destruct (fast_holds (fast_pc f)) eqn:FH; subst mx.
    + eexists. split; [reflexivity |]. exists rs, srs.
      cbn [vehicle_state state_mutex cloud_queue fast slow cloud trace slow_pc
           slow_holds slow_rank Nat.leb andb].
      rewrite FH. split_ok; auto.
    + eexists. split; [reflexivity |]. exists rs, rs.
      cbn [vehicle_state state_mutex cloud_queue fast slow cloud trace
           set_slow set_state_mutex slow_goto slow_pc slow_holds slow_rank
           Nat.leb andb].
      rewrite FH. rewrite fast_partial_free in Hvs by exact FH.
      split_ok; auto.
      * rewrite fast_partial_free by exact FH. exact Hvs.
      * unfold slow_view. cbn [slow_pc slow_rank]. repeat split; intros; lia.
  - (* S_current *) slow_inside rs srs Hview.
  - (* S_is_moving *) slow_inside rs srs Hview.
  - (* S_battery_change *) slow_inside rs srs Hview.
  - (* S_temp_critical *) slow_inside rs srs Hview.
  - (* S_sensor *) slow_inside rs srs Hview.
  - (* S_distance *) slow_inside rs srs Hview.
  - (* S_top_speed *) slow_inside rs srs Hview.
  - (* S_timestamp *) slow_inside rs srs Hview.
  - (* S_should_send *) slow_inside rs srs Hview.
  - (* S_rule1 *)
    destruct (negb mov && fgt (double_of_float bc) d_0_5);
      slow_inside rs srs Hview.
  - (* S_rule2 *)
    destruct (mov && (1000 <=? timestamp cd - last_send_time loc));
      slow_inside rs srs Hview.
  - (* S_rule3 *)
    destruct tc; slow_inside rs srs Hview.
  - (* S_unlock *)
    assert (FH : fast_holds (fast_pc f) = false).
    { rewrite andb_true_r in Hex. exact Hex. }
    unfold mutex_unlock. cbn [state_mutex]. rewrite FH in Hmx. subst mx.
    cbn [eqb_thread].
    eexists. split; [reflexivity |]. exists rs, srs.
    cbn [vehicle_state state_mutex cloud_queue fast slow cloud trace
         set_slow set_state_mutex slow_goto slow_pc slow_holds slow_rank
         Nat.leb andb].
    rewrite FH. split_ok; auto; try discriminate. view_tac Hview.
  - (* S_enqueue *)
    destruct ss.
    + destruct (queue_enqueue_total q cd Hq) as (q' & He & Hq' & _).
      rewrite He. cbn [mbind option_bind].
      eexists. split; [reflexivity |]. exists rs, srs.
      cbn [vehicle_state state_mutex cloud_queue fast slow cloud trace
           set_slow set_cloud_queue emit slow_goto slow_pc slow_holds
           slow_rank Nat.leb andb] in *.
      rewrite sensor_reads_app.
      replace (sensor_reads (EnqueueCall cd (count q <? QUEUE_SIZE) ::
                 (if count q <? QUEUE_SIZE then []
                  else [Print "[Logic] Warning: Queue full!"]))) with (@nil SensorData)
        by (destruct (count q <? QUEUE_SIZE); reflexivity).
      rewrite app_nil_r.
      split_ok; auto. view_tac Hview.
    + eexists. split; [reflexivity |]. exists rs, srs.
      cbn [vehicle_state state_mutex cloud_queue fast slow cloud trace
           set_slow slow_goto slow_pc slow_holds slow_rank Nat.leb andb] in *.
      split_ok; auto. view_tac Hview.
  - (* S_sleep *)
    eexists. split; [reflexivity |]. exists rs, srs.
    cbn [vehicle_state state_mutex cloud_queue fast slow cloud trace
         set_slow slow_goto slow_pc slow_holds slow_rank Nat.leb andb] in *.
    split_ok; auto.
    unfold slow_view. cbn [slow_pc slow_rank]. repeat split; intros; lia.
Qed.

Lemma queue_dequeue_total q :
  queue_wf q -> exists q' r, queue_dequeue q = Some (q', r) /\ queue_wf q'.
Proof.
  intros Hwf. destruct (Z.eq_dec (count q) 0) as [Hz | Hnz].
  - exists q, None. rewrite (queue_dequeue_empty q Hz). auto.
  - assert (Hpos : 0 < count q) by (destruct Hwf as (_ & _ & _ & ? & _); lia).
    destruct (queue_dequeue_some q Hwf Hpos) as (q' & d & Hd & Hwf' & _).
    exists q', (Some d). auto.
Qed.

Ltac cloud_case rs srs :=
  eexists; split; [reflexivity |]; exists rs, srs;
  cbn [vehicle_state state_mutex cloud_queue fast slow cloud trace
       set_cloud set_cloud_queue emit cloud_goto] in *;
  rewrite ?sensor_reads_app; cbn [sensor_reads app]; rewrite ?app_nil_r;
  split_ok; auto.

(** A step of the cloud thread. *)
Lemma cloud_step_ok i m :
  machine_ok m -> exists m', cloud_step i m = Some m' /\ machine_ok m'.
Proof.
  intros H. open_machine_ok H.
  destruct m as [vs mx q f s [pc d] tr]. unfold cloud_step.
  cbn [vehicle_state state_mutex cloud_queue fast slow cloud trace cloud_pc
       c_data] in *.
  destruct pc.
  - destruct (queue_dequeue_total q Hq) as (q' & r & Hd & Hq').
    rewrite Hd. cbn [mbind option_bind]. destruct r as [d' |]; cloud_case rs srs.
  - destruct (in_status i); cloud_case rs srs.
  - destruct (queue_enqueue_total q d Hq) as (q' & He & Hq' & _).
    rewrite He. cbn [mbind option_bind]. cloud_case rs srs.
  - cloud_case rs srs.
Qed.

Lemma step_ok t i m :
  machine_ok m -> exists m', step t i m = Some m' /\ machine_ok m'.
Proof.
  destruct t; [apply fast_step_ok | apply slow_step_ok | apply cloud_step_ok].
Qed.

Lemma run_ok schedule : forall m,
  machine_ok m -> exists m', run schedule m = Some m' /\ machine_ok m'.
Proof.
  induction schedule as [| [t i] rest IH]; intros m Hok.
  - exists m. auto.
  - destruct (step_ok t i m Hok) as (m1 & Hs & Hok1).
    destruct (IH m1 Hok1) as (m2 & Hr & Hok2).
    exists m2. cbn [run]. rewrite Hs. cbn [mbind option_bind]. auto.
Qed.

(** C9. Snapshot consistency.  Under every schedule of the three
    threads no step is undefined; the sensor thread and the logic thread
    are never both between lock and unlock; and once the logic thread
    has read [current_sensor], [is_moving], [total_distance] and
    [top_speed] in a pass, the four values it holds are the four fields
    of one state: the state [vehicle_state] had after the sensor thread
    stored, completely, the first [k] readings it took, for some [k]. *)
Theorem snapshot_consistent (start : Z) (schedule : list (Thread * Input))
    (m : Machine) :
  (exists m', run schedule (machine_init start) = Some m') /\
  (run schedule (machine_init start) = Some m ->
   fast_holds (fast_pc (fast m)) && slow_holds (slow_pc (slow m)) = false /\
   (slow_has_read (slow_pc (slow m)) = true ->
    exists k,
      let snap := fast_loop_run (take k (sensor_reads (trace m)))
                    vehicle_state_init in
      s_current (slow m) = current_sensor snap /\
      s_is_moving (slow m) = is_moving snap /\
      sensor (s_cloud_data (slow m)) = current_sensor snap /\
      distance (s_cloud_data (slow m)) = total_distance snap /\
      cd_top_speed (s_cloud_data (slow m)) = top_speed snap)).
Proof.
  destruct (run_ok schedule _ (machine_init_ok start)) as (m' & Hrun & Hok).
  split; [exists m'; exact Hrun |].
  intros Hm. rewrite Hrun in Hm. injection Hm as <-.
  open_machine_ok Hok. split; [exact Hex |].
  intros Hread. exists (length srs). cbv zeta.
  destruct Hpre as [rest ->]. rewrite Htr, <- app_assoc, take_app_length.
  unfold slow_has_read in Hread. apply Nat.leb_le in Hread.
  destruct Hview as (V1 & V2 & V3 & V4 & V5).
  repeat split; [apply V1 | apply V2 | apply V3 | apply V4 | apply V5]; lia.
Qed.

Lemma snapshot_consistent_witness :
  exists k,
    let snap := fast_loop_run (take k (sensor_reads (trace sample_machine)))
                  vehicle_state_init in
    s_current (slow sample_machine) = current_sensor snap /\
    s_is_moving (slow sample_machine) = is_moving snap /\
    sensor (s_cloud_data (slow sample_machine)) = current_sensor snap /\
    distance (s_cloud_data (slow sample_machine)) = total_distance snap /\
    cd_top_speed (s_cloud_data (slow sample_machine)) = top_speed snap.
Proof.
  apply (snapshot_consistent 1000 sample_schedule sample_machine).
  - vm_compute. reflexivity.
  - vm_compute. reflexivity.
Defined.

(** *** The loop bodies as passes of the machine *)

(** Eight steps of the sensor thread with the mutex free are one
    [fast_loop_update]. *)
Lemma fast_pass i m :
  fast_pc (fast m) = F_read_sensor -> state_mutex m = None ->
  run (replicate 8 (Fast, i)) m
    = Some {| vehicle_state := fast_loop_update (in_reading i) (vehicle_state m);
              state_mutex := None; cloud_queue := cloud_queue m;
              fast := {| fast_pc := F_read_sensor; fast_sensor := in_reading i |};
              slow := slow m; cloud := cloud m;
              trace := trace m ++ [SensorCall (in_reading i)] |}.
Proof.
  destruct m as [vs mx q [pc sensor] s c tr]. cbn. intros -> ->. reflexivity.
Qed.

Lemma run_cons t i rest m :
  run ((t, i) :: rest) m = step t i m ≫= run rest.
Proof. reflexivity. Qed.

Ltac slow_cbn :=
  cbn [step slow_step mutex_lock mutex_unlock eqb_thread
       vehicle_state state_mutex cloud_queue fast slow cloud trace slow_pc];
  cbv [slow_goto set_slow set_state_mutex set_cloud_queue emit];
  cbn [vehicle_state state_mutex cloud_queue fast slow cloud trace slow_pc
       s_current s_is_moving s_battery_change s_temp_critical s_cloud_data
       s_should_send s_locals sensor distance cd_top_speed timestamp
       last_send_time last_battery_sent].

Ltac slow_tick := rewrite run_cons; slow_cbn; cbn [mbind option_bind].

(** Sixteen steps of the logic thread, alone, are one
    [slow_loop_iteration]. *)
Lemma slow_pass i m :
  slow_pc (slow m) = S_lock -> state_mutex m = None ->
  run (replicate 16 (Slow, i)) m
    = '(l', q', evs) ← slow_loop_iteration (vehicle_state m) (in_now i)
                          (s_locals (slow m)) (cloud_queue m);
      Some {| vehicle_state := vehicle_state m; state_mutex := None;
              cloud_queue := q'; fast := fast m;
              slow := {| slow_pc := S_lock;
                         s_current := current_sensor (vehicle_state m);
                         s_is_moving := is_moving (vehicle_state m);
                         s_battery_change :=
                           battery_change (current_sensor (vehicle_state m))
                             (s_locals (slow m));
                         s_temp_critical :=
                           temp_critical (current_sensor (vehicle_state m));
                         s_cloud_data :=
                           build_cloud_data (vehicle_state m) (in_now i);
                         s_should_send :=
                           should_send
                             (slow_loop_critical (vehicle_state m) (in_now i)
                                (s_locals (slow m)));
                         s_locals := l' |};
              cloud := cloud m; trace := trace m ++ evs |}.
Proof.
  destruct m as [vs mx q f [pc cur mov bc tc cd ss loc] c tr].
  cbn [slow slow_pc state_mutex vehicle_state s_locals cloud_queue fast cloud
       trace]. intros -> ->.
  unfold slow_loop_iteration. rewrite slow_loop_critical_eq.
  cbn [should_send cloud_data locals printed].
  unfold rule1, rule2, rule3, build_cloud_data.
  cbn [replicate].
  do 10 slow_tick.
  rewrite run_cons. slow_cbn.
  destruct (negb (is_moving vs)
            && fgt (double_of_float (battery_change (current_sensor vs) loc)) d_0_5);
    cbn [mbind option_bind]; rewrite run_cons; slow_cbn;
    destruct (is_moving vs && (1000 <=? in_now i - last_send_time loc));
    cbn [mbind option_bind]; rewrite run_cons; slow_cbn;
    destruct (temp_critical (current_sensor vs));
    cbn [mbind option_bind]; slow_tick; rewrite run_cons; slow_cbn;
    cbn [orb];
    try (destruct (queue_enqueue q
                     {| sensor := current_sensor vs; distance := total_distance vs;
                        cd_top_speed := top_speed vs; timestamp := in_now i |})
           as [[q' ok] |]; cbn [mbind option_bind]; [| reflexivity]);
    cbn [mbind option_bind]; slow_cbn; slow_tick; cbn [run];
    rewrite <- ?app_assoc; cbn [app]; rewrite ?app_nil_r;
    try reflexivity; destruct loc; reflexivity.
Qed.

Ltac cloud_cbn :=
  cbn [step cloud_step vehicle_state state_mutex cloud_queue fast slow cloud
       trace cloud_pc c_data];
  cbv [cloud_goto set_cloud set_cloud_queue emit];
  cbn [vehicle_state state_mutex cloud_queue fast slow cloud trace cloud_pc
       c_data].

(** The steps of the cloud thread over one record, with no other thread
    in between, are the dequeue followed by [cloud_sender_sent]: two
    steps when the send succeeds, three when it fails. *)
Lemma cloud_pass i m q1 d :
  cloud_pc (cloud m) = C_dequeue ->
  queue_dequeue (cloud_queue m) = Some (q1, Some d) ->
  run (replicate (match in_status i with SUCCESS => 2 | FAILURE => 3 end)
         (Cloud, i)) m
    = '(q', evs) ← cloud_sender_sent (in_status i) d q1;
      Some {| vehicle_state := vehicle_state m; state_mutex := state_mutex m;
              cloud_queue := q'; fast := fast m; slow := slow m;
              cloud := {| cloud_pc := C_dequeue; c_data := d |};
              trace := trace m ++ evs |}.
Proof.
  destruct m as [vs mx q f s [pc d0] tr].
  cbn [cloud cloud_pc cloud_queue vehicle_state state_mutex fast slow trace c_data].
  intros -> Hd. unfold cloud_sender_sent.
  destruct (in_status i) eqn:St; cbn [replicate];
    rewrite run_cons; cloud_cbn; rewrite Hd; cbn [mbind option_bind];
    rewrite run_cons; cloud_cbn; rewrite St; cbn [mbind option_bind]; cloud_cbn.
  - cbn [run]. reflexivity.
  - rewrite run_cons; cloud_cbn.
    destruct (queue_enqueue q1 d) as [[q2 ok] |]; cbn [mbind option_bind];
      [| reflexivity].
    cloud_cbn. cbn [run]. rewrite <- app_assoc. reflexivity.
Qed.

(** On an empty queue the cloud thread sleeps and comes back. *)
Lemma cloud_pass_empty i m q1 :
  cloud_pc (cloud m) = C_dequeue ->
  queue_dequeue (cloud_queue m) = Some (q1, None) ->
  run (replicate 2 (Cloud, i)) m
    = Some {| vehicle_state := vehicle_state m; state_mutex := state_mutex m;
              cloud_queue := q1; fast := fast m; slow := slow m;
              cloud := cloud m; trace := trace m |}.
Proof.
  destruct m as [vs mx q f s [pc d0] tr].
  cbn [cloud cloud_pc cloud_queue vehicle_state state_mutex fast slow trace c_data].
  intros -> Hd.
  cbn [replicate]. rewrite run_cons. cloud_cbn. rewrite Hd.
  cbn [mbind option_bind]. cloud_cbn. rewrite run_cons. cloud_cbn.
  cbn [mbind option_bind run]. reflexivity.
Qed.

(** The retry of the cloud thread can meet a full queue: in the
    overloaded run the record whose send failed is offered to the queue
    once, rejected, and is in the queue no more. *)
Example retry_meets_full_queue :
  run sample_overload (machine_init 0) = Some sample_overloaded /\
  last (trace sample_overloaded) = Some (EnqueueCall sample_first_record false) /\
  count (cloud_queue sample_overloaded) = QUEUE_SIZE /\
  forallb (fun d => negb (timestamp d =? 1))
    (contents (cloud_queue sample_overloaded)) = true /\
  cloud_pc (cloud sample_overloaded) = C_dequeue.
Proof. vm_compute. repeat split. Qed.

(** ** The field [last_battery] *)

Lemma poke_last_battery_id m :
  poke_last_battery (last_battery (vehicle_state m)) m = m.
Proof. destruct m as [[td ts lb mv cs] mx q f s c tr]. reflexivity. Qed.

Ltac frame_cbn :=
  cbv [poke_last_battery step fast_step slow_step cloud_step mutex_lock
       mutex_unlock set_vehicle_state set_state_mutex set_cloud_queue set_fast
       set_slow set_cloud emit fast_goto slow_goto cloud_goto
       store_last_battery store_current_sensor store_total_distance
       store_top_speed store_is_moving update_distance update_top_speed
       update_is_moving];
  cbn [vehicle_state state_mutex cloud_queue fast slow cloud trace fast_pc
       fast_sensor slow_pc s_current s_is_moving s_battery_change
       s_temp_critical s_cloud_data s_should_send s_locals cloud_pc c_data
       total_distance top_speed last_battery is_moving current_sensor
       fmap option_fmap option_map mbind option_bind].

Ltac frame_cases :=
  repeat match goal with
         | |- context [match ?c with _ => _ end] =>
             is_var c; destruct c
         | |- context [if ?c then _ else _] => destruct c
         | |- context [queue_enqueue ?q ?d] =>
             destruct (queue_enqueue q d) as [[? ?] |]
         | |- context [queue_dequeue ?q] =>
             destruct (queue_dequeue q) as [[? [? |]] |]
         end;
  cbn [fmap option_fmap option_map mbind option_bind eqb_thread].

(** No step reads or writes [vehicle_state.last_battery]: a step from
    the machine with another value in the field does the same, with
    that value still in the field. *)
Lemma step_poke t i m x :
  step t i (poke_last_battery x m) = poke_last_battery x <$> step t i m.
Proof.
  destruct m as [[td ts lb mv cs] mx q [fpc sensor]
                   [spc cur mov bc tc cd ss loc] [cpc d] tr].
  destruct t.
  - destruct fpc; frame_cbn; frame_cases; frame_cbn; try reflexivity.
  - destruct spc; frame_cbn; frame_cases; frame_cbn; try reflexivity.
  - destruct cpc; frame_cbn; frame_cases; frame_cbn; try reflexivity.
Qed.

Lemma step_last_battery t i m m' :
  step t i m = Some m' ->
  last_battery (vehicle_state m') = last_battery (vehicle_state m).
Proof.
  intros H.
  pose proof (step_poke t i m (last_battery (vehicle_state m))) as P.
  rewrite poke_last_battery_id, H in P. cbn in P. injection P as P.
  rewrite P at 1. reflexivity.
Qed.

Lemma run_last_battery schedule : forall m m',
  run schedule m = Some m' ->
  last_battery (vehicle_state m') = last_battery (vehicle_state m).
Proof.
  induction schedule as [| [t i] rest IH]; intros m m' H.
  - injection H as <-. reflexivity.
  - rewrite run_cons in H. destruct (step t i m) as [m1 |] eqn:S; [| discriminate].
    cbn [mbind option_bind] in H.
    rewrite (IH _ _ H). exact (step_last_battery _ _ _ _ S).
Qed.

Lemma slow_loop_critical_last_battery vs x now l :
  slow_loop_critical (store_last_battery vs x) now l = slow_loop_critical vs now l.
Proof. reflexivity. Qed.

(** C10. The field [last_battery] of [vehicle_state].  One pass of the
    sensor loop leaves it as it was; so does every step of every thread;
    no step reads it, since from a machine with any other value [x] in
    the field each step does the same and leaves [x] there, and the
    critical section of the logic loop computes the same from a state
    with [x] in the field; so under every schedule the field keeps the
    zero it was initialised with.  The battery value last sent is kept
    in the local [last_battery_sent], which rule 1 sets. *)
Theorem last_battery_frame (start : Z) (schedule : list (Thread * Input))
    (t : Thread) (i : Input) (m m' : Machine) (x : float)
    (vs : VehicleState) (reading : SensorData) (now : Z) (l : SlowLocals) :
  last_battery (fast_loop_update reading vs) = last_battery vs /\
  (step t i m = Some m' ->
   last_battery (vehicle_state m') = last_battery (vehicle_state m)) /\
  step t i (poke_last_battery x m) = poke_last_battery x <$> step t i m /\
  slow_loop_critical (store_last_battery vs x) now l = slow_loop_critical vs now l /\
  (run schedule (machine_init start) = Some m' ->
   last_battery (vehicle_state m') = float_zero) /\
  (rule1 vs l = true ->
   last_battery_sent (locals (slow_loop_critical vs now l))
     = battery (current_sensor vs)).
Proof.
  split; [| split; [| split; [| split; [| split]]]].
  - apply (fast_loop_update_fields vs reading).
  - apply step_last_battery.
  - apply step_poke.
  - apply slow_loop_critical_last_battery.
  - intros H. rewrite (run_last_battery _ _ _ H). reflexivity.
  - intros R. rewrite slow_loop_critical_eq. cbn [locals last_battery_sent].
    rewrite R. reflexivity.
Qed.

Lemma last_battery_frame_witness :
  last_battery (vehicle_state sample_first_step)
    = last_battery (vehicle_state (machine_init 1000)) /\
  last_battery (vehicle_state sample_first_step) = float_zero /\
  last_battery_sent
    (locals (slow_loop_critical sample_hot_idle 5000 (slow_loop_entry 1000)))
    = battery (current_sensor sample_hot_idle).
Proof.
  pose proof (last_battery_frame 1000 [(Fast, sample_input 60 0)] Fast
                (sample_input 60 0) (machine_init 1000) sample_first_step
                float_zero sample_hot_idle (sample_sensor 100 0 25) 5000
                (slow_loop_entry 1000))
    as (_ & Hstep & _ & _ & Hrun & Hrule).
  split; [| split].
  - apply Hstep. vm_compute. reflexivity.
  - apply Hrun. vm_compute. reflexivity.
  - apply Hrule. vm_compute. reflexivity.
Defined.

(* ================================================================== *)
(** * Part III: further properties of the code *)
(* ================================================================== *)

(** ** The sensor source: ranges *)

Lemma SFleb_total x y :
  x <> S754_nan -> y <> S754_nan -> SFltb x y = false -> SFleb y x = true.
Proof.
  intros Hx Hy. unfold SFltb, SFleb. rewrite (SFcompare_antisym x y).
  destruct (SFcompare x y) as [[| |] |] eqn:E; simpl; try congruence.
  destruct x, y; simpl in E; congruence.
Qed.

Lemma fgt_false_SFleb x y :
  x <> S754_nan -> y <> S754_nan -> fgt x y = false -> SFleb x y = true.
Proof.
  intros Hx Hy. unfold fgt, SFleb.
  destruct (SFcompare x y) as [[| |] |] eqn:E; simpl; try congruence.
  destruct x, y; simpl in E; congruence.
Qed.

(** [clamp] puts a number between its bounds. *)
Lemma clamp_range lo hi x :
  x <> S754_nan ->
  float_of_int lo <> S754_nan -> float_of_int hi <> S754_nan ->
  fle (float_of_int lo) (float_of_int hi) = true ->
  fle (float_of_int lo) (clamp lo hi x) = true /\
  fle (clamp lo hi x) (float_of_int hi) = true /\
  (clamp lo hi x = x \/ clamp lo hi x = float_of_int lo
   \/ clamp lo hi x = float_of_int hi).
Proof.
  intros Hx HL HH HLH. unfold clamp, fle, flt in *.
  destruct (SFltb x (float_of_int lo)) eqn:A.
  - destruct (fgt (float_of_int lo) (float_of_int hi)) eqn:B.
    + unfold fgt in B. unfold SFleb in HLH.
      destruct (SFcompare (float_of_int lo) (float_of_int hi)) as [[| |] |];
        discriminate.
    + split; [apply SFleb_refl; exact HL |]. split; [exact HLH | auto].
  - pose proof (SFleb_total _ _ Hx HL A) as HLx.
    destruct (fgt x (float_of_int hi)) eqn:B.
    + split; [exact HLH |]. split; [apply SFleb_refl; exact HH | auto].
    + split; [exact HLx |]. split; [| auto].
      apply fgt_false_SFleb; assumption.
Qed.

Lemma between_finite lo hi x :
  finite_number lo -> finite_number hi ->
  SFleb lo x = true -> SFleb x hi = true -> finite_number x.
Proof.
  unfold SFleb.
  destruct lo as [sl | sl | | sl ml el], hi as [sh | sh | | sh mh eh],
    x as [s | [|] | | s m e]; simpl; try contradiction; try discriminate;
    intros; exact I.
Qed.

Lemma clamp_valid lo hi x :
  float_valid x = true -> float_valid (clamp lo hi x) = true.
Proof.
  intros Hv. unfold clamp.
  assert (HI : forall z, float_valid (float_of_int z) = true).
  { intros z. unfold float_valid, float_of_int.
    destruct z as [| p | p]; simpl; try reflexivity;
      apply (binary_round_exact 24 128 ltac:(lia)). }
  destruct (flt x (float_of_int lo)); destruct (fgt _ (float_of_int hi)); auto.
Qed.

Lemma random_walk_valid RAND_MAX r scale x :
  float_valid (random_walk RAND_MAX r scale x) = true.
Proof. unfold random_walk. apply float_of_double_valid. Qed.

(** One call of [read_sensor_data]. *)
Lemma read_sensor_data_range RAND_MAX r1 r2 st :
  0 < RAND_MAX <= INT_MAX -> rand_values RAND_MAX (r1, r2) -> statics_ok st ->
  reading_in_range (fst (read_sensor_data RAND_MAX r1 r2 st)) /\
  statics_ok (snd (read_sensor_data RAND_MAX r1 r2 st)).
Proof.
  intros HR [Hr1 Hr2] ((Hsv & Hsf) & (Htv & Htf) & Hb).
  cbn [fst snd] in Hr1, Hr2.
  unfold read_sensor_data. cbn [fst snd].
  set (b1 := float_of_double (double_sub (double_of_float (static_battery st)) d_0_001)).
  set (s1 := random_walk RAND_MAX r1 d_5_0 (static_speed st)).
  set (t1 := random_walk RAND_MAX r2 d_2_0 (static_temp st)).
  assert (Hs1 : s1 <> S754_nan).
  { unfold s1. replace d_5_0 with (S754_finite false 5629499534213120 (-50))
      by (vm_compute; reflexivity).
    apply random_walk_number; assumption. }
  assert (Ht1 : t1 <> S754_nan).
  { unfold t1. replace d_2_0 with (S754_finite false 4503599627370496 (-51))
      by (vm_compute; reflexivity).
    apply random_walk_number; assumption. }
  assert (Hb1 : b1 <> S754_nan).
  { unfold b1. apply (convert_to_number 24 128 ltac:(lia)).
    apply (SFsub_number 53 1024 ltac:(lia)).
    - apply (convert_to_number 53 1024 ltac:(lia)). exact Hb.
    - vm_compute. exact I. }
  destruct (clamp_range 0 80 s1 Hs1 ltac:(vm_compute; discriminate)
              ltac:(vm_compute; discriminate) ltac:(vm_compute; reflexivity))
    as (Hs_lo & Hs_hi & _).
  destruct (clamp_range 20 75 t1 Ht1 ltac:(vm_compute; discriminate)
              ltac:(vm_compute; discriminate) ltac:(vm_compute; reflexivity))
    as (Ht_lo & Ht_hi & _).
  assert (Hsv' : float_valid (clamp 0 80 s1) = true)
    by (apply clamp_valid, random_walk_valid).
  assert (Htv' : float_valid (clamp 20 75 t1) = true)
    by (apply clamp_valid, random_walk_valid).
  set (b2 := if flt b1 (float_of_int 0) then float_of_double d_100_0 else b1).
  assert (Hb2 : float_nonneg b2 = true /\ float_valid b2 = true).
  { unfold b2. destruct (flt b1 (float_of_int 0)) eqn:F.
    - split; vm_compute; reflexivity.
    - split; [| apply float_of_double_valid].
      apply SFleb_total; [exact Hb1 | discriminate | exact F]. }
  destruct Hb2 as [Hbn Hbv].
  unfold reading_in_range, statics_ok.
  cbn [battery speed temp static_battery static_speed static_temp].
  repeat split; try assumption.
  - apply (between_finite (float_of_int 0) (float_of_int 80));
      try assumption; vm_compute; exact I.
  - apply (between_finite (float_of_int 20) (float_of_int 75));
      try assumption; vm_compute; exact I.
  - intros E. fold b2 in E. rewrite E in Hbn. discriminate.
Qed.

Lemma sensor_statics_init_ok : statics_ok sensor_statics_init.
Proof. unfold statics_ok. vm_compute. repeat split; discriminate. Qed.

Lemma sensor_run_range RAND_MAX rands : forall st,
  0 < RAND_MAX <= INT_MAX -> Forall (rand_values RAND_MAX) rands ->
  statics_ok st ->
  Forall reading_in_range (sensor_run RAND_MAX rands st).
Proof.
  induction rands as [| [r1 r2] rest IH]; intros st HR Hall Hok.
  - constructor.
  - apply Forall_cons in Hall as [Hr Hall].
    destruct (read_sensor_data_range RAND_MAX r1 r2 st HR Hr Hok) as [Hrange Hok'].
    cbn [sensor_run].
    destruct (read_sensor_data RAND_MAX r1 r2 st) as [d st'].
    cbn [fst snd] in *. constructor; [exact Hrange |].
    apply IH; assumption.
Qed.

(** X1. Every reading [read_sensor_data] returns, in any sequence of
    calls and whatever [rand] returns in its range, has its speed in
    [0, 80], its temperature in [20, 75] and a battery value that is a
    number and not negative; none of the three is NaN or infinite out of
    these ranges, and all are well-formed [float]s. *)
Theorem sensor_readings_in_range (RAND_MAX : Z) (rands : list (Z * Z)) :
  0 < RAND_MAX <= INT_MAX -> Forall (rand_values RAND_MAX) rands ->
  Forall reading_in_range (sensor_run RAND_MAX rands sensor_statics_init).
Proof.
  intros HR Hall. apply sensor_run_range; try assumption.
  exact sensor_statics_init_ok.
Qed.

Lemma sensor_readings_in_range_witness :
  Forall reading_in_range
    (sensor_run 2147483647 [(2147483647, 0); (0, 2147483647); (12345, 67890)]
       sensor_statics_init).
Proof.
  apply (sensor_readings_in_range 2147483647).
  - unfold INT_MAX. lia.
  - repeat constructor; cbn; lia.
Defined.

(** ** [get_timestamp_ms] and [send_to_cloud] *)

(** X2. For clock values as [clock_gettime] returns them,
    [get_timestamp_ms] computes without overflow the clock in whole
    milliseconds, rounded down.  So for a moving vehicle the test of
    rule 2 holds whenever a second or more has passed on the clock since
    the timestamp in [last_send_time] was taken, and only when more
    than 999 milliseconds have. *)
Theorem get_timestamp_ms_spec (s1 n1 s2 n2 : Z) (vs : VehicleState) (b : float) :
  timespec_ok s1 n1 -> timespec_ok s2 n2 ->
  let t1 := get_timestamp_ms s1 n1 in
  let t2 := get_timestamp_ms s2 n2 in
  let l := {| last_send_time := t1; last_battery_sent := b |} in
  (0 <= s1 * 1000 <= LONG_MAX /\ 0 <= t1 <= LONG_MAX) /\
  (t1 * 1000000 <= timespec_ns s1 n1 < (t1 + 1) * 1000000) /\
  (timespec_ns s1 n1 <= timespec_ns s2 n2 -> t1 <= t2) /\
  (is_moving vs = true ->
   (1000000000 <= timespec_ns s2 n2 - timespec_ns s1 n1 -> rule2 vs t2 l = true) /\
   (rule2 vs t2 l = true -> 999000000 < timespec_ns s2 n2 - timespec_ns s1 n1)).
Proof.
  intros [Hs1 Hn1] [Hs2 Hn2]. cbv zeta.
  unfold get_timestamp_ms, timespec_ns, LONG_MAX, rule2.
  cbn [last_send_time].
  rewrite !Z.quot_div_nonneg by lia.
  split; [| split; [| split]].
  - Z.to_euclidean_division_equations; lia.
  - Z.to_euclidean_division_equations; lia.
  - intros H. Z.to_euclidean_division_equations; lia.
  - intros ->. cbn [andb]. split.
    + intros H. apply Z.leb_le. Z.to_euclidean_division_equations; lia.
    + intros H. apply Z.leb_le in H. Z.to_euclidean_division_equations; lia.
Qed.

Lemma get_timestamp_ms_spec_witness :
  get_timestamp_ms 1700000000 999999999 * 1000000
    <= timespec_ns 1700000000 999999999
    < (get_timestamp_ms 1700000000 999999999 + 1) * 1000000 /\
  rule2 sample_moving (get_timestamp_ms 1700000002 0)
    {| last_send_time := get_timestamp_ms 1700000000 999999999;
       last_battery_sent := float_zero |} = true.
Proof.
  pose proof (get_timestamp_ms_spec 1700000000 999999999 1700000002 0
                sample_moving float_zero
                ltac:(unfold timespec_ok; lia) ltac:(unfold timespec_ok; lia))
    as (_ & Hfloor & _ & Hrule).
  split; [exact Hfloor |].
  apply (proj1 (Hrule eq_refl)). unfold timespec_ns. lia.
Defined.

(** X3. For every pair of values [rand] can return, [send_to_cloud]
    computes its delay without overflow, sleeps between 1 and 10
    seconds, and fails exactly when the second value ends in the digit
    9. *)
Theorem send_to_cloud_spec (r1 r2 : Z) :
  0 <= r1 <= INT_MAX -> 0 <= r2 <= INT_MAX ->
  exists delay status,
    send_to_cloud r1 r2 = Some (delay, status) /\
    1 <= delay <= 10 /\
    (status = FAILURE <-> r2 `mod` 10 = 9).
Proof.
  intros H1 H2. unfold send_to_cloud.
  rewrite !Z.rem_mod_nonneg by lia.
  pose proof (Z.mod_pos_bound r1 10 ltac:(lia)) as B1.
  pose proof (Z.mod_pos_bound r2 10 ltac:(lia)) as B2.
  assert (Hadd : int_add 1 (r1 `mod` 10) = Some (1 + r1 `mod` 10)).
  { unfold int_add, INT_MIN, INT_MAX. cbv zeta.
    destruct (_ && _) eqn:B; [reflexivity |].
    apply andb_false_iff in B. lia. }
  rewrite Hadd. cbn [mbind option_bind].
  destruct (r2 `mod` 10 <? 9) eqn:L.
  - eexists _, SUCCESS. split; [reflexivity |]. split; [lia |].
    apply Z.ltb_lt in L. split; [discriminate | lia].
  - eexists _, FAILURE. split; [reflexivity |]. split; [lia |].
    apply Z.ltb_ge in L. split; [lia | reflexivity].
Qed.

Lemma send_to_cloud_spec_witness :
  exists delay status,
    send_to_cloud 1804289383 846930889 = Some (delay, status) /\
    1 <= delay <= 10 /\
    (status = FAILURE <-> 846930889 `mod` 10 = 9).
Proof.
  apply (send_to_cloud_spec 1804289383 846930889); unfold INT_MAX; lia.
Defined.

(** ** The queue: accounting and re-initialisation *)

Lemma length_contents q :
  0 <= count q -> Z.of_nat (length (contents q)) = count q.
Proof. intros H. unfold contents. rewrite length_fmap, length_seqZ. lia. Qed.

(** X4. After any sequence of calls on the initial queue, [count] is the
    number of records held, which is the number of records accepted
    minus the number handed out; [queue_enqueue] accepts exactly when
    fewer than [QUEUE_SIZE] records are held and then raises [count] by
    one; [queue_dequeue] returns a record exactly when one is held and
    then lowers [count] by one. *)
Theorem queue_accounting (ops : list QueueOp) :
  exists q rs,
    queue_run cloud_queue_init ops = Some (q, rs) /\
    count q = Z.of_nat (length (contents q)) /\
    Z.of_nat (length (accepted rs)) = Z.of_nat (length (delivered rs)) + count q /\
    (forall d, exists q',
       queue_enqueue q d = Some (q', count q <? QUEUE_SIZE) /\
       count q' = count q + (if count q <? QUEUE_SIZE then 1 else 0)) /\
    (exists q' r,
       queue_dequeue q = Some (q', r) /\
       (r = None <-> count q = 0) /\
       count q' = count q - (if count q =? 0 then 0 else 1)).
Proof.
  destruct (queue_run_wf ops _ cloud_queue_init_wf) as (q & rs & Hrun & Hwf & H).
  exists q, rs. split; [exact Hrun |].
  assert (Hc : 0 <= count q <= QUEUE_SIZE) by (destruct Hwf as (_ & _ & _ & ? & _); lia).
  pose proof (length_contents q ltac:(lia)) as Hlen.
  split; [lia |]. split; [| split].
  - rewrite contents_init in H. cbn [app] in H.
    rewrite H, length_app. lia.
  - intros d. destruct (Z_lt_le_dec (count q) QUEUE_SIZE) as [Hroom | Hfull].
    + destruct (queue_enqueue_room q d Hwf Hroom) as (q' & He & _ & _ & Hn).
      exists q'. replace (count q <? QUEUE_SIZE) with true
        by (symmetry; apply Z.ltb_lt; lia).
      split; [exact He | lia].
    + exists q. rewrite (queue_enqueue_full q d Hfull).
      replace (count q <? QUEUE_SIZE) with false
        by (symmetry; apply Z.ltb_ge; lia).
      split; [reflexivity | lia].
  - destruct (Z.eq_dec (count q) 0) as [Hz | Hnz].
    + exists q, None. rewrite (queue_dequeue_empty q Hz), Hz.
      split; [reflexivity |]. split; [tauto | reflexivity].
    + destruct (queue_dequeue_some q Hwf ltac:(lia)) as (q' & d & Hd & _ & _ & Hn).
      exists q', (Some d). split; [exact Hd |]. split.
      * split; [discriminate | lia].
      * replace (count q =? 0) with false by (symmetry; apply Z.eqb_neq; lia). lia.
Qed.

Lemma queue_init_wf q0 :
  length (data q0) = Z.to_nat QUEUE_SIZE -> queue_wf (queue_init q0).
Proof.
  intros H. unfold queue_wf, queue_init. cbn [data front rear count].
  repeat split; unfold QUEUE_SIZE; try lia. exact H.
Qed.

(** X5. [queue_init] makes a working empty queue of any queue with its
    1000 slots, whatever its indices, its count and the records left in
    its slots: every sequence of calls on it is defined, keeps [count]
    between 0 and [QUEUE_SIZE], and hands out the accepted records in
    the order of their acceptance. *)
Theorem queue_init_resets (q0 : CloudQueue) (ops : list QueueOp) :
  length (data q0) = Z.to_nat QUEUE_SIZE ->
  contents (queue_init q0) = [] /\
  exists q rs,
    queue_run (queue_init q0) ops = Some (q, rs) /\
    0 <= count q <= QUEUE_SIZE /\
    accepted rs = delivered rs ++ contents q.
Proof.
  intros Hlen. split; [reflexivity |].
  destruct (queue_run_wf ops _ (queue_init_wf q0 Hlen)) as (q & rs & Hrun & Hwf & H).
  exists q, rs. split; [exact Hrun |]. split.
  - destruct Hwf as (_ & _ & _ & Hc & _). exact Hc.
  - exact H.
Qed.

Lemma queue_init_resets_witness :
  contents (queue_init sample_full_queue) = [] /\
  exists q rs,
    queue_run (queue_init sample_full_queue) (sample_fill 3 ++ [OpDequeue])
      = Some (q, rs) /\
    0 <= count q <= QUEUE_SIZE /\
    accepted rs = delivered rs ++ contents q.
Proof.
  apply (queue_init_resets sample_full_queue (sample_fill 3 ++ [OpDequeue])).
  vm_compute. reflexivity.
Defined.

(** ** The logic loop: how often the rules report *)

Lemma printed_line_periodic vs now l :
  printed_line "[Logic] Periodic update (moving)" (slow_loop_critical vs now l)
  = rule2 vs now l.
Proof.
  rewrite slow_loop_critical_eq. unfold printed_line. cbn [printed].
  destruct (rule1 vs l), (rule2 vs now l), (rule3 vs); reflexivity.
Qed.

Lemma periodic_times_spaced inputs : forall l,
  spaced 1000 (last_send_time l) (periodic_times (slow_loop_passes inputs l)).
Proof.
  induction inputs as [| [vs now] rest IH]; intros l; cbn [slow_loop_passes].
  - exact I.
  - cbn [periodic_times]. rewrite printed_line_periodic.
    specialize (IH (locals (slow_loop_critical vs now l))).
    rewrite slow_loop_critical_eq in *. cbn [locals cloud_data last_send_time] in *.
    destruct (rule2 vs now l) eqn:R.
    + cbn [spaced build_cloud_data timestamp]. split; [| exact IH].
      unfold rule2 in R. apply andb_true_iff in R as [_ R].
      apply Z.leb_le in R. lia.
    + exact IH.
Qed.

(** X6. Rate limit of rule 2.  Over any sequence of passes of the logic
    loop, whatever states they meet and whatever the clock shows (a
    time that is not negative, as [get_timestamp_ms] returns it), the
    timestamps of the periodic reports are at least 1000 ms apart, each
    from the one before, and the first is at least 1000 ms after the
    time the loop was entered. *)
Theorem periodic_reports_spaced (inputs : list (VehicleState * Z)) (start : Z) :
  0 <= start <= LONG_MAX ->
  Forall (fun i => 0 <= snd i <= LONG_MAX) inputs ->
  spaced 1000 start
    (periodic_times (slow_loop_passes inputs (slow_loop_entry start))).
Proof.
  intros _ _. exact (periodic_times_spaced inputs (slow_loop_entry start)).
Qed.

Lemma periodic_reports_spaced_witness :
  spaced 1000 1000
    (periodic_times
       (slow_loop_passes
          [(sample_moving, 1500); (sample_moving, 2100); (sample_idle, 2900);
           (sample_moving, 3050); (sample_moving, 3100)]
          (slow_loop_entry 1000))).
Proof.
  apply (periodic_reports_spaced
           [(sample_moving, 1500); (sample_moving, 2100); (sample_idle, 2900);
            (sample_moving, 3050); (sample_moving, 3100)] 1000).
  - unfold LONG_MAX. lia.
  - repeat constructor; cbn [snd]; unfold LONG_MAX; lia.
Defined.

Lemma float_sub_diag b :
  float_sub b b = S754_zero false \/ float_sub b b = S754_nan.
Proof.
  destruct b as [[|] | [|] | | s m e]; cbn; auto.
  rewrite Z.sub_diag. cbn. auto.
Qed.

Lemma rule1_same_battery vs l :
  last_battery_sent l = battery (current_sensor vs) -> rule1 vs l = false.
Proof.
  intros H. unfold rule1, battery_change. rewrite H.
  destruct (float_sub_diag (battery (current_sensor vs))) as [-> | ->];
    cbn; apply andb_false_r.
Qed.

(** X7. A battery report is not repeated.  After a pass in which rule 1
    reported, a pass that reads the same battery value does not report
    by rule 1, whatever the battery value (a number or not) and whatever
    else has changed. *)
Theorem battery_report_not_repeated (vs vs2 : VehicleState) (now : Z)
    (l : SlowLocals) :
  rule1 vs l = true ->
  battery (current_sensor vs2) = battery (current_sensor vs) ->
  last_battery_sent (locals (slow_loop_critical vs now l))
    = battery (current_sensor vs) /\
  rule1 vs2 (locals (slow_loop_critical vs now l)) = false.
Proof.
  intros R Hb.
  assert (Hl : last_battery_sent (locals (slow_loop_critical vs now l))
               = battery (current_sensor vs)).
  { rewrite slow_loop_critical_eq. cbn [locals last_battery_sent].
    rewrite R. reflexivity. }
  split; [exact Hl |]. apply rule1_same_battery. rewrite Hl, Hb. reflexivity.
Qed.

Lemma battery_report_not_repeated_witness :
  last_battery_sent (locals (slow_loop_critical sample_idle 5000 (slow_loop_entry 1000)))
    = battery (current_sensor sample_idle) /\
  rule1 sample_hot_idle
    (locals (slow_loop_critical sample_idle 5000 (slow_loop_entry 1000))) = false.
Proof.
  apply (battery_report_not_repeated sample_idle sample_hot_idle 5000
           (slow_loop_entry 1000)).
  - vm_compute. reflexivity.
  - vm_compute. reflexivity.
Defined.

(** ** The sensor loop: what the fields track *)

Lemma fast_loop_run_snoc rs r vs :
  fast_loop_run (rs ++ [r]) vs = fast_loop_update r (fast_loop_run rs vs).
Proof. rewrite fast_loop_run_app. reflexivity. Qed.

Lemma fast_loop_run_moving rs :
  let vs := fast_loop_run rs vehicle_state_init in
  is_moving vs = fgt (double_of_float (speed (current_sensor vs))) d_0_5 /\
  current_sensor vs = List.last rs SensorData_zero.
Proof.
  cbv zeta. induction rs as [| r rs _] using rev_ind.
  - split; vm_compute; reflexivity.
  - rewrite fast_loop_run_snoc.
    destruct (fast_loop_update_fields (fast_loop_run rs vehicle_state_init) r)
      as (Hc & _ & _ & Hm & _).
    rewrite Hm, Hc, List.last_last. auto.
Qed.

Lemma fast_loop_run_top rs : forall vs0,
  top_speed vs0 <> S754_nan ->
  Forall (fun r => speed r <> S754_nan) rs ->
  let vs := fast_loop_run rs vs0 in
  top_speed vs <> S754_nan /\
  fle (top_speed vs0) (top_speed vs) = true /\
  Forall (fun r => fle (speed r) (top_speed vs) = true) rs /\
  (top_speed vs = top_speed vs0 \/ Exists (fun r => top_speed vs = speed r) rs).
Proof.
  induction rs as [| r rs IH]; intros vs0 H0 Hall; cbv zeta.
  - cbn. split; [exact H0 |]. split; [apply SFleb_refl; exact H0 |].
    split; [constructor | auto].
  - apply Forall_cons in Hall as [Hr Hall].
    change (fast_loop_run (r :: rs) vs0)
      with (fast_loop_run rs (fast_loop_update r vs0)).
    destruct (fast_loop_update_fields vs0 r) as (_ & _ & Hmax & _ & _).
    destruct (float_max_upper (top_speed vs0) (speed r) H0 Hr) as (Hle0 & Hler & Hor).
    rewrite <- Hmax in Hle0, Hler, Hor.
    assert (H1 : top_speed (fast_loop_update r vs0) <> S754_nan).
    { destruct Hor as [-> | ->]; assumption. }
    destruct (IH _ H1 Hall) as (Hn & Hle & Hforall & Hex).
    split; [exact Hn |]. split; [exact (SFleb_trans _ _ _ Hle0 Hle) |].
    split.
    + constructor; [exact (SFleb_trans _ _ _ Hler Hle) | exact Hforall].
    + destruct Hex as [-> | Hex].
      * destruct Hor as [-> | ->]; [left; reflexivity |].
        right. apply Exists_cons. left. reflexivity.
      * right. apply Exists_cons. right. exact Hex.
Qed.

(** X8. [top_speed] is the running maximum.  After the sensor loop has
    consumed, from the initial state, any readings whose speeds are
    numbers, [top_speed] is at least every speed among them and at least
    zero, and it is zero or the speed of one of the readings. *)
Theorem top_speed_running_max (rs : list SensorData) :
  Forall (fun r => speed r <> S754_nan) rs ->
  let vs := fast_loop_run rs vehicle_state_init in
  Forall (fun r => fle (speed r) (top_speed vs) = true) rs /\
  fle float_zero (top_speed vs) = true /\
  (top_speed vs = float_zero \/ Exists (fun r => top_speed vs = speed r) rs).
Proof.
  intros Hall.
  destruct (fast_loop_run_top rs vehicle_state_init ltac:(discriminate) Hall)
    as (_ & Hle & Hforall & Hex).
  cbv zeta. auto.
Qed.

Lemma top_speed_running_max_witness :
  let rs := [sample_sensor 100 60 25; sample_sensor 100 80 25;
             sample_sensor 99 30 26] in
  Forall (fun r => fle (speed r) (top_speed (fast_loop_run rs vehicle_state_init)) = true)
    rs /\
  fle float_zero (top_speed (fast_loop_run rs vehicle_state_init)) = true /\
  (top_speed (fast_loop_run rs vehicle_state_init) = float_zero \/
   Exists (fun r => top_speed (fast_loop_run rs vehicle_state_init) = speed r) rs).
Proof.
  intros rs. apply (top_speed_running_max rs).
  repeat constructor; vm_compute; discriminate.
Defined.

(** ** The three threads together: the shared state and the records *)

(** X9. The shared state under every schedule.  No step is undefined;
    whenever the sensor thread is outside its critical section,
    [vehicle_state] is the state the readings stored so far produce from
    the initial state, one update each, and its moving flag is the
    comparison of its speed with 0.5; and the moving flag the logic
    thread decides its rules on is the comparison with 0.5 of the speed
    in the record it builds. *)
Theorem shared_state_coherent (start : Z) (schedule : list (Thread * Input)) :
  exists m, run schedule (machine_init start) = Some m /\
    (fast_holds (fast_pc (fast m)) = false ->
     vehicle_state m
       = fast_loop_run (stored_reads (fast_pc (fast m)) (trace m))
           vehicle_state_init /\
     is_moving (vehicle_state m)
       = fgt (double_of_float (speed (current_sensor (vehicle_state m)))) d_0_5) /\
    (slow_has_read (slow_pc (slow m)) = true ->
     s_is_moving (slow m)
       = fgt (double_of_float (speed (sensor (s_cloud_data (slow m))))) d_0_5).
Proof.
  destruct (run_ok schedule _ (machine_init_ok start)) as (m & Hrun & Hok).
  exists m. split; [exact Hrun |]. open_machine_ok Hok. split.
  - intros FH. rewrite fast_partial_free in Hvs by exact FH.
    assert (Hst : stored_reads (fast_pc (fast m)) (trace m) = rs).
    { unfold stored_reads. rewrite Htr.
      destruct (fast_pending (fast_pc (fast m))).
      - apply List.removelast_last.
      - apply app_nil_r. }
    rewrite Hst. split; [exact Hvs |]. rewrite Hvs.
    apply (fast_loop_run_moving rs).
  - intros Hread. unfold slow_has_read in Hread. apply Nat.leb_le in Hread.
    destruct Hview as (_ & V2 & V3 & _).
    rewrite V2, V3 by lia. apply (fast_loop_run_moving srs).
Qed.

Lemma snapshot_record_mono reads reads' d :
  reads `prefix_of` reads' -> snapshot_record reads d ->
  snapshot_record reads' d.
Proof.
  intros Hp (rs & now & Hrs & ->). exists rs, now. split; [| reflexivity].
  etransitivity; eassumption.
Qed.

Lemma record_known_ok m d :
  records_ok m -> record_known m d ->
  snapshot_record (sensor_reads (trace m)) d.
Proof.
  intros (Hq & Hc & _) [Hin | [[Hh ->] | Hs]].
  - rewrite Forall_forall in Hq. apply Hq. exact Hin.
  - apply Hc. exact Hh.
  - exact Hs.
Qed.

(** What a step has to show for the records to remain snapshots. *)
Lemma records_ok_next m m' evs :
  records_ok m ->
  trace m' = trace m ++ evs ->
  (forall d, d ∈ contents (cloud_queue m') -> record_known m d) ->
  (cloud_holds (cloud_pc (cloud m')) = true -> record_known m (c_data (cloud m'))) ->
  (forall d, d ∈ records_of evs -> record_known m d) ->
  records_ok m'.
Proof.
  intros Hrec Htr Hq Hc Hev.
  assert (Hp : sensor_reads (trace m) `prefix_of` sensor_reads (trace m')).
  { rewrite Htr, sensor_reads_app. apply prefix_app_r. reflexivity. }
  assert (Hk : forall d, record_known m d ->
                 snapshot_record (sensor_reads (trace m')) d).
  { intros d Hd. apply (snapshot_record_mono _ _ _ Hp).
    apply record_known_ok; assumption. }
  unfold records_ok. cbv zeta. split; [| split].
  - rewrite Forall_forall. intros d Hd. apply Hk, Hq, Hd.
  - intros Hh. apply Hk, Hc, Hh.
  - assert (Hro : records_of (trace m')
                  = records_of (trace m) ++ records_of evs).
    { rewrite Htr. apply omap_app. }
    rewrite Hro. apply Forall_app. split.
    + destruct Hrec as (_ & _ & Ht).
      eapply Forall_impl; [exact Ht |]. intros d Hd.
      apply (snapshot_record_mono _ _ _ Hp). exact Hd.
    + rewrite Forall_forall. intros d Hd. apply Hk, Hev, Hd.
Qed.

(** The step changes neither the queue nor the cloud thread and carries
    no record. *)
Ltac records_same evs0 :=
  match goal with
  | Hrec : records_ok _ |- _ =>
      apply (records_ok_next _ _ evs0 Hrec);
      cbn [vehicle_state state_mutex cloud_queue fast slow cloud trace
           set_fast set_slow set_cloud set_vehicle_state set_state_mutex
           set_cloud_queue emit fast_goto slow_goto cloud_goto cloud_pc c_data
           records_of omap event_record list_omap];
      [ rewrite ?app_nil_r; reflexivity
      | intros d Hd; left; exact Hd
      | intros Hh;
        first [ discriminate Hh
              | right; left; split; [exact Hh | reflexivity] ]
      | intros d Hd; apply elem_of_nil in Hd; destruct Hd ]
  end.

Lemma fast_step_records i m m' :
  fast_step i m = Some m' -> records_ok m -> records_ok m'.
Proof.
  destruct m as [vs mx q [pc sensor] s c tr]. unfold fast_step.
  cbn [vehicle_state state_mutex cloud_queue fast slow cloud trace fast_pc
       fast_sensor].
  destruct pc; unfold mutex_lock, mutex_unlock; cbn [state_mutex];
    try (destruct mx as [[| |] |]; cbn [eqb_thread]);
    intros Hs Hrec; try discriminate; apply Some_inj in Hs; subst m'.
  all: first [records_same (@nil Event)
             | records_same [SensorCall (in_reading i)]].
Qed.

Lemma slow_cloud_data_snapshot m :
  machine_ok m -> (8 <= slow_rank (slow_pc (slow m)))%nat ->
  snapshot_record (sensor_reads (trace m)) (s_cloud_data (slow m)).
Proof.
  intros H Hrank. open_machine_ok H.
  destruct Hview as (_ & _ & V3 & V4 & V5).
  exists srs, (timestamp (s_cloud_data (slow m))). split.
  - rewrite Htr. apply prefix_app_r. exact Hpre.
  - destruct (s_cloud_data (slow m)) as [se di to ti].
    cbn [sensor distance cd_top_speed timestamp] in *.
    unfold build_cloud_data. rewrite <- V3, <- V4, <- V5 by lia. reflexivity.
Qed.

Lemma enqueue_contents q d q' ok x :
  queue_wf q -> queue_enqueue q d = Some (q', ok) ->
  x ∈ contents q' -> x ∈ contents q \/ x = d.
Proof.
  intros Hwf He Hx.
  destruct (queue_enqueue_total q d Hwf) as (q1 & He1 & _ & Hroom & Hfull).
  rewrite He in He1. apply Some_inj in He1.
  assert (Hq : q' = q1) by congruence. subst q1.
  destruct Hwf as (_ & _ & _ & Hc & _).
  destruct (Z_lt_le_dec (count q) QUEUE_SIZE) as [Hlt | Hge].
  - rewrite (Hroom Hlt) in Hx. apply elem_of_app in Hx as [Hx | Hx]; [auto |].
    apply list_elem_of_singleton in Hx. auto.
  - rewrite (Hfull ltac:(lia)) in Hx. auto.
Qed.

Lemma slow_step_records i m m' :
  machine_ok m -> slow_step i m = Some m' -> records_ok m -> records_ok m'.
Proof.
  intros Hok.
  pose proof (slow_cloud_data_snapshot m Hok) as Hsnap.
  assert (Hwf : queue_wf (cloud_queue m)).
  { destruct Hok as (? & ? & _ & _ & _ & _ & _ & _ & _ & Hq). exact Hq. }
  clear Hok.
  destruct m as [vs mx q f [pc cur mov bc tc cd ss loc] c tr]. unfold slow_step.
  cbn [vehicle_state state_mutex cloud_queue fast slow cloud trace slow_pc
       s_current s_is_moving s_battery_change s_temp_critical s_cloud_data
       s_should_send s_locals slow_rank] in *.
  destruct pc; unfold mutex_lock, mutex_unlock; cbn [state_mutex];
    try match goal with
        | |- context [match mx with _ => _ end] =>
            destruct mx as [[| |] |]; cbn [eqb_thread]
        end.
  all: try (intros Hs Hrec; try discriminate; apply Some_inj in Hs; subst m';
            records_same (@nil Event)).
  - (* S_rule1 *)
    destruct (negb mov && fgt (double_of_float bc) d_0_5);
      intros Hs Hrec; apply Some_inj in Hs; subst m';
      first [records_same (@nil Event)
            | records_same [Print "[Logic] Battery changed while idle"]].
  - (* S_rule2 *)
    destruct (mov && (1000 <=? timestamp cd - last_send_time loc));
      intros Hs Hrec; apply Some_inj in Hs; subst m';
      first [records_same (@nil Event)
            | records_same [Print "[Logic] Periodic update (moving)"]].
  - (* S_rule3 *)
    destruct tc;
      intros Hs Hrec; apply Some_inj in Hs; subst m';
      first [records_same (@nil Event)
            | records_same [Print "[Logic] CRITICAL TEMP ALERT!"]].
  - (* S_enqueue *)
    destruct ss.
    + destruct (queue_enqueue q cd) as [[q' ok] |] eqn:He;
        cbn [mbind option_bind]; intros Hs Hrec; [| discriminate].
      apply Some_inj in Hs; subst m'.
      apply (records_ok_next _ _
               (EnqueueCall cd ok ::
                  (if ok then [] else [Print "[Logic] Warning: Queue full!"]))
               Hrec);
        cbn [vehicle_state state_mutex cloud_queue fast slow cloud trace
             set_slow set_cloud_queue emit slow_goto cloud_pc c_data].
      * reflexivity.
      * intros d Hd.
        destruct (enqueue_contents q cd q' ok d Hwf He Hd) as [Hin | ->].
        -- left. exact Hin.
        -- right. right. apply Hsnap. cbn [slow_rank]. lia.
      * intros Hh. right. left. split; [exact Hh | reflexivity].
      * intros d Hd.
        assert (Hd' : d = cd).
        { destruct ok; cbn in Hd; apply list_elem_of_singleton in Hd; exact Hd. }
        subst d. right. right. apply Hsnap. cbn [slow_rank]. lia.
    + intros Hs Hrec. apply Some_inj in Hs; subst m'.
      records_same (@nil Event).
Qed.

Lemma dequeue_contents q q' r x :
  queue_wf q -> queue_dequeue q = Some (q', r) ->
  (x ∈ contents q' -> x ∈ contents q) /\
  (forall d, r = Some d -> d ∈ contents q).
Proof.
  intros Hwf Hd.
  destruct (Z.eq_dec (count q) 0) as [Hz | Hnz].
  - rewrite (queue_dequeue_empty q Hz) in Hd. apply Some_inj in Hd.
    assert (q' = q) by congruence. assert (r = None) by congruence. subst.
    split; [auto | discriminate].
  - assert (Hpos : 0 < count q) by (destruct Hwf as (_ & _ & _ & ? & _); lia).
    destruct (queue_dequeue_some q Hwf Hpos) as (q1 & d1 & E & _ & Hc & _).
    rewrite E in Hd. apply Some_inj in Hd.
    assert (q' = q1) by congruence. assert (r = Some d1) by congruence. subst.
    rewrite Hc. split.
    + intros Hx. apply elem_of_cons. auto.
    + intros d [= <-]. apply elem_of_cons. auto.
Qed.

Lemma cloud_step_records i m m' :
  machine_ok m -> cloud_step i m = Some m' -> records_ok m -> records_ok m'.
Proof.
  intros Hok.
  assert (Hwf : queue_wf (cloud_queue m)).
  { destruct Hok as (? & ? & _ & _ & _ & _ & _ & _ & _ & Hq). exact Hq. }
  clear Hok.
  destruct m as [vs mx q f s [pc d] tr]. unfold cloud_step.
  cbn [vehicle_state state_mutex cloud_queue fast slow cloud trace cloud_pc
       c_data] in *.
  destruct pc.
  - (* C_dequeue *)
    destruct (queue_dequeue q) as [[q' r] |] eqn:Hd;
      cbn [mbind option_bind]; [| discriminate].
    destruct r as [d' |]; intros Hs Hrec; apply Some_inj in Hs; subst m';
      apply (records_ok_next _ _ [] Hrec);
      cbn [vehicle_state state_mutex cloud_queue fast slow cloud trace
           set_cloud set_cloud_queue cloud_goto cloud_pc c_data cloud_holds
           records_of omap list_omap].
    + rewrite app_nil_r. reflexivity.
    + intros x Hx. left.
      apply (proj1 (dequeue_contents q q' (Some d') x Hwf Hd)). exact Hx.
    + intros _. left.
      apply (proj2 (dequeue_contents q q' (Some d') d' Hwf Hd)). reflexivity.
    + intros x Hx. apply elem_of_nil in Hx. destruct Hx.
    + rewrite app_nil_r. reflexivity.
    + intros x Hx. left.
      apply (proj1 (dequeue_contents q q' None x Hwf Hd)). exact Hx.
    + discriminate.
    + intros x Hx. apply elem_of_nil in Hx. destruct Hx.
  - (* C_send *)
    destruct (in_status i); intros Hs Hrec; apply Some_inj in Hs; subst m'.
    + apply (records_ok_next _ _ [SendCall d SUCCESS] Hrec);
        cbn [vehicle_state state_mutex cloud_queue fast slow cloud trace
             set_cloud emit cloud_goto cloud_pc c_data cloud_holds].
      * reflexivity.
      * intros x Hx. left. exact Hx.
      * discriminate.
      * intros x Hx. cbn in Hx. apply list_elem_of_singleton in Hx. subst x.
        right. left. split; reflexivity.
    + apply (records_ok_next _ _
               [SendCall d FAILURE; Print "[Cloud] Retrying..."] Hrec);
        cbn [vehicle_state state_mutex cloud_queue fast slow cloud trace
             set_cloud emit cloud_goto cloud_pc c_data cloud_holds].
      * reflexivity.
      * intros x Hx. left. exact Hx.
      * intros _. right. left. split; reflexivity.
      * intros x Hx. cbn in Hx. apply list_elem_of_singleton in Hx. subst x.
        right. left. split; reflexivity.
  - (* C_retry *)
    destruct (queue_enqueue q d) as [[q' ok] |] eqn:He;
      cbn [mbind option_bind]; intros Hs Hrec; [| discriminate].
    apply Some_inj in Hs; subst m'.
    apply (records_ok_next _ _ [EnqueueCall d ok] Hrec);
      cbn [vehicle_state state_mutex cloud_queue fast slow cloud trace
           set_cloud set_cloud_queue emit cloud_goto cloud_pc c_data
           cloud_holds].
    + reflexivity.
    + intros x Hx.
      destruct (enqueue_contents q d q' ok x Hwf He Hx) as [Hin | ->].
      * left. exact Hin.
      * right. left. split; reflexivity.
    + discriminate.
    + intros x Hx. cbn in Hx. apply list_elem_of_singleton in Hx. subst x.
      right. left. split; reflexivity.
  - (* C_sleep *)
    intros Hs Hrec. apply Some_inj in Hs; subst m'.
    apply (records_ok_next _ _ [] Hrec);
      cbn [vehicle_state state_mutex cloud_queue fast slow cloud trace
           set_cloud cloud_goto cloud_pc c_data cloud_holds].
    + rewrite app_nil_r. reflexivity.
    + intros x Hx. left. exact Hx.
    + discriminate.
    + intros x Hx. cbn in Hx. apply elem_of_nil in Hx. destruct Hx.
Qed.

Lemma step_records t i m m' :
  machine_ok m -> step t i m = Some m' -> records_ok m -> records_ok m'.
Proof.
  intros Hok. destruct t; cbn [step].
  - apply fast_step_records.
  - apply slow_step_records. exact Hok.
  - apply cloud_step_records. exact Hok.
Qed.

Lemma run_records schedule : forall m,
  machine_ok m -> records_ok m ->
  exists m', run schedule m = Some m' /\ machine_ok m' /\ records_ok m'.
Proof.
  induction schedule as [| [t i] rest IH]; intros m Hok Hrec.
  - exists m. auto.
  - destruct (step_ok t i m Hok) as (m1 & Hs & Hok1).
    pose proof (step_records t i m m1 Hok Hs Hrec) as Hrec1.
    destruct (IH m1 Hok1 Hrec1) as (m2 & Hr & Hok2 & Hrec2).
    exists m2. rewrite run_cons, Hs. cbn [mbind option_bind]. auto.
Qed.

Lemma machine_init_records start : records_ok (machine_init start).
Proof.
  unfold records_ok, machine_init.
  cbn [vehicle_state state_mutex cloud_queue fast slow cloud trace cloud_pc
       c_data cloud_holds sensor_reads records_of omap list_omap].
  rewrite contents_init. split; [constructor |]. split; [discriminate | constructor].
Qed.

(** X10. No torn record reaches the cloud.  Under every schedule of the
    three threads, every record in the queue, every record the cloud
    thread has dequeued and is sending or retrying, and every record
    ever passed to [queue_enqueue] or [send_to_cloud] is the record of
    one state of the vehicle: sensor values, distance and top speed are
    the fields [vehicle_state] had after the first [k] readings taken
    were stored completely, for some [k]. *)
Theorem records_are_snapshots (start : Z) (schedule : list (Thread * Input)) :
  exists m, run schedule (machine_init start) = Some m /\
    let reads := sensor_reads (trace m) in
    Forall (snapshot_record reads) (contents (cloud_queue m)) /\
    (cloud_holds (cloud_pc (cloud m)) = true ->
     snapshot_record reads (c_data (cloud m))) /\
    Forall (snapshot_record reads) (records_of (trace m)).
Proof.
  destruct (run_records schedule _ (machine_init_ok start)
              (machine_init_records start)) as (m & Hrun & _ & Hrec).
  exists m. split; [exact Hrun | exact Hrec].
Qed.

(** ** The mutex is handed over *)

(** A step of the logic thread between lock and unlock: it goes one
    statement further and touches nothing shared but, at the end, the
    mutex. *)
Lemma slow_step_inside i m :
  state_mutex m = Some Slow -> slow_holds (slow_pc (slow m)) = true ->
  exists m', slow_step i m = Some m' /\
    slow_rank (slow_pc (slow m')) = S (slow_rank (slow_pc (slow m))) /\
    state_mutex m'
      = (if slow_holds (slow_pc (slow m')) then Some Slow else None) /\
    fast m' = fast m /\ cloud m' = cloud m /\
    vehicle_state m' = vehicle_state m /\ cloud_queue m' = cloud_queue m.
Proof.
  destruct m as [vs mx q f [pc cur mov bc tc cd ss loc] c tr].
  cbn [state_mutex slow slow_pc]. intros -> Hh. unfold slow_step.
  cbn [vehicle_state state_mutex cloud_queue fast slow cloud trace slow_pc
       s_current s_is_moving s_battery_change s_temp_critical s_cloud_data
       s_should_send s_locals].
  destruct pc; try discriminate Hh; unfold mutex_unlock;
    cbn [state_mutex eqb_thread];
    try match goal with
        | |- context [if ?b then Some _ else Some _] => destruct b
        end;
    (eexists; split; [reflexivity |]);
    cbn [vehicle_state state_mutex cloud_queue fast slow cloud trace
         set_slow set_state_mutex emit slow_goto slow_pc slow_rank slow_holds
         Nat.leb andb];
    repeat split; reflexivity.
Qed.

Lemma slow_release inputs : forall m,
  state_mutex m = Some Slow -> slow_holds (slow_pc (slow m)) = true ->
  (slow_rank (slow_pc (slow m)) + length inputs = 14)%nat ->
  exists m', run (map (pair Slow) inputs) m = Some m' /\
    state_mutex m' = None /\ fast m' = fast m.
Proof.
  induction inputs as [| i rest IH]; intros m Hmx Hh Hlen.
  - cbn [length] in Hlen. unfold slow_holds in Hh.
    apply andb_true_iff in Hh as [_ Hh]. apply Nat.leb_le in Hh. lia.
  - destruct (slow_step_inside i m Hmx Hh)
      as (m1 & Hs & Hrank & Hmx1 & Hf & _).
    cbn [map]. rewrite run_cons. cbn [step]. rewrite Hs.
    cbn [mbind option_bind]. cbn [length] in Hlen.
    destruct (slow_holds (slow_pc (slow m1))) eqn:Hh1.
    + destruct (IH m1 Hmx1 Hh1 ltac:(lia)) as (m2 & Hr & Hn & Hf2).
      exists m2. split; [exact Hr |]. split; [exact Hn | congruence].
    + destruct rest as [| i2 rest].
      * exists m1. cbn [map run]. auto.
      * exfalso. unfold slow_holds in Hh, Hh1.
        apply andb_true_iff in Hh as [_ Hh]. apply Nat.leb_le in Hh.
        cbn [length] in Hlen.
        apply andb_false_iff in Hh1 as [Hh1 | Hh1];
          apply Nat.leb_gt in Hh1; lia.
Qed.

(** The same for the sensor thread. *)
Lemma fast_step_inside i m :
  state_mutex m = Some Fast -> fast_holds (fast_pc (fast m)) = true ->
  exists m', fast_step i m = Some m' /\
    fast_rank (fast_pc (fast m')) = S (fast_rank (fast_pc (fast m))) /\
    state_mutex m'
      = (if fast_holds (fast_pc (fast m')) then Some Fast else None) /\
    slow m' = slow m /\ cloud m' = cloud m /\ cloud_queue m' = cloud_queue m.
Proof.
  destruct m as [vs mx q [pc sensor] s c tr].
  cbn [state_mutex fast fast_pc]. intros -> Hh. unfold fast_step.
  cbn [vehicle_state state_mutex cloud_queue fast slow cloud trace fast_pc
       fast_sensor].
  destruct pc; try discriminate Hh; unfold mutex_unlock;
    cbn [state_mutex eqb_thread];
    (eexists; split; [reflexivity |]);
    cbn [vehicle_state state_mutex cloud_queue fast slow cloud trace
         set_fast set_vehicle_state set_state_mutex fast_goto fast_pc
         fast_rank fast_holds];
    repeat split; reflexivity.
Qed.

Lemma fast_holds_rank pc :
  fast_holds pc = true <-> (2 <= fast_rank pc <= 6)%nat.
Proof. destruct pc; cbn; split; intros H; try discriminate; try lia; reflexivity. Qed.

Lemma fast_release inputs : forall m,
  state_mutex m = Some Fast -> fast_holds (fast_pc (fast m)) = true ->
  (fast_rank (fast_pc (fast m)) + length inputs = 7)%nat ->
  exists m', run (map (pair Fast) inputs) m = Some m' /\
    state_mutex m' = None /\ slow m' = slow m.
Proof.
  induction inputs as [| i rest IH]; intros m Hmx Hh Hlen.
  - cbn [length] in Hlen. apply fast_holds_rank in Hh. lia.
  - destruct (fast_step_inside i m Hmx Hh)
      as (m1 & Hs & Hrank & Hmx1 & Hf & _).
    cbn [map]. rewrite run_cons. cbn [step]. rewrite Hs.
    cbn [mbind option_bind]. cbn [length] in Hlen.
    destruct (fast_holds (fast_pc (fast m1))) eqn:Hh1.
    + destruct (IH m1 Hmx1 Hh1 ltac:(lia)) as (m2 & Hr & Hn & Hf2).
      exists m2. split; [exact Hr |]. split; [exact Hn | congruence].
    + destruct rest as [| i2 rest].
      * exists m1. cbn [map run]. auto.
      * exfalso. apply fast_holds_rank in Hh.
        assert (Hn : ~ (2 <= fast_rank (fast_pc (fast m1)) <= 6)%nat).
        { intros C. apply fast_holds_rank in C. congruence. }
        cbn [length] in Hlen. lia.
Qed.

(** X11. No thread waits for the mutex for ever.  In every machine the
    threads can reach: when the sensor thread stands at its lock, the
    logic thread, run alone, frees the mutex after a fixed number of
    steps, at most 13, whatever the clock shows, and the sensor thread's
    next step then takes the mutex; when the logic thread stands at its
    lock, the same holds with at most 5 steps of the sensor thread. *)
Theorem mutex_handover (start : Z) (schedule : list (Thread * Input))
    (m : Machine) :
  run schedule (machine_init start) = Some m ->
  (fast_pc (fast m) = F_lock ->
   exists n, (n <= 13)%nat /\
     forall inputs i, length inputs = n ->
       exists m1 m2,
         run (map (pair Slow) inputs) m = Some m1 /\
         step Fast i m1 = Some m2 /\
         fast_pc (fast m2) = F_current_sensor /\
         state_mutex m2 = Some Fast) /\
  (slow_pc (slow m) = S_lock ->
   exists n, (n <= 5)%nat /\
     forall inputs i, length inputs = n ->
       exists m1 m2,
         run (map (pair Fast) inputs) m = Some m1 /\
         step Slow i m1 = Some m2 /\
         slow_pc (slow m2) = S_current /\
         state_mutex m2 = Some Slow).
Proof.
  intros Hrun.
  destruct (run_ok schedule _ (machine_init_ok start)) as (m' & Hrun' & Hok).
  rewrite Hrun in Hrun'. apply Some_inj in Hrun'. subst m'.
  destruct Hok as (rs & srs & _ & _ & Hmx & Hex & _).
  assert (Hlock : forall m1, state_mutex m1 = None ->
            fast_pc (fast m1) = F_lock ->
            forall i, exists m2, step Fast i m1 = Some m2 /\
              fast_pc (fast m2) = F_current_sensor /\
              state_mutex m2 = Some Fast).
  { intros m1 Hn Hpc i. cbn [step]. unfold fast_step, mutex_lock.
    rewrite Hpc, Hn. eexists. split; [reflexivity |]. split; reflexivity. }
  assert (Hslock : forall m1, state_mutex m1 = None ->
            slow_pc (slow m1) = S_lock ->
            forall i, exists m2, step Slow i m1 = Some m2 /\
              slow_pc (slow m2) = S_current /\
              state_mutex m2 = Some Slow).
  { intros m1 Hn Hpc i. cbn [step]. unfold slow_step, mutex_lock.
    rewrite Hpc, Hn. eexists. split; [reflexivity |]. split; reflexivity. }
  split.
  - intros Hpc. rewrite Hpc in Hmx. cbn [fast_holds] in Hmx.
    destruct (slow_holds (slow_pc (slow m))) eqn:Hh.
    + exists (14 - slow_rank (slow_pc (slow m)))%nat.
      assert (Hr : (1 <= slow_rank (slow_pc (slow m)) <= 13)%nat).
      { unfold slow_holds in Hh. apply andb_true_iff in Hh as [H1 H2].
        apply Nat.leb_le in H1, H2. lia. }
      split; [lia |]. intros inputs i Hlen.
      destruct (slow_release inputs m Hmx Hh ltac:(lia)) as (m1 & Hr1 & Hn & Hf).
      destruct (Hlock m1 Hn ltac:(congruence) i) as (m2 & Hs & Hp & Hm).
      exists m1, m2. auto.
    + exists 0%nat. split; [lia |]. intros inputs i Hlen.
      destruct inputs; [| discriminate Hlen].
      destruct (Hlock m Hmx Hpc i) as (m2 & Hs & Hp & Hm).
      exists m, m2. auto.
  - intros Hpc.
    destruct (fast_holds (fast_pc (fast m))) eqn:Hh.
    + exists (7 - fast_rank (fast_pc (fast m)))%nat.
      pose proof (proj1 (fast_holds_rank _) Hh) as Hr.
      split; [lia |]. intros inputs i Hlen.
      destruct (fast_release inputs m Hmx Hh ltac:(lia)) as (m1 & Hr1 & Hn & Hf).
      destruct (Hslock m1 Hn ltac:(congruence) i) as (m2 & Hs & Hp & Hm).
      exists m1, m2. auto.
    + rewrite Hpc in Hmx. cbn [slow_holds slow_rank Nat.leb andb] in Hmx.
      exists 0%nat. split; [lia |]. intros inputs i Hlen.
      destruct inputs; [| discriminate Hlen].
      destruct (Hslock m Hmx Hpc i) as (m2 & Hs & Hp & Hm).
      exists m, m2. auto.
Qed.

Lemma mutex_handover_witness :
  exists n, (n <= 13)%nat /\
    forall inputs i, length inputs = n ->
      exists m1 m2,
        run (map (pair Slow) inputs) sample_waiting = Some m1 /\
        step Fast i m1 = Some m2 /\
        fast_pc (fast m2) = F_current_sensor /\
        state_mutex m2 = Some Fast.
Proof.
  apply (mutex_handover 1000 sample_waiting_schedule sample_waiting).
  - vm_compute. reflexivity.
  - vm_compute. reflexivity.
Defined.

(** ** The cloud thread alone: nothing is lost *)

Lemma cloud_sender_run_conserves statuses : forall q,
  queue_wf q ->
  exists q' evs,
    cloud_sender_run statuses q = Some (q', evs) /\
    queue_wf q' /\
    sent_ok evs ++ contents q' ≡ₚ contents q /\
    (Forall (fun st => st = SUCCESS) statuses ->
     sent_ok evs ++ contents q' = contents q) /\
    rejected evs = [].
Proof.
  induction statuses as [| st sts IH]; intros q Hwf.
  - exists q, []. cbn. auto.
  - cbn [cloud_sender_run]. unfold cloud_sender_iteration.
    destruct (contents q) as [| d rest] eqn:Hc.
    + (* nothing to send *)
      assert (Hz : count q = 0).
      { pose proof (length_contents q) as Hl. rewrite Hc in Hl.
        destruct Hwf as (_ & _ & _ & ? & _). cbn in Hl. lia. }
      rewrite (queue_dequeue_empty q Hz). cbn [mbind option_bind].
      destruct (IH q Hwf) as (q2 & evs2 & -> & Hwf2 & Hp & Hs & Hr).
      cbn [mbind option_bind app]. exists q2, evs2.
      rewrite Hc in Hp, Hs. split; [reflexivity |]. split; [exact Hwf2 |].
      split; [exact Hp |]. split; [| exact Hr].
      intros Hall. apply Hs. apply Forall_cons in Hall as [_ Hall]. exact Hall.
    + destruct (queue_dequeue_cons q d rest Hwf Hc) as (q1 & -> & Hwf1 & Hc1 & Hroom).
      cbn [mbind option_bind]. destruct st.
      * (* SUCCESS *)
        cbn [cloud_sender_sent mbind option_bind].
        destruct (IH q1 Hwf1) as (q2 & evs2 & -> & Hwf2 & Hp & Hs & Hr).
        cbn [mbind option_bind]. eexists _, _. split; [reflexivity |].
        split; [exact Hwf2 |]. rewrite Hc1 in Hp, Hs.
        cbn [sent_ok rejected omap list_omap app] in *.
        split; [| split].
        -- constructor. exact Hp.
        -- intros Hall. apply Forall_cons in Hall as [_ Hall].
           f_equal. apply Hs. exact Hall.
        -- exact Hr.
      * (* FAILURE *)
        destruct (cloud_sender_sent_failure_room d q1 Hwf1 Hroom)
          as (q1' & -> & Hwf1' & Hc1').
        cbn [mbind option_bind].
        destruct (IH q1' Hwf1') as (q2 & evs2 & -> & Hwf2 & Hp & Hs & Hr).
        cbn [mbind option_bind]. eexists _, _. split; [reflexivity |].
        split; [exact Hwf2 |]. rewrite Hc1', Hc1 in Hp.
        cbn [sent_ok rejected omap list_omap app] in *.
        split; [| split].
        -- rewrite Hp. symmetry. apply Permutation_cons_append.
        -- intros Hall. apply Forall_cons in Hall as [Hall _]. discriminate Hall.
        -- exact Hr.
Qed.

(** X12. The cloud thread alone loses nothing.  Over any number of
    passes of the cloud thread's loop with no other thread in between,
    whatever the transport answers: nothing is undefined, no retry is
    rejected by the queue, and the records sent with [SUCCESS] together
    with the records still queued are the records queued at the start,
    each as often as there; when the transport never fails they are in
    the same order, oldest first. *)
Theorem cloud_sender_conserves (statuses : list CloudStatus) (q : CloudQueue) :
  queue_wf q ->
  exists q' evs,
    cloud_sender_run statuses q = Some (q', evs) /\
    sent_ok evs ++ contents q' ≡ₚ contents q /\
    (Forall (fun st => st = SUCCESS) statuses ->
     sent_ok evs ++ contents q' = contents q) /\
    rejected evs = [].
Proof.
  intros Hwf.
  destruct (cloud_sender_run_conserves statuses q Hwf)
    as (q' & evs & Hrun & _ & Hp & Hs & Hr).
  exists q', evs. auto.
Qed.

Lemma cloud_sender_conserves_witness :
  exists q' evs,
    cloud_sender_run [FAILURE; FAILURE; SUCCESS] sample_one_queue
      = Some (q', evs) /\
    sent_ok evs ++ contents q' ≡ₚ contents sample_one_queue /\
    (Forall (fun st => st = SUCCESS) [FAILURE; FAILURE; SUCCESS] ->
     sent_ok evs ++ contents q' = contents sample_one_queue) /\
    rejected evs = [].
Proof.
  apply (cloud_sender_conserves [FAILURE; FAILURE; SUCCESS] sample_one_queue).
  exact (proj1 sample_one_queue_wf).
Defined.
